(** * pytorch-tools: the fit wrapper ([Runner]) and the Unet decoder

    A shallow embedding of [pytorch_tools/fit_wrapper/wrapper.py] and of
    [pytorch_tools/segmentation_models/unet.py].

    The driver is stateful Python: it mutates one shared [RunnerState],
    calls into torch, apex, tqdm and the callback dispatcher, and lets every
    exception escape.  It is embedded in a state-and-exception monad over a
    [World] that holds the run context, the store of meter objects, the
    state of the collaborators and the log of the calls made to them. *)

From Stdlib Require Import ZArith List String Bool Lia.
From stdpp Require Import base list relations.
Import ListNotations.

Set Implicit Arguments.

(** ** Scalars

    Losses and metric values are host floats ([to_numpy]).  The driver never
    inspects them, so they stay abstract: a carrier with the operations the
    meters need. *)

Class ScalarOps (Scalar : Type) := {
  s_zero : Scalar;
  s_one : Scalar;
  s_add : Scalar -> Scalar -> Scalar;
  s_sub : Scalar -> Scalar -> Scalar;
  s_mul : Scalar -> Scalar -> Scalar;
  s_div_count : Scalar -> nat -> Scalar
}.

(** ** Meters *)

Section MeterModel.
Context {Scalar : Type} `{ScalarOps Scalar}.

(** Modelled from the spec: the meter class lives in [utils/misc.py], which
    is not part of the sources at hand.  The spec gives it a sum, a count, a
    smoothed value and a decay constant; the driver also reads [m.name]. *)
Record Meter := mkMeter {
  m_name : string;
  m_decay : Scalar;
  m_sum : Scalar;
  m_count : nat;
  m_smoothed : Scalar
}.

(** Modelled from the spec: [reset] clears sum and count and re-seeds the
    smoothing on the next update. *)
Definition meter_reset (m : Meter) : Meter :=
  mkMeter (m_name m) (m_decay m) s_zero 0 s_zero.

(** Modelled from the spec: [update(value)] records one observation;
    [smoothed = decay*smoothed + (1-decay)*value], seeded by the first
    observed value. *)
Definition meter_update (v : Scalar) (m : Meter) : Meter :=
  mkMeter (m_name m) (m_decay m)
    (s_add (m_sum m) v)
    (S (m_count m))
    (match m_count m with
     | O => v
     | S _ => s_add (s_mul (m_decay m) (m_smoothed m))
                    (s_mul (s_sub s_one (m_decay m)) v)
     end).

(** Modelled from the spec: [avg = sum/count] after at least one update,
    zero before. *)
Definition meter_avg (m : Meter) : Scalar :=
  match m_count m with
  | O => s_zero
  | S _ => s_div_count (m_sum m) (m_count m)
  end.

(** Modelled from the spec: [avg_smooth] returns the smoothed mean. *)
Definition meter_avg_smooth (m : Meter) : Scalar := m_smoothed m.

Definition blank_meter : Meter := mkMeter "" s_zero s_zero 0 s_zero.
End MeterModel.

Arguments Meter : clear implicits.

(** Meter objects live in a store; the context holds references to them. *)
Definition loc := nat.

(** ** The run context ([RunnerState]) *)

Section RunContext.
Context {Scalar Input Target Output Metric : Type}.

(** Modelled from the spec: [RunnerState] is declared in [state.py], not at
    hand; the fields are the ones the driver reads and writes.  The model,
    the optimizer and the criterion are collaborators and live in the
    external state of the world.  Of the timer the spec only says that it
    is reset with the meters: it is the count of its resets. *)
Record RunnerState := mkState {
  metrics : list Metric;
  input : option (Input * Target);
  output : option Output;
  num_epochs : Z;
  epoch : Z;
  train_loss : option loc;
  train_metrics : option (list loc);
  val_loss : option loc;
  val_metrics : option (list loc);
  is_train : bool;
  ep_size : option Z;
  step : option nat;
  batch_size : Z;
  metric_meters : list loc;
  loss_meter : loc;
  timer : nat;
  verbose : bool
}.

Definition set_input v (s : RunnerState) :=
  mkState (metrics s) v (output s) (num_epochs s) (epoch s) (train_loss
    s) (train_metrics s) (val_loss s) (val_metrics s) (is_train s)
    (ep_size s) (step s) (batch_size s) (metric_meters s) (loss_meter s)
    (timer s) (verbose s).
Definition set_output v (s : RunnerState) :=
  mkState (metrics s) (input s) v (num_epochs s) (epoch s) (train_loss
    s) (train_metrics s) (val_loss s) (val_metrics s) (is_train s)
    (ep_size s) (step s) (batch_size s) (metric_meters s) (loss_meter s)
    (timer s) (verbose s).
Definition set_num_epochs v (s : RunnerState) :=
  mkState (metrics s) (input s) (output s) v (epoch s) (train_loss s)
    (train_metrics s) (val_loss s) (val_metrics s) (is_train s) (ep_size
    s) (step s) (batch_size s) (metric_meters s) (loss_meter s) (timer
    s) (verbose s).
Definition set_epoch v (s : RunnerState) :=
  mkState (metrics s) (input s) (output s) (num_epochs s) v (train_loss
    s) (train_metrics s) (val_loss s) (val_metrics s) (is_train s)
    (ep_size s) (step s) (batch_size s) (metric_meters s) (loss_meter s)
    (timer s) (verbose s).
Definition set_train_loss v (s : RunnerState) :=
  mkState (metrics s) (input s) (output s) (num_epochs s) (epoch s) v
    (train_metrics s) (val_loss s) (val_metrics s) (is_train s) (ep_size
    s) (step s) (batch_size s) (metric_meters s) (loss_meter s) (timer
    s) (verbose s).
Definition set_train_metrics v (s : RunnerState) :=
  mkState (metrics s) (input s) (output s) (num_epochs s) (epoch s)
    (train_loss s) v (val_loss s) (val_metrics s) (is_train s) (ep_size
    s) (step s) (batch_size s) (metric_meters s) (loss_meter s) (timer
    s) (verbose s).
Definition set_val_loss v (s : RunnerState) :=
  mkState (metrics s) (input s) (output s) (num_epochs s) (epoch s)
    (train_loss s) (train_metrics s) v (val_metrics s) (is_train s)
    (ep_size s) (step s) (batch_size s) (metric_meters s) (loss_meter s)
    (timer s) (verbose s).
Definition set_val_metrics v (s : RunnerState) :=
  mkState (metrics s) (input s) (output s) (num_epochs s) (epoch s)
    (train_loss s) (train_metrics s) (val_loss s) v (is_train s)
    (ep_size s) (step s) (batch_size s) (metric_meters s) (loss_meter s)
    (timer s) (verbose s).
Definition set_is_train v (s : RunnerState) :=
  mkState (metrics s) (input s) (output s) (num_epochs s) (epoch s)
    (train_loss s) (train_metrics s) (val_loss s) (val_metrics s) v
    (ep_size s) (step s) (batch_size s) (metric_meters s) (loss_meter s)
    (timer s) (verbose s).
Definition set_ep_size v (s : RunnerState) :=
  mkState (metrics s) (input s) (output s) (num_epochs s) (epoch s)
    (train_loss s) (train_metrics s) (val_loss s) (val_metrics s)
    (is_train s) v (step s) (batch_size s) (metric_meters s) (loss_meter
    s) (timer s) (verbose s).
Definition set_step v (s : RunnerState) :=
  mkState (metrics s) (input s) (output s) (num_epochs s) (epoch s)
    (train_loss s) (train_metrics s) (val_loss s) (val_metrics s)
    (is_train s) (ep_size s) v (batch_size s) (metric_meters s)
    (loss_meter s) (timer s) (verbose s).
Definition set_batch_size v (s : RunnerState) :=
  mkState (metrics s) (input s) (output s) (num_epochs s) (epoch s)
    (train_loss s) (train_metrics s) (val_loss s) (val_metrics s)
    (is_train s) (ep_size s) (step s) v (metric_meters s) (loss_meter s)
    (timer s) (verbose s).
Definition set_timer v (s : RunnerState) :=
  mkState (metrics s) (input s) (output s) (num_epochs s) (epoch s)
    (train_loss s) (train_metrics s) (val_loss s) (val_metrics s)
    (is_train s) (ep_size s) (step s) (batch_size s) (metric_meters s)
    (loss_meter s) v (verbose s).

(** A data source: a finite, restartable sequence of (input, target)
    batches that may expose [__len__] and a [batch_size] attribute. *)
Record Loader := mkLoader {
  batches : list (Input * Target);
  ld_len : option nat;
  ld_batch_size : option Z
}.
End RunContext.

Arguments RunnerState : clear implicits.
Arguments Loader : clear implicits.

(** ** Calls to collaborators, exceptions and the world *)

(** The six lifecycle events of the callback dispatcher. *)
Inductive hook :=
| on_train_begin | on_epoch_begin | on_batch_begin
| on_batch_end | on_epoch_end | on_train_end.

(** What [for i, batch in pbar] iterates: a [tqdm] bar in verbose mode, a
    plain [enumerate] object otherwise. *)
Inductive pbar_kind := PbarTqdm | PbarEnumerate.

Section Driver.
Context {Scalar Input Target Output Loss Metric UserExn Ext : Type}.
Context `{ScalarOps Scalar}.

Abbreviation State := (RunnerState Input Target Output Metric).
Abbreviation Store := (list (Meter Scalar)).

(** Every call that leaves the driver.  A dispatcher event carries what the
    callbacks can read through their reference to the context: the context
    and the meter objects.  Callbacks are readers here: a hook may raise and
    may change the state of the collaborators (a scheduler, a checkpoint),
    it does not rebind the fields the driver itself writes. *)
Inductive call :=
| Callback (h : hook) (s : State) (hp : Store)
| ModelTrain
| ModelEval
| ModelCall (x : Input)
| Criterion (o : Output) (t : Target)
| ZeroGrad
| ScaledBackward (l : Loss)
| OptimizerStep
| CudaSynchronize
| MetricCall (m : Metric) (o : Output) (t : Target)
| TqdmClear
| TqdmNew (total : option Z)
| TqdmSetDescription (ep n : Z) (training : bool)
| TqdmSetPostfix (desc : list (string * Scalar)).

(** The collaborators: each call transforms their state and either returns
    or raises; the value a call returns is read off the state it ran in. *)
Record Collab := mkCollab {
  ext_run : call -> Ext -> option UserExn * Ext;
  model_out : Input -> Ext -> Output;
  criterion_out : Output -> Target -> Ext -> Loss;
  to_numpy : Loss -> Scalar;
  metric_out : Metric -> Output -> Target -> Ext -> Scalar
}.

(** Python exceptions: the two built-in ones the driver itself can provoke,
    and whatever a collaborator raises. *)
Inductive exn :=
| TypeError
| AttributeError
| Raised (u : UserExn).

Record Entry := mkEntry { e_call : call; e_raised : option UserExn }.

Record World := mkWorld {
  st : State;
  heap : Store;
  ext : Ext;
  grad_enabled : bool;
  trace : list Entry
}.

Definition with_st (f : State -> State) (w : World) : World :=
  mkWorld (f (st w)) (heap w) (ext w) (grad_enabled w) (trace w).
Definition with_heap (f : Store -> Store) (w : World) : World :=
  mkWorld (st w) (f (heap w)) (ext w) (grad_enabled w) (trace w).
Definition with_grad (b : bool) (w : World) : World :=
  mkWorld (st w) (heap w) (ext w) b (trace w).

(** *** The monad *)

Inductive Result (A : Type) :=
| Ok (a : A) (w : World)
| Err (e : exn) (w : World).
Arguments Ok {A} a w.
Arguments Err {A} e w.

Definition M (A : Type) := World -> Result A.

Definition ret {A} (a : A) : M A := fun w => Ok a w.
Definition bind {A B} (m : M A) (f : A -> M B) : M B :=
  fun w => match m w with
           | Ok a w' => f a w'
           | Err e w' => Err e w'
           end.
Definition raise {A} (e : exn) : M A := fun w => Err e w.
Definition gets {A} (f : State -> A) : M A := fun w => Ok (f (st w)) w.
Definition modify (f : State -> State) : M unit :=
  fun w => Ok tt (with_st f w).

Definition world_of {A} (r : Result A) : World :=
  match r with Ok _ w => w | Err _ w => w end.

Notation "x <- m ;; k" := (bind m (fun x => k))
  (at level 100, m at next level, right associativity).
Notation "m ;; k" := (bind m (fun _ => k))
  (at level 100, right associativity).

Fixpoint for_each {A} (l : list A) (body : A -> M unit) : M unit :=
  match l with
  | [] => ret tt
  | x :: l' => body x ;; for_each l' body
  end.

Fixpoint map_m {A B} (f : A -> M B) (l : list A) : M (list B) :=
  match l with
  | [] => ret []
  | x :: l' => y <- f x ;; ys <- map_m f l' ;; ret (y :: ys)
  end.

(** [with cm: body] for a context manager whose exit only restores the
    gradient mode: the exit runs however the body ends. *)
Definition scoped_grad {A} (b : bool) (body : M A) : M A :=
  fun w =>
    let prev := grad_enabled w in
    match body (with_grad b w) with
    | Ok a w' => Ok a (with_grad prev w')
    | Err e w' => Err e (with_grad prev w')
    end.

Variable C : Collab.

(** One call to a collaborator: logged, then returned from or raised. *)
Definition invoke (c : call) : M unit :=
  fun w =>
    let '(r, x') := ext_run C c (ext w) in
    let w' := mkWorld (st w) (heap w) x' (grad_enabled w)
                      (trace w ++ [mkEntry c r]) in
    match r with
    | None => Ok tt w'
    | Some u => Err (Raised u) w'
    end.

(** [self.callbacks.on_*()]: the dispatcher broadcasts the event. *)
Definition callbacks (h : hook) : M unit :=
  fun w => invoke (Callback h (st w) (heap w)) w.

Definition model_call (images : Input) : M Output :=
  fun w => (invoke (ModelCall images) ;; ret (model_out C images (ext w))) w.
Definition criterion_call (o : Output) (t : Target) : M Loss :=
  fun w => (invoke (Criterion o t) ;; ret (criterion_out C o t (ext w))) w.
Definition metric_call (m : Metric) (o : Output) (t : Target) : M Scalar :=
  fun w => (invoke (MetricCall m o t) ;; ret (metric_out C m o t (ext w))) w.

(** *** Meter objects in the store *)

(** Reading through a reference.  Every reference the driver holds is
    allocated; the default only makes the read total. *)
Definition deref (hp : Store) (l : loc) : Meter Scalar :=
  default blank_meter (hp !! l).

Definition meter_reset_at (l : loc) : M unit :=
  fun w => Ok tt (with_heap (alter meter_reset l) w).
Definition meter_update_at (l : loc) (v : Scalar) : M unit :=
  fun w => Ok tt (with_heap (alter (meter_update v) l) w).
Definition read_meter (l : loc) : M (Meter Scalar) :=
  fun w => Ok (deref (heap w) l) w.

(** [copy(m)]: a new object with the fields of [m]. *)
Definition copy (l : loc) : M loc :=
  fun w => Ok (length (heap w))
              (with_heap (fun hp => hp ++ [deref hp l]) w).

(** *** Python built-ins *)

(** [len(loader)]: a [TypeError] for an object without [__len__]. *)
Definition len (ld : Loader Input Target) : M Z :=
  match ld_len ld with
  | Some n => ret (Z.of_nat n)
  | None => raise TypeError
  end.

(** [steps or len(loader)]: the right operand is evaluated only when the
    left one is falsy, that is [None] or [0]. *)
Definition steps_or_len (steps : option Z) (ld : Loader Input Target) : M Z :=
  match steps with
  | Some s => if (s =? 0)%Z then len ld else ret s
  | None => len ld
  end.

(** [hasattr(tqdm._instances)], line 77: [hasattr] takes two arguments, a
    call with one raises [TypeError].  (With a tqdm that creates
    [_instances] with its first bar, the argument itself raises
    [AttributeError] before that; line 77 raises either way.) *)
Definition hasattr_one_argument : M bool := raise TypeError.

(** [range(start, stop)]. *)
Definition range (start stop : Z) : list Z :=
  map (fun i => (start + Z.of_nat i)%Z) (seq 0 (Z.to_nat (stop - start))).

(** [enumerate(l)]. *)
Definition enumerate {A} (l : list A) : list (nat * A) :=
  combine (seq 0 (length l)) l.

(** [d.update({k: v})] on an insertion-ordered dict. *)
Fixpoint dict_set (k : string) (v : Scalar) (d : list (string * Scalar)) :=
  match d with
  | [] => [(k, v)]
  | (k', v') :: d' =>
      if String.eqb k k' then (k, v) :: d' else (k', v') :: dict_set k v d'
  end.

(** [pbar.set_postfix] with the readout: an [enumerate] object has no such
    method. *)
Definition set_postfix (p : pbar_kind) (desc : list (string * Scalar)) : M unit :=
  match p with
  | PbarTqdm => invoke (TqdmSetPostfix desc)
  | PbarEnumerate => raise AttributeError
  end.

(** *** [Runner._make_step] *)

Definition _make_step (batch : Input * Target) : M unit :=
  modify (set_input (Some batch)) ;;
  let '(images, target) := batch in
  output <- model_call images ;;
  modify (set_output (Some output)) ;;
  loss <- criterion_call output target ;;
  training <- gets is_train ;;
  (if training then
     invoke ZeroGrad ;;
     invoke (ScaledBackward loss) ;;
     invoke OptimizerStep ;;
     invoke CudaSynchronize
   else ret tt) ;;
  lm <- gets loss_meter ;;
  meter_update_at lm (to_numpy C loss) ;;
  ms <- gets metrics ;;
  mms <- gets metric_meters ;;
  for_each (combine ms mms) (fun '(metric, meter) =>
    v <- metric_call metric output target ;;
    meter_update_at meter v).

(** *** [Runner._run_one_epoch] *)

(** Lines 94-96: the readout of the smoothed loss and metrics. *)
Definition progress_readout (p : pbar_kind) : M unit :=
  lm <- gets loss_meter ;;
  l <- read_meter lm ;;
  mms <- gets metric_meters ;;
  ms <- map_m read_meter mms ;;
  set_postfix p
    (fold_left (fun d m => dict_set (m_name m) (meter_avg_smooth m) d) ms
               [("Loss"%string, meter_avg_smooth l)]).

(** Lines 76-86: the iterator of the loop. *)
Definition make_pbar : M pbar_kind :=
  v <- gets verbose ;;
  if v then
    has <- hasattr_one_argument ;;
    (if has then invoke TqdmClear else ret tt) ;;
    total <- gets ep_size ;;
    invoke (TqdmNew total) ;;
    ep <- gets epoch ;;
    n <- gets num_epochs ;;
    training <- gets is_train ;;
    invoke (TqdmSetDescription ep n training) ;;
    ret PbarTqdm
  else ret PbarEnumerate.

(** Lines 89-97: the body of the loop over the batches. *)
Definition batch_body (p : pbar_kind) (ib : nat * (Input * Target)) : M unit :=
  let '(i, batch) := ib in
  modify (set_step (Some i)) ;;
  callbacks on_batch_begin ;;
  _make_step batch ;;
  v <- gets verbose ;;
  (if v then progress_readout p else ret tt) ;;
  callbacks on_batch_end.

Definition _run_one_epoch (loader : Loader Input Target) (steps : option Z) : M unit :=
  lm <- gets loss_meter ;;
  meter_reset_at lm ;;
  modify (fun s => set_timer (S (timer s)) s) ;;
  mms <- gets metric_meters ;;
  for_each mms meter_reset_at ;;
  n <- steps_or_len steps loader ;;
  modify (set_ep_size (Some n)) ;;
  pbar <- make_pbar ;;
  training <- gets is_train ;;
  scoped_grad training
    (for_each (enumerate (batches loader)) (batch_body pbar)).

(** *** [Runner.evaluate] *)

Definition evaluate (loader : Loader Input Target) (steps : option Z)
  : M (Scalar * list Scalar) :=
  modify (set_is_train false) ;;
  invoke ModelEval ;;
  _run_one_epoch loader steps ;;
  lm <- gets loss_meter ;;
  l <- read_meter lm ;;
  mms <- gets metric_meters ;;
  ms <- map_m read_meter mms ;;
  ret (meter_avg l, map meter_avg ms).

(** *** [Runner.fit] *)

(** Lines 35-36. *)
Definition snapshot_train : M unit :=
  lm <- gets loss_meter ;;
  l <- copy lm ;;
  modify (set_train_loss (Some l)) ;;
  mms <- gets metric_meters ;;
  ls <- map_m copy mms ;;
  modify (set_train_metrics (Some ls)).

(** Lines 40-41. *)
Definition snapshot_val : M unit :=
  lm <- gets loss_meter ;;
  l <- copy lm ;;
  modify (set_val_loss (Some l)) ;;
  mms <- gets metric_meters ;;
  ls <- map_m copy mms ;;
  modify (set_val_metrics (Some ls)).

(** Lines 30-42: the body of the loop over the epochs. *)
Definition fit_epoch (train_loader : Loader Input Target)
    (steps_per_epoch : option Z) (val_loader : option (Loader Input Target))
    (val_steps : option Z) (ep : Z) : M unit :=
  modify (set_is_train true) ;;
  modify (set_epoch ep) ;;
  callbacks on_epoch_begin ;;
  invoke ModelTrain ;;
  _run_one_epoch train_loader steps_per_epoch ;;
  snapshot_train ;;
  match val_loader with
  | Some vl => evaluate vl val_steps ;; snapshot_val
  | None => ret tt
  end ;;
  callbacks on_epoch_end.

Definition fit (train_loader : Loader Input Target)
    (steps_per_epoch : option Z) (val_loader : option (Loader Input Target))
    (val_steps : option Z) (epochs start_epoch : Z) : M unit :=
  modify (set_num_epochs epochs) ;;
  modify (set_batch_size
            (match ld_batch_size train_loader with Some b => b | None => 1%Z end)) ;;
  callbacks on_train_begin ;;
  for_each (range start_epoch epochs)
    (fit_epoch train_loader steps_per_epoch val_loader val_steps) ;;
  callbacks on_train_end.

(** *** Program points

    Pieces of the functions above, for statements about the world at a
    given line. *)

(** [_run_one_epoch] from line 75 on. *)
Definition epoch_tail (loader : Loader Input Target) (steps : option Z) : M unit :=
  n <- steps_or_len steps loader ;;
  modify (set_ep_size (Some n)) ;;
  pbar <- make_pbar ;;
  training <- gets is_train ;;
  scoped_grad training
    (for_each (enumerate (batches loader)) (batch_body pbar)).


(** The body of the loop of [fit] up to the snapshot of the training pass,
    lines 30-36. *)
Definition train_phase (train_loader : Loader Input Target)
    (steps_per_epoch : option Z) (ep : Z) : M unit :=
  modify (set_is_train true) ;;
  modify (set_epoch ep) ;;
  callbacks on_epoch_begin ;;
  invoke ModelTrain ;;
  _run_one_epoch train_loader steps_per_epoch ;;
  snapshot_train.

(** The validation pass and its snapshot, lines 39-41. *)
Definition val_phase (val_loader : Loader Input Target) (val_steps : option Z)
  : M unit :=
  evaluate val_loader val_steps ;;
  snapshot_val.

(** The body of the loop of [fit] past lines 30-31. *)
Definition epoch_rest (train_loader : Loader Input Target)
    (steps_per_epoch : option Z) (val_loader : option (Loader Input Target))
    (val_steps : option Z) : M unit :=
  callbacks on_epoch_begin ;;
  invoke ModelTrain ;;
  _run_one_epoch train_loader steps_per_epoch ;;
  snapshot_train ;;
  match val_loader with
  | Some vl => evaluate vl val_steps ;; snapshot_val
  | None => ret tt
  end ;;
  callbacks on_epoch_end.

(** [fit] up to the moment epoch [k] is about to begin. *)
Definition fit_until (train_loader : Loader Input Target)
    (steps_per_epoch : option Z) (val_loader : option (Loader Input Target))
    (val_steps : option Z) (epochs start_epoch k : Z) : M unit :=
  modify (set_num_epochs epochs) ;;
  modify (set_batch_size
            (match ld_batch_size train_loader with Some b => b | None => 1%Z end)) ;;
  callbacks on_train_begin ;;
  for_each (range start_epoch k)
    (fit_epoch train_loader steps_per_epoch val_loader val_steps).

End Driver.

Arguments Ok {Scalar Input Target Output Loss Metric UserExn Ext A} a w.
Arguments Err {Scalar Input Target Output Loss Metric UserExn Ext A} e w.
Arguments TypeError {UserExn}.
Arguments AttributeError {UserExn}.

(** ** The Unet decoder ([segmentation_models/unet.py]) *)

Module Unet.

(** What a [forward] can be handed or hand back. *)
Inductive value (Tensor : Type) :=
| PyNone
| PyTensor (t : Tensor).
Arguments PyNone {Tensor}.
Arguments PyTensor {Tensor} t.

(** A decoder block as constructed: which attribute holds it and the
    channel counts it was built with.  Its weights belong to torch. *)
Record Block := mkBlock { blk_name : string; blk_in : Z; blk_out : Z }.

(** The sub-modules a [forward] applies. *)
Inductive callee :=
| BlockSeq (b : Block)        (* [b.block(x)], the [nn.Sequential] inside *)
| BlockForward (b : Block)    (* [UnetDecoderBlock.forward] of [b] *)
| Dropout2d
| Conv1x1 (cin cout : Z).

Section Model.
Context {Tensor UserExn : Type}.

Inductive exn :=
| IndexError
| Raised (u : UserExn).

Record Call := mkCall { c_callee : callee; c_args : list (value Tensor) }.

(** Applying a torch module: returns a value or raises. *)
Variable run_module : callee -> list (value Tensor) -> UserExn + value Tensor.

(** Exceptions plus a log of the module applications. *)
Definition M (A : Type) := list Call -> (exn + A) * list Call.

Definition ret {A} (a : A) : M A := fun log => (inr a, log).
Definition bind {A B} (m : M A) (f : A -> M B) : M B :=
  fun log => match m log with
             | (inr a, log') => f a log'
             | (inl e, log') => (inl e, log')
             end.
Definition raise {A} (e : exn) : M A := fun log => (inl e, log).

Notation "x <- m ;; k" := (bind m (fun x => k))
  (at level 100, m at next level, right associativity).
Notation "m ;; k" := (bind m (fun _ => k))
  (at level 100, right associativity).

Definition apply (c : callee) (args : list (value Tensor)) : M (value Tensor) :=
  fun log =>
    match run_module c args with
    | inr v => (inr v, log ++ [mkCall c args])
    | inl u => (inl (Raised u), log ++ [mkCall c args])
    end.

(** [l[i]] for a non-negative literal [i]. *)
Definition index {A} (l : list A) (i : nat) : M A :=
  match l !! i with
  | Some a => ret a
  | None => raise IndexError
  end.

(** [UnetCenterBlock.forward]: the block is applied, nothing is returned. *)
Definition UnetCenterBlock_forward (self : Block) (x : value Tensor)
  : M (value Tensor) :=
  apply (BlockSeq self) [x] ;;
  ret PyNone.

Record UnetDecoder := mkDecoder {
  center : option Block;
  layer1 : Block;
  layer2 : Block;
  layer3 : Block;
  layer4 : Block;
  layer5 : Block;
  final_conv : Z * Z
}.

Definition compute_channels (encoder_channels decoder_channels : list Z)
  : M (list Z) :=
  e0 <- index encoder_channels 0 ;;
  e1 <- index encoder_channels 1 ;;
  e2 <- index encoder_channels 2 ;;
  d0 <- index decoder_channels 0 ;;
  e3 <- index encoder_channels 3 ;;
  d1 <- index decoder_channels 1 ;;
  e4 <- index encoder_channels 4 ;;
  d2 <- index decoder_channels 2 ;;
  d3 <- index decoder_channels 3 ;;
  ret [e0 + e1; e2 + d0; e3 + d1; e4 + d2; 0 + d3]%Z.

(** [UnetDecoder.__init__]: which blocks are built, with which channels.
    The weights, their initialisation and the dropout rate belong to
    torch. *)
Definition UnetDecoder_init (encoder_channels decoder_channels : list Z)
    (final_channels : Z) (with_center : bool) : M UnetDecoder :=
  c <- (if with_center then
          channels <- index encoder_channels 0 ;;
          ret (Some (mkBlock "center" channels channels))
        else ret None) ;;
  in_channels <- compute_channels encoder_channels decoder_channels ;;
  let out_channels := decoder_channels in
  i0 <- index in_channels 0 ;; o0 <- index out_channels 0 ;;
  i1 <- index in_channels 1 ;; o1 <- index out_channels 1 ;;
  i2 <- index in_channels 2 ;; o2 <- index out_channels 2 ;;
  i3 <- index in_channels 3 ;; o3 <- index out_channels 3 ;;
  i4 <- index in_channels 4 ;; o4 <- index out_channels 4 ;;
  o4' <- index out_channels 4 ;;
  ret (mkDecoder c
         (mkBlock "layer1" i0 o0) (mkBlock "layer2" i1 o1)
         (mkBlock "layer3" i2 o2) (mkBlock "layer4" i3 o3)
         (mkBlock "layer5" i4 o4) (o4', final_channels)).

(** [UnetDecoder.forward].  [if self.center:] tests the attribute set by
    [__init__]: [None], or a module object, which is truthy. *)
Definition UnetDecoder_forward (self : UnetDecoder) (x : list (value Tensor))
  : M (value Tensor) :=
  encoder_head <- index x 0 ;;
  let skips := drop 1 x in
  encoder_head <- match center self with
                  | Some c => UnetCenterBlock_forward c encoder_head
                  | None => ret encoder_head
                  end ;;
  s0 <- index skips 0 ;;
  x <- apply (BlockForward (layer1 self)) [encoder_head; s0] ;;
  s1 <- index skips 1 ;;
  x <- apply (BlockForward (layer2 self)) [x; s1] ;;
  s2 <- index skips 2 ;;
  x <- apply (BlockForward (layer3 self)) [x; s2] ;;
  s3 <- index skips 3 ;;
  x <- apply (BlockForward (layer4 self)) [x; s3] ;;
  x <- apply (BlockForward (layer5 self)) [x; PyNone] ;;
  x <- apply Dropout2d [x] ;;
  x <- apply (Conv1x1 (fst (final_conv self)) (snd (final_conv self))) [x] ;;
  ret x.

(** [Unet.__init__], past [get_encoder]: the decoder is built from the
    encoder's [out_shapes]. *)
Definition Unet_decoder (out_shapes decoder_channels : list Z)
    (num_classes : Z) (with_center : bool) : M UnetDecoder :=
  UnetDecoder_init out_shapes decoder_channels num_classes with_center.

End Model.

Arguments IndexError {UserExn}.
End Unet.

(** ** How far a piece of the driver reaches

    The driver's effects are of a few kinds: a call to a collaborator, a
    write to one field of the context, an update of a live meter object, the
    allocation of a copy, a change of the gradient mode.  Which of them a
    piece of the driver may perform depends on where it sits. *)

Inductive scope := InLoop | InPass | InEvaluate | InEpoch | InFit.

Definition level (sc : scope) : nat :=
  match sc with
  | InLoop => 0 | InPass => 1 | InEvaluate => 2 | InEpoch => 3 | InFit => 4
  end.

Section Reach.
Context {Scalar Input Target Output Loss Metric UserExn Ext : Type}.
Context `{ScalarOps Scalar}.

Abbreviation State' := (RunnerState Input Target Output Metric).
Abbreviation World' :=
  (@World Scalar Input Target Output Loss Metric UserExn Ext).
Abbreviation call' := (@call Scalar Input Target Output Loss Metric).

Variable C : @Collab Scalar Input Target Output Loss Metric UserExn Ext.

(** The circumstances in which the driver makes a call: a dispatcher event
    shows the callbacks the current context; the optimizer, the scaled
    backward pass and the device barrier are only reached while training;
    the progress bar only in verbose mode. *)
Definition issued (c : call') (w : World') : Prop :=
  match c with
  | Callback _ s hp => s = st w /\ hp = heap w
  | ZeroGrad | ScaledBackward _ | OptimizerStep | CudaSynchronize =>
      is_train (st w) = true
  | TqdmClear | TqdmNew _ | TqdmSetDescription _ _ _ | TqdmSetPostfix _ =>
      verbose (st w) = true
  | _ => True
  end.

(** The snapshot fields, written once a pass of [fit] has returned. *)
Inductive snap_write : (State' -> State') -> Prop :=
| sw_train_loss v : snap_write (set_train_loss v)
| sw_train_metrics v : snap_write (set_train_metrics v)
| sw_val_loss v : snap_write (set_val_loss v)
| sw_val_metrics v : snap_write (set_val_metrics v).

(** The fields [fit] writes before a training pass. *)
Inductive fit_write : (State' -> State') -> Prop :=
| fw_is_train : fit_write (set_is_train true)
| fw_epoch v : fit_write (set_epoch v)
| fw_num_epochs v : fit_write (set_num_epochs v)
| fw_batch_size v : fit_write (set_batch_size v).

(** One effect that does not raise. *)
Inductive atom (sc : scope) : World' -> World' -> Prop :=
| atom_call w c x' :
    issued c w ->
    ext_run C c (ext w) = (None, x') ->
    atom sc w (mkWorld (st w) (heap w) x' (grad_enabled w)
                       (trace w ++ [mkEntry c None]))
| atom_input w v : atom sc w (with_st (set_input v) w)
| atom_output w v : atom sc w (with_st (set_output v) w)
| atom_step w v : atom sc w (with_st (set_step v) w)
| atom_alter w f l :
    l = loss_meter (st w) \/ In l (metric_meters (st w)) ->
    atom sc w (with_heap (alter f l) w)
| atom_grad w b : atom sc w (with_grad b w)
| atom_ep_size w v :
    1 <= level sc -> atom sc w (with_st (set_ep_size v) w)
| atom_timer w v :
    1 <= level sc -> atom sc w (with_st (set_timer v) w)
| atom_eval_mode w :
    2 <= level sc -> atom sc w (with_st (set_is_train false) w)
| atom_snap_write w f :
    3 <= level sc -> snap_write f -> atom sc w (with_st f w)
| atom_copy w l :
    3 <= level sc ->
    atom sc w (with_heap (fun hp => hp ++ [deref hp l]) w)
| atom_fit_write w f :
    level sc = 4 -> fit_write f -> atom sc w (with_st f w).

(** A run of effects none of which raises. *)
Definition reaches (sc : scope) : World' -> World' -> Prop := rtc (atom sc).

(** The effect that raises [e], taking the world [w1] to [w']: a call of a
    collaborator that raised, or a built-in that did. *)
Definition crash (e : exn) (w1 w' : World') : Prop :=
  match e with
  | Raised u =>
      exists c x', issued c w1 /\ ext_run C c (ext w1) = (Some u, x') /\
        w' = mkWorld (st w1) (heap w1) x' (grad_enabled w1)
                     (trace w1 ++ [mkEntry c (Some u)])
  | _ => w' = w1
  end.

(** What a result says about the run that produced it. *)
Definition sound (sc : scope) {A} (w : World') (r : Result A) : Prop :=
  match r with
  | Ok _ w' => reaches sc w w'
  | Err e w' => exists w1, reaches sc w w1 /\ crash e w1 w'
  end.

(** The collaborators never raise. *)
Definition never_raises : Prop :=
  forall c x, fst (ext_run C c x) = None.

(** The dispatcher events of a log, each with the epoch index the
    callbacks read in the context. *)
Definition hook_log (tr : list (@Entry Scalar Input Target Output Loss Metric UserExn))
  : list (hook * Z) :=
  flat_map (fun en => match e_call en with
                      | Callback h s _ => [(h, epoch s)]
                      | _ => []
                      end) tr.

(** [m] returns from [w], having logged the dispatcher events [hs]. *)
Definition completes {A}
    (m : @M Scalar Input Target Output Loss Metric UserExn Ext A)
    (w : World') (hs : list (hook * Z)) : Prop :=
  exists (a : A) (w' : World'),
    m w = Ok a w' /\ hook_log (trace w') = hook_log (trace w) ++ hs.


(** The calls [fit] and [evaluate] make before the first batch is looked
    at. *)
Definition before_batches (c : call') : bool :=
  match c with
  | Callback on_train_begin _ _ | Callback on_epoch_begin _ _
  | ModelTrain | ModelEval => true
  | _ => false
  end.



(** What "before any batch is processed" means for a call that raised [e]
    in the world [w']: all it logged are calls made before the first batch
    is looked at, the step index was never set, and the exception is the
    [TypeError] of [len] unless one of those calls raised first. *)
Definition fails_before_batches (w : World') (e : @exn UserExn) (w' : World') : Prop :=
  exists tr : list (@Entry Scalar Input Target Output Loss Metric UserExn),
    trace w' = trace w ++ tr /\
    Forall (fun en => before_batches (e_call en) = true) tr /\
    step (st w') = step (st w) /\
    (Forall (fun en => e_raised en = None) tr -> e = TypeError).

(** An object of the store that is none of the live meters. *)
Definition detached (w : World') (l : loc) : Prop :=
  l < length (heap w) /\
  l <> loss_meter (st w) /\
  ~ In l (metric_meters (st w)).

(** The object at [l] has in [w'] the fields it had in [w]. *)
Definition unchanged (w w' : World') (l : loc) : Prop :=
  heap w' !! l = heap w !! l.

(** The objects at [l] and [ls] hold what the loss meter and the metric
    meters hold, in the order of the metrics. *)
Definition copies (w : World') (l : loc) (ls : list loc) : Prop :=
  deref (heap w) l = deref (heap w) (loss_meter (st w)) /\
  Forall2 (fun l' m => deref (heap w) l' = deref (heap w) m)
          ls (metric_meters (st w)).

(** A well-formed store: the references to the live meters are allocated. *)
Definition wf (w : World') : Prop :=
  loss_meter (st w) < length (heap w) /\
  Forall (fun l => l < length (heap w)) (metric_meters (st w)).

End Reach.

(** ** The dispatcher events a run is expected to log

    Each event is paired with the epoch index the callbacks read. *)

(** One pass over [n] batches during epoch [ep]. *)
Definition pass_hooks (ep : Z) (n : nat) : list (hook * Z) :=
  concat (repeat [(on_batch_begin, ep); (on_batch_end, ep)] n).

(** One epoch of [fit]: the training pass, then the validation pass when a
    validation source is given. *)
Definition epoch_hooks {Input Target : Type} (tl : Loader Input Target)
    (vl : option (Loader Input Target)) (ep : Z) : list (hook * Z) :=
  (on_epoch_begin, ep) ::
  pass_hooks ep (length (batches tl)) ++
  match vl with
  | Some v => pass_hooks ep (length (batches v))
  | None => []
  end ++
  [(on_epoch_end, ep)].

(** A whole [fit] entered with epoch index [ep0] in the context. *)
Definition fit_hooks {Input Target : Type} (tl : Loader Input Target)
    (vl : option (Loader Input Target)) (ep0 start epochs : Z)
  : list (hook * Z) :=
  (on_train_begin, ep0) ::
  flat_map (epoch_hooks tl vl) (range start epochs) ++
  [(on_train_end, List.last (range start epochs) ep0)].

(** The epoch indices seen at [on_epoch_begin], in the order of a log. *)
Definition epochs_begun (hs : list (hook * Z)) : list Z :=
  flat_map (fun p => match fst p with
                     | on_epoch_begin => [snd p]
                     | _ => []
                     end) hs.

(** How often an event occurs in a log. *)
Definition hook_eqb (a b : hook) : bool :=
  match a, b with
  | on_train_begin, on_train_begin | on_epoch_begin, on_epoch_begin
  | on_batch_begin, on_batch_begin | on_batch_end, on_batch_end
  | on_epoch_end, on_epoch_end | on_train_end, on_train_end => true
  | _, _ => false
  end.

Definition count_hook (h : hook) (hs : list (hook * Z)) : nat :=
  length (filter (fun p => hook_eqb h (fst p)) hs).

(** [steps or len(loader)] has a value: a non-zero step count is given or
    the source has a length. *)
Definition sized {Input Target : Type} (steps : option Z)
    (ld : Loader Input Target) : bool :=
  match steps with
  | Some s => if (s =? 0)%Z then bool_decide (is_Some (ld_len ld)) else true
  | None => bool_decide (is_Some (ld_len ld))
  end.

(** The same for the sources of a [fit]. *)
Definition all_sized {Input Target : Type} (steps : option Z)
    (tl : Loader Input Target) (vsteps : option Z)
    (vl : option (Loader Input Target)) : bool :=
  sized steps tl &&
  match vl with Some v => sized vsteps v | None => true end.

(** The value of [steps or len(loader)] when it has one. *)
Definition effective_size {Input Target : Type} (steps : option Z)
    (ld : Loader Input Target) : option Z :=
  match steps with
  | Some s => if (s =? 0)%Z then Z.of_nat <$> ld_len ld else Some s
  | None => Z.of_nat <$> ld_len ld
  end.

(** ** The calls a run is expected to make

    What is called and in which order: the calls of one step with their
    arguments, and the kinds of calls of a pass, of an epoch and of a whole
    [fit]. *)

(** The kind of a call, without its arguments (a metric call keeps its
    metric). *)
Inductive kind (Metric : Type) :=
| KCallback (h : hook)
| KModelTrain
| KModelEval
| KModelCall
| KCriterion
| KZeroGrad
| KScaledBackward
| KOptimizerStep
| KCudaSynchronize
| KMetricCall (m : Metric)
| KTqdm.
Arguments KCallback {Metric} h.
Arguments KModelTrain {Metric}.
Arguments KModelEval {Metric}.
Arguments KModelCall {Metric}.
Arguments KCriterion {Metric}.
Arguments KZeroGrad {Metric}.
Arguments KScaledBackward {Metric}.
Arguments KOptimizerStep {Metric}.
Arguments KCudaSynchronize {Metric}.
Arguments KMetricCall {Metric} m.
Arguments KTqdm {Metric}.

Section Protocol.
Context {Scalar Input Target Output Loss Metric UserExn Ext : Type}.
Context `{ScalarOps Scalar}.

Abbreviation PState := (RunnerState Input Target Output Metric).
Abbreviation PWorld :=
  (@World Scalar Input Target Output Loss Metric UserExn Ext).
Abbreviation pcall := (@call Scalar Input Target Output Loss Metric).
Abbreviation PEntry := (@Entry Scalar Input Target Output Loss Metric UserExn).

Variable C : @Collab Scalar Input Target Output Loss Metric UserExn Ext.

Definition kind_of (c : pcall) : kind Metric :=
  match c with
  | Callback h _ _ => KCallback h
  | ModelTrain => KModelTrain
  | ModelEval => KModelEval
  | ModelCall _ => KModelCall
  | Criterion _ _ => KCriterion
  | ZeroGrad => KZeroGrad
  | ScaledBackward _ => KScaledBackward
  | OptimizerStep => KOptimizerStep
  | CudaSynchronize => KCudaSynchronize
  | MetricCall m _ _ => KMetricCall m
  | TqdmClear | TqdmNew _ | TqdmSetDescription _ _ _ | TqdmSetPostfix _ => KTqdm
  end.

(** The kinds of the calls of a log, in its order. *)
Definition call_log (tr : list PEntry) : list (kind Metric) :=
  map (fun en => kind_of (e_call en)) tr.

(** The state of the collaborators once the call [c] has run. *)
Definition ext_after (c : pcall) (x : Ext) : Ext := snd (ext_run C c x).

(** The log entry of a call that returned. *)
Definition returned (c : pcall) : PEntry := mkEntry c None.

(** [zip(metrics, metric_meters)] stops at the shorter of the two: the
    metrics that get a meter and the meters that get a metric. *)
Definition paired_metrics (s : PState) : list Metric :=
  firstn (length (metric_meters s)) (metrics s).
Definition paired_meters (s : PState) : list loc :=
  firstn (length (metrics s)) (metric_meters s).

(** The meters a pass resets, and the meters a step feeds. *)
Definition live_meters (s : PState) : list loc :=
  loss_meter s :: metric_meters s.
Definition fed_meters (s : PState) : list loc :=
  loss_meter s :: paired_meters s.

(** The calls of one step on [batch], entered with the context [s] and the
    collaborators in the state [x]: the criterion gets what the model
    returned, the backward pass the loss the criterion returned, every
    metric the same output and target. *)
Definition step_calls (s : PState) (x : Ext) (batch : Input * Target)
  : list pcall :=
  let '(images, target) := batch in
  let out := model_out C images x in
  let loss := criterion_out C out target (ext_after (ModelCall images) x) in
  ModelCall images :: Criterion out target ::
  (if is_train s
   then [ZeroGrad; ScaledBackward loss; OptimizerStep; CudaSynchronize]
   else []) ++
  map (fun m => MetricCall m out target) (paired_metrics s).

(** What the callbacks read at the event [h], in the order of a log. *)
Definition seen {A} (f : PState -> A) (h : hook) (tr : list PEntry) : list A :=
  flat_map (fun en => match e_call en with
                      | Callback h' s _ => if hook_eqb h h' then [f s] else []
                      | _ => []
                      end) tr.

(** The condition under which a pass raises before its loop: line 75 has
    no size to record, or line 77 is reached. *)
Definition fails_before_loop (steps : option Z) (ld : Loader Input Target)
    (s : PState) : bool :=
  match effective_size steps ld with
  | Some _ => verbose s
  | None => true
  end.

(** Every dispatcher event of a log shows the callbacks a context that
    satisfies [P]. *)
Definition shows (P : PState -> Prop) (tr : list PEntry) : Prop :=
  Forall (fun en => match e_call en with
                    | Callback _ s _ => P s
                    | _ => True
                    end) tr.

(** What a result obtained from [w] says about the two sizes of a run: its
    context holds [n] as the number of epochs and [b] as the batch size, and
    so does the context every dispatcher event has shown since [w]. *)
Definition announces (n b : Z) {A} (w : PWorld)
    (r : @Result Scalar Input Target Output Loss Metric UserExn Ext A) : Prop :=
  (num_epochs (st (world_of r)) = n /\ batch_size (st (world_of r)) = b) /\
  exists tr : list PEntry,
    trace (world_of r) = trace w ++ tr /\
    shows (fun s => num_epochs s = n /\ batch_size s = b) tr.


(** The number of observations the meter at [l] holds. *)
Definition observations (hp : list (Meter Scalar)) (l : loc) : nat :=
  m_count (deref hp l).

End Protocol.

(** The kinds of the calls of one step. *)
Definition step_kinds {Metric : Type} (training : bool) (ms : list Metric)
  : list (kind Metric) :=
  [KModelCall; KCriterion] ++
  (if training
   then [KZeroGrad; KScaledBackward; KOptimizerStep; KCudaSynchronize]
   else []) ++
  map KMetricCall ms.

(** One pass over [n] batches. *)
Definition pass_kinds {Metric : Type} (training : bool) (ms : list Metric)
    (n : nat) : list (kind Metric) :=
  concat (repeat (KCallback on_batch_begin :: step_kinds training ms ++
                  [KCallback on_batch_end]) n).

(** One epoch of [fit]. *)
Definition epoch_kinds {Input Target Metric : Type} (ms : list Metric)
    (tl : Loader Input Target) (vl : option (Loader Input Target))
  : list (kind Metric) :=
  KCallback on_epoch_begin :: KModelTrain ::
  pass_kinds true ms (length (batches tl)) ++
  match vl with
  | Some v => KModelEval :: pass_kinds false ms (length (batches v))
  | None => []
  end ++
  [KCallback on_epoch_end].

(** A whole [fit] over [n] epochs. *)
Definition fit_kinds {Input Target Metric : Type} (ms : list Metric)
    (tl : Loader Input Target) (vl : option (Loader Input Target)) (n : nat)
  : list (kind Metric) :=
  KCallback on_train_begin ::
  concat (repeat (epoch_kinds ms tl vl) n) ++
  [KCallback on_train_end].

Definition is_optimizer_step {Metric : Type} (k : kind Metric) : bool :=
  match k with KOptimizerStep => true | _ => false end.

Definition is_forward_pass {Metric : Type} (k : kind Metric) : bool :=
  match k with KModelCall => true | _ => false end.

(** How many calls of a log satisfy [p]. *)
Definition count_kind {Metric : Type} (p : kind Metric -> bool)
    (ks : list (kind Metric)) : nat :=
  length (List.filter p ks).

(** ** The modules a decoder applies *)

Section Pipeline.
Context {Tensor UserExn : Type}.
Variable run_module :
  Unet.callee -> list (Unet.value Tensor) -> UserExn + Unet.value Tensor.

(** Every module returns, whatever it is given. *)
Definition modules_return : Prop :=
  forall c args, exists v, run_module c args = inr v.

(** What a module returns, when it does. *)
Definition module_value (c : Unet.callee) (args : list (Unet.value Tensor))
  : Unet.value Tensor :=
  match run_module c args with
  | inr v => v
  | inl _ => Unet.PyNone
  end.

(** The modules [UnetDecoder.forward] applies when nothing stops it. *)
Definition decoder_pipeline (d : Unet.UnetDecoder) : list Unet.callee :=
  match Unet.center d with
  | Some c => [Unet.BlockSeq c]
  | None => []
  end ++
  [Unet.BlockForward (Unet.layer1 d); Unet.BlockForward (Unet.layer2 d);
   Unet.BlockForward (Unet.layer3 d); Unet.BlockForward (Unet.layer4 d);
   Unet.BlockForward (Unet.layer5 d); Unet.Dropout2d;
   Unet.Conv1x1 (fst (Unet.final_conv d)) (snd (Unet.final_conv d))].

(** How many of them are applied on [x]: with fewer than five features the
    head or a skip is missing. *)
Definition applied_on (d : Unet.UnetDecoder) (x : list (Unet.value Tensor))
  : nat :=
  match x with
  | [] => 0
  | _ :: skips =>
      (match Unet.center d with Some _ => 1 | None => 0 end) +
      (if 4 <=? length skips then 7 else length skips)
  end.

(** The decoder blocks as a fold: each block gets what the block before
    it returned and its skip; the fifth block gets no skip. *)
Definition decode (d : Unet.UnetDecoder) (head : Unet.value Tensor)
    (skips : list (Unet.value Tensor)) : Unet.value Tensor :=
  fold_left
    (fun acc ls => module_value (Unet.BlockForward (fst ls)) [acc; snd ls])
    (combine [Unet.layer1 d; Unet.layer2 d; Unet.layer3 d; Unet.layer4 d;
              Unet.layer5 d]
             (firstn 4 skips ++ [Unet.PyNone]))
    head.

End Pipeline.

(** ** Concrete collaborators, contexts and data sources

    Small instances on which the driver can be run: integers for tensors and
    scalars, a counter of optimizer steps for the state of the
    collaborators. *)

Module Demo.

#[export] Instance ZScalar : ScalarOps Z := {|
  s_zero := 0%Z;
  s_one := 1%Z;
  s_add := Z.add;
  s_sub := Z.sub;
  s_mul := Z.mul;
  s_div_count := fun a n => (a / Z.of_nat n)%Z
|}.

Abbreviation DCollab := (@Collab Z Z Z Z Z nat string nat).
Abbreviation DWorld := (@World Z Z Z Z Z nat string nat).

(** Collaborators that never raise; the state counts the optimizer steps. *)
Definition quiet : DCollab :=
  mkCollab
    (fun c x => (None, match c with OptimizerStep => S x | _ => x end))
    (fun i x => (i + Z.of_nat x)%Z)
    (fun o t _ => (o - t)%Z)
    (fun l => l)
    (fun m o t _ => (o + Z.of_nat m)%Z).


(** A fresh context with two metrics; meter 0 is the loss meter. *)
Definition state0 (v : bool) : RunnerState Z Z Z nat :=
  mkState [0; 1] None None 1 0 None None None None true None None 0 [1; 2] 0 0 v.

Definition world0 (v : bool) : DWorld :=
  mkWorld (state0 v)
    [mkMeter "loss" 0%Z 0%Z 0 0%Z; mkMeter "acc" 0%Z 0%Z 0 0%Z;
     mkMeter "iou" 0%Z 0%Z 0 0%Z]
    0 true [].

(** Two batches, with a length. *)
Definition loader2 : Loader Z Z :=
  mkLoader [(1, 1); (2, 2)]%Z (Some 2) None.

(** Five batches, with a length. *)
Definition loader5 : Loader Z Z :=
  mkLoader [(1, 1); (2, 2); (3, 3); (4, 4); (5, 5)]%Z (Some 5) None.

(** Two batches from a generator: no length. *)
Definition loader_nolen : Loader Z Z :=
  mkLoader [(1, 1); (2, 2)]%Z None None.

Definition raised (r : @Result Z Z Z Z Z nat string nat unit) : option (@exn string) :=
  match r with Ok _ _ => None | Err e _ => Some e end.

(** Torch modules that return some tensor whatever they are given. *)
Definition unet_modules (c : Unet.callee) (args : list (Unet.value Z))
  : string + Unet.value Z :=
  inr (Unet.PyTensor 7%Z).

(** The channels of a resnet34 encoder and the default decoder. *)
Definition encoder_channels : list Z := [512; 256; 128; 64; 64]%Z.
Definition decoder_channels : list Z := [256; 128; 64; 32; 16]%Z.

(** The encoder features of one input: the head and four skips. *)
Definition features : list (Unet.value Z) :=
  [Unet.PyTensor 0; Unet.PyTensor 1; Unet.PyTensor 2; Unet.PyTensor 3;
   Unet.PyTensor 4]%Z.

End Demo.

(* ================================================================== *)
(** * Properties of the driver *)

Section Soundness.
Context {Scalar Input Target Output Loss Metric UserExn Ext : Type}.
Context `{ScalarOps Scalar}.

Variable C : @Collab Scalar Input Target Output Loss Metric UserExn Ext.

Abbreviation W := (@World Scalar Input Target Output Loss Metric UserExn Ext).
Abbreviation Res := (@Result Scalar Input Target Output Loss Metric UserExn Ext).
Abbreviation Mon := (@M Scalar Input Target Output Loss Metric UserExn Ext).
Abbreviation State' := (RunnerState Input Target Output Metric).
Abbreviation call' := (@call Scalar Input Target Output Loss Metric).

(** *** Runs of effects *)

Lemma reaches_refl sc (w : W) : reaches C sc w w.
Proof. apply rtc_refl. Qed.

Lemma reaches_once sc (w w' : W) : atom C sc w w' -> reaches C sc w w'.
Proof. apply rtc_once. Qed.

Lemma reaches_trans sc (w1 w2 w3 : W) :
  reaches C sc w1 w2 -> reaches C sc w2 w3 -> reaches C sc w1 w3.
Proof. apply rtc_trans. Qed.

Lemma atom_mono sc sc' (w w' : W) :
  level sc <= level sc' -> atom C sc w w' -> atom C sc' w w'.
Proof.
  intros Hle Ha. destruct Ha.
  - eapply atom_call; eassumption.
  - apply atom_input.
  - apply atom_output.
  - apply atom_step.
  - apply atom_alter; assumption.
  - apply atom_grad.
  - apply atom_ep_size; lia.
  - apply atom_timer; lia.
  - apply atom_eval_mode; lia.
  - apply atom_snap_write; [lia | assumption].
  - apply atom_copy. lia.
  - apply atom_fit_write; [destruct sc'; simpl in *; lia | assumption].
Qed.

Lemma reaches_mono sc sc' (w w' : W) :
  level sc <= level sc' -> reaches C sc w w' -> reaches C sc' w w'.
Proof.
  intros Hle Hr. induction Hr as [|w1 w2 w3 Ha _ IH].
  - apply reaches_refl.
  - eapply rtc_l; [eapply atom_mono; eassumption | exact IH].
Qed.

Lemma sound_mono sc sc' {A} (w : W) (r : Res A) :
  level sc <= level sc' -> sound C sc w r -> sound C sc' w r.
Proof.
  intros Hle. destruct r as [a w'|e w']; simpl.
  - apply reaches_mono; assumption.
  - intros (w1 & Hr & Hc). exists w1. split; [|exact Hc].
    eapply reaches_mono; eassumption.
Qed.

Lemma sound_prefix sc {A} (w w1 : W) (r : Res A) :
  reaches C sc w w1 -> sound C sc w1 r -> sound C sc w r.
Proof.
  intros Hr. destruct r as [a w'|e w']; simpl.
  - apply reaches_trans; assumption.
  - intros (w2 & Hr2 & Hc). exists w2. split; [|exact Hc].
    eapply reaches_trans; eassumption.
Qed.

(** *** What a run leaves alone *)

(** No effect of the driver rebinds the meters, the metrics or the verbose
    flag. *)
Lemma reaches_static sc (w w' : W) :
  reaches C sc w w' ->
  loss_meter (st w') = loss_meter (st w) /\
  metric_meters (st w') = metric_meters (st w) /\
  metrics (st w') = metrics (st w) /\
  verbose (st w') = verbose (st w).
Proof.
  induction 1 as [|w1 w2 w3 Ha _ IH]; [tauto|].
  destruct IH as (I1 & I2 & I3 & I4).
  rewrite I1, I2, I3, I4. clear - Ha.
  destruct Ha; simpl; try tauto;
    match goal with
    | Hf : fit_write _ |- _ => destruct Hf; simpl; tauto
    | Hf : snap_write _ |- _ => destruct Hf; simpl; tauto
    end.
Qed.

(** Below [fit], a run keeps the epoch counters and the snapshots, and
    never switches to training. *)
Lemma reaches_below_fit sc (w w' : W) :
  level sc <= 2 ->
  reaches C sc w w' ->
  epoch (st w') = epoch (st w) /\
  num_epochs (st w') = num_epochs (st w) /\
  batch_size (st w') = batch_size (st w) /\
  train_loss (st w') = train_loss (st w) /\
  train_metrics (st w') = train_metrics (st w) /\
  val_loss (st w') = val_loss (st w) /\
  val_metrics (st w') = val_metrics (st w) /\
  (is_train (st w) = false -> is_train (st w') = false).
Proof.
  intros Hle. induction 1 as [|w1 w2 w3 Ha _ IH]; [tauto|].
  destruct IH as (I1 & I2 & I3 & I4 & I5 & I6 & I7 & I8).
  rewrite I1, I2, I3, I4, I5, I6, I7.
  assert (Hstep : epoch (st w2) = epoch (st w1) /\
    num_epochs (st w2) = num_epochs (st w1) /\
    batch_size (st w2) = batch_size (st w1) /\
    train_loss (st w2) = train_loss (st w1) /\
    train_metrics (st w2) = train_metrics (st w1) /\
    val_loss (st w2) = val_loss (st w1) /\
    val_metrics (st w2) = val_metrics (st w1) /\
    (is_train (st w1) = false -> is_train (st w2) = false)).
  { clear - Ha Hle. destruct Ha; simpl; try tauto; lia. }
  tauto.
Qed.

(** Past its first lines, an epoch of [fit] keeps the epoch counters. *)
Lemma reaches_in_epoch sc (w w' : W) :
  level sc <= 3 ->
  reaches C sc w w' ->
  epoch (st w') = epoch (st w) /\
  num_epochs (st w') = num_epochs (st w) /\
  batch_size (st w') = batch_size (st w).
Proof.
  intros Hle. induction 1 as [|w1 w2 w3 Ha _ IH]; [tauto|].
  destruct IH as (I1 & I2 & I3). rewrite I1, I2, I3.
  clear - Ha Hle. destruct Ha; simpl; try tauto; try lia.
  match goal with Hf : snap_write _ |- _ => destruct Hf; simpl; tauto end.
Qed.

(** Inside one pass the train flag is fixed. *)
Lemma reaches_in_pass sc (w w' : W) :
  level sc <= 1 ->
  reaches C sc w w' -> is_train (st w') = is_train (st w).
Proof.
  intros Hle. induction 1 as [|w1 w2 w3 Ha _ IH]; [reflexivity|].
  rewrite IH. clear - Ha Hle. destruct Ha; simpl; try reflexivity; lia.
Qed.

(** Inside the loop over the batches the epoch size is fixed. *)
Lemma reaches_in_loop (w w' : W) :
  reaches C InLoop w w' -> ep_size (st w') = ep_size (st w).
Proof.
  induction 1 as [|w1 w2 w3 Ha _ IH]; [reflexivity|].
  rewrite IH. clear - Ha. destruct Ha; simpl in *; try reflexivity; lia.
Qed.

(** A run only appends to the log, and only calls that returned. *)
Lemma reaches_trace sc (w w' : W) :
  reaches C sc w w' ->
  exists tr, trace w' = trace w ++ tr /\
             Forall (fun en => e_raised en = None) tr.
Proof.
  induction 1 as [w|w1 w2 w3 Ha _ IH].
  - exists []. split; [now rewrite app_nil_r | constructor].
  - destruct IH as (tr & Htr & Hall).
    assert (Hstep : exists tr1, trace w2 = trace w1 ++ tr1 /\
              Forall (fun en => e_raised en = None) tr1).
    { clear - Ha. destruct Ha; simpl;
        try (exists []; split; [now rewrite app_nil_r | constructor]).
      eexists. split; [reflexivity|]. repeat constructor. }
    destruct Hstep as (tr1 & Htr1 & Hall1).
    exists (tr1 ++ tr). split.
    + rewrite Htr, Htr1. now rewrite <- app_assoc.
    + apply Forall_app; auto.
Qed.

(** Objects other than the live meters keep their fields, and no object is
    ever removed from the store. *)
Lemma reaches_heap sc (w w' : W) :
  reaches C sc w w' ->
  length (heap w) <= length (heap w') /\
  forall l : loc,
    l < length (heap w) ->
    l <> loss_meter (st w) ->
    ~ In l (metric_meters (st w)) ->
    heap w' !! l = heap w !! l.
Proof.
  induction 1 as [w|w1 w2 w3 Ha Hr IH].
  - split; [lia | reflexivity].
  - assert (Hs : loss_meter (st w2) = loss_meter (st w1) /\
                 metric_meters (st w2) = metric_meters (st w1)).
    { pose proof (reaches_static (reaches_once Ha)); tauto. }
    destruct Hs as [Hs1 Hs2]. rewrite Hs1, Hs2 in IH.
    destruct IH as [Hlen Hfr].
    assert (Hstep : length (heap w1) <= length (heap w2) /\
              forall l : loc, l < length (heap w1) ->
                l <> loss_meter (st w1) ->
                ~ In l (metric_meters (st w1)) ->
                heap w2 !! l = heap w1 !! l).
    { clear - Ha. destruct Ha; simpl; try (split; [lia | reflexivity]).
      - split; [now rewrite length_alter|].
        intros l0 _ Hne Hni. apply list_lookup_alter_ne.
        intros ->. tauto.
      - split; [rewrite length_app; simpl; lia|].
        intros l0 Hlt _ _. now apply lookup_app_l. }
    destruct Hstep as [Hlen1 Hfr1]. split; [lia|].
    intros l Hlt Hne Hni. rewrite Hfr; [now apply Hfr1 | lia | assumption..].
Qed.

(** A well-formed store stays well-formed. *)
Lemma reaches_wf sc (w w' : W) : reaches C sc w w' -> wf w -> wf w'.
Proof.
  intros Hr [Hl Hm].
  destruct (reaches_static Hr) as (E1 & E2 & _).
  destruct (reaches_heap Hr) as [Hlen _].
  split.
  - rewrite E1. lia.
  - rewrite E2. eapply Forall_impl; [exact Hm|]. simpl. intros. lia.
Qed.

(** *** Every piece of the driver is such a run *)

Lemma sound_ret sc {A} (a : A) (w : W) : sound C sc w (ret a w).
Proof. apply reaches_refl. Qed.

Lemma sound_bind sc {A B} (m : Mon A) (f : A -> Mon B) (w : W) :
  sound C sc w (m w) ->
  (forall a w1, m w = Ok a w1 -> reaches C sc w w1 -> sound C sc w1 (f a w1)) ->
  sound C sc w (bind m f w).
Proof.
  intros Hm Hf. unfold bind. destruct (m w) as [a w1|e w1] eqn:E.
  - simpl in Hm. eapply sound_prefix; [exact Hm|]. now apply Hf.
  - exact Hm.
Qed.

Lemma sound_gets sc {A} (f : State' -> A) (w : W) : sound C sc w (gets f w).
Proof. apply reaches_refl. Qed.

Lemma sound_modify sc (f : State' -> State') (w : W) :
  atom C sc w (with_st f w) -> sound C sc w (modify f w).
Proof. intros Ha. now apply reaches_once. Qed.

Lemma sound_builtin_error sc {A} (e : exn) (w : W) :
  (forall u, e <> Raised u) -> sound C sc w (raise (A:=A) e w).
Proof.
  intros He. simpl. exists w. split; [apply reaches_refl|].
  destruct e; simpl; try reflexivity. now destruct (He u).
Qed.

Lemma sound_invoke sc (c : call') (w : W) :
  issued c w -> sound C sc w (invoke C c w).
Proof.
  intros Hi. unfold invoke. destruct (ext_run C c (ext w)) as [[u|] x'] eqn:E.
  - simpl. exists w. split; [apply reaches_refl|]. simpl. eauto.
  - simpl. apply reaches_once. eapply atom_call; eassumption.
Qed.

Lemma invoke_inv (c : call') (w w' : W) a :
  invoke C c w = Ok a w' ->
  st w' = st w /\ heap w' = heap w /\ grad_enabled w' = grad_enabled w /\
  trace w' = trace w ++ [mkEntry c None].
Proof.
  unfold invoke. destruct (ext_run C c (ext w)) as [[u|] x']; [discriminate|].
  intros E. inversion E; subst. simpl. tauto.
Qed.

Lemma sound_callbacks sc (h : hook) (w : W) : sound C sc w (callbacks C h w).
Proof. apply sound_invoke. simpl. tauto. Qed.

Lemma sound_model_call sc x (w : W) : sound C sc w (model_call C x w).
Proof.
  unfold model_call. apply sound_bind; [now apply sound_invoke|].
  intros. apply sound_ret.
Qed.

Lemma sound_criterion_call sc o t (w : W) :
  sound C sc w (criterion_call C o t w).
Proof.
  unfold criterion_call. apply sound_bind; [now apply sound_invoke|].
  intros. apply sound_ret.
Qed.

Lemma sound_metric_call sc m o t (w : W) :
  sound C sc w (metric_call C m o t w).
Proof.
  unfold metric_call. apply sound_bind; [now apply sound_invoke|].
  intros. apply sound_ret.
Qed.

Lemma sound_meter_reset_at sc (l : loc) (w : W) :
  l = loss_meter (st w) \/ In l (metric_meters (st w)) ->
  sound C sc w (meter_reset_at l w).
Proof. intros Hl. apply reaches_once. now apply atom_alter. Qed.

Lemma sound_meter_update_at sc (l : loc) v (w : W) :
  l = loss_meter (st w) \/ In l (metric_meters (st w)) ->
  sound C sc w (meter_update_at l v w).
Proof. intros Hl. apply reaches_once. now apply atom_alter. Qed.

Lemma sound_read_meter sc (l : loc) (w : W) : sound C sc w (read_meter l w).
Proof. apply reaches_refl. Qed.

Lemma sound_copy sc (l : loc) (w : W) :
  3 <= level sc -> sound C sc w (copy l w).
Proof. intros. apply reaches_once. now apply atom_copy. Qed.

(** A loop whose body is a run is a run; [I] is what the body relies on. *)
Lemma sound_for_each sc {A} (I : W -> Prop) (l : list A) (body : A -> Mon unit) :
  (forall w w', reaches C sc w w' -> I w -> I w') ->
  (forall x w, In x l -> I w -> sound C sc w (body x w)) ->
  forall w, I w -> sound C sc w (for_each l body w).
Proof.
  intros Hinv. induction l as [|x l IH]; intros Hbody w HI; simpl.
  - apply reaches_refl.
  - apply sound_bind.
    + apply Hbody; [now left | exact HI].
    + intros _ w1 _ Hr. apply IH.
      * intros y w2 Hy. apply Hbody. now right.
      * eapply Hinv; eassumption.
Qed.

Lemma sound_map_m sc {A B} (I : W -> Prop) (l : list A) (f : A -> Mon B) :
  (forall w w', reaches C sc w w' -> I w -> I w') ->
  (forall x w, In x l -> I w -> sound C sc w (f x w)) ->
  forall w, I w -> sound C sc w (map_m f l w).
Proof.
  intros Hinv. induction l as [|x l IH]; intros Hf w HI; simpl.
  - apply reaches_refl.
  - apply sound_bind.
    + apply Hf; [now left | exact HI].
    + intros y w1 _ Hr. apply sound_bind.
      * apply IH; [|eapply Hinv; eassumption].
        intros z w2 Hz. apply Hf. now right.
      * intros. apply sound_ret.
Qed.

Lemma sound_scoped_grad sc {A} (b : bool) (body : Mon A) (w : W) :
  sound C sc (with_grad b w) (body (with_grad b w)) ->
  sound C sc w (scoped_grad b body w).
Proof.
  unfold scoped_grad. intros Hb.
  assert (H0 : reaches C sc w (with_grad b w)) by (apply reaches_once, atom_grad).
  destruct (body (with_grad b w)) as [a w'|e w']; simpl in *.
  - eapply reaches_trans; [exact H0|].
    eapply reaches_trans; [exact Hb|]. apply reaches_once, atom_grad.
  - destruct Hb as (w1 & Hr & Hc).
    exists (with_grad (grad_enabled w) w1). split.
    + eapply reaches_trans; [exact H0|].
      eapply reaches_trans; [exact Hr|]. apply reaches_once, atom_grad.
    + destruct e; simpl in *; try now subst.
      destruct Hc as (c & x' & Hi & Hx & ->).
      exists c, x'. split; [|split; [exact Hx | reflexivity]].
      destruct c; simpl in *; assumption.
Qed.

Ltac run_gets :=
  apply sound_bind;
  [ apply sound_gets
  | let a := fresh "a" in let w1 := fresh "w" in let E := fresh "E" in
    intros a w1 E _; inversion E; subst a w1; clear E ].

Ltac run_modify :=
  apply sound_bind;
  [ apply sound_modify
  | let a := fresh "a" in let w1 := fresh "w" in let E := fresh "E" in
    intros a w1 E _; destruct a; inversion E; subst w1; clear E ].

Lemma sound_make_step sc (batch : Input * Target) (w : W) :
  sound C sc w (_make_step C batch w).
Proof.
  apply sound_mono with (sc := InLoop); [simpl; lia|].
  unfold _make_step. destruct batch as [images target].
  run_modify; [apply atom_input|].
  apply sound_bind; [apply sound_model_call|]. intros out w1 _ _.
  run_modify; [apply atom_output|].
  apply sound_bind; [apply sound_criterion_call|]. intros loss w2 _ _.
  run_gets.
  apply sound_bind.
  { destruct (is_train (st w2)) eqn:Htr; [|apply sound_ret].
    assert (Hk : forall w', reaches C InLoop w2 w' -> is_train (st w') = true).
    { intros w' Hr.
      pose proof (reaches_in_pass (sc:=InLoop) ltac:(simpl; lia) Hr) as E.
      congruence. }
    apply sound_bind; [apply sound_invoke, Hk, reaches_refl|].
    intros _ w3 _ H3.
    apply sound_bind; [apply sound_invoke, Hk, H3|].
    intros _ w4 _ H4.
    assert (H24 := reaches_trans H3 H4).
    apply sound_bind; [apply sound_invoke, Hk, H24|].
    intros _ w5 _ H5.
    apply sound_invoke, Hk. eapply reaches_trans; eassumption. }
  intros _ w3 _ _.
  run_gets.
  apply sound_bind; [apply sound_meter_update_at; now left|].
  intros _ w4 _ H4.
  run_gets. run_gets.
  apply sound_for_each
    with (I := fun w' : W => metric_meters (st w') = metric_meters (st w4)).
  - intros wa wb Hr Ha. destruct (reaches_static Hr) as (_ & E & _). congruence.
  - intros [metric meter] wa Hin Ha.
    apply sound_bind; [apply sound_metric_call|].
    intros v wb _ Hr. apply sound_meter_update_at. right.
    destruct (reaches_static Hr) as (_ & E & _). rewrite E, Ha.
    eapply in_combine_r; eassumption.
  - reflexivity.
Qed.

Lemma sound_progress_readout sc (p : pbar_kind) (w : W) :
  verbose (st w) = true -> sound C sc w (progress_readout C p w).
Proof.
  intros Hv. unfold progress_readout.
  run_gets.
  apply sound_bind; [apply sound_read_meter|]. intros l w1 E _.
  inversion E; subst l w1; clear E.
  run_gets.
  apply sound_bind.
  { apply sound_map_m with (I := fun _ : W => True); auto.
    intros. apply sound_read_meter. }
  intros ms w1 _ Hr.
  destruct p; unfold set_postfix.
  - apply sound_invoke. simpl.
    destruct (reaches_static Hr) as (_ & _ & _ & E). congruence.
  - apply sound_builtin_error. discriminate.
Qed.

Lemma sound_batch_body sc (p : pbar_kind) ib (w : W) :
  sound C sc w (batch_body C p ib w).
Proof.
  apply sound_mono with (sc := InLoop); [simpl; lia|].
  unfold batch_body. destruct ib as [i batch].
  run_modify; [apply atom_step|].
  apply sound_bind; [apply sound_callbacks|]. intros _ w1 _ _.
  apply sound_bind; [apply sound_make_step|]. intros _ w2 _ _.
  run_gets.
  apply sound_bind.
  { destruct (verbose (st w2)) eqn:Hv; [|apply sound_ret].
    now apply sound_progress_readout. }
  intros _ w3 _ _. apply sound_callbacks.
Qed.

Lemma sound_make_pbar sc (w : W) : sound C sc w (make_pbar C w).
Proof.
  unfold make_pbar. run_gets.
  destruct (verbose (st w)); [|apply sound_ret].
  apply sound_bind; [apply sound_builtin_error; discriminate|].
  intros a w1 E. discriminate E.
Qed.

Lemma sound_steps_or_len sc steps ld (w : W) :
  sound C sc w (steps_or_len steps ld w).
Proof.
  assert (Hlen : sound C sc w (len ld w)).
  { unfold len. destruct (ld_len ld); [apply sound_ret|].
    apply sound_builtin_error. discriminate. }
  unfold steps_or_len. destruct steps as [s|]; [|exact Hlen].
  destruct (s =? 0)%Z; [exact Hlen | apply sound_ret].
Qed.

Lemma sound_run_one_epoch sc ld steps (w : W) :
  1 <= level sc -> sound C sc w (_run_one_epoch C ld steps w).
Proof.
  intros Hsc. unfold _run_one_epoch.
  run_gets.
  apply sound_bind; [apply sound_meter_reset_at; now left|]. intros _ w1 _ _.
  apply sound_bind; [apply sound_modify; now apply atom_timer|]. intros _ w2 _ _.
  run_gets.
  apply sound_bind.
  { apply sound_for_each
      with (I := fun w' : W => metric_meters (st w') = metric_meters (st w2)).
    - intros wa wb Hr Ha. destruct (reaches_static Hr) as (_ & E & _). congruence.
    - intros l wa Hin Ha. apply sound_meter_reset_at. right. now rewrite Ha.
    - reflexivity. }
  intros _ w3 _ _.
  apply sound_bind; [apply sound_steps_or_len|]. intros n w4 _ _.
  run_modify; [now apply atom_ep_size|].
  apply sound_bind; [apply sound_make_pbar|]. intros p w5 _ _.
  run_gets.
  apply sound_scoped_grad.
  apply sound_for_each with (I := fun _ : W => True); auto.
  intros. apply sound_batch_body.
Qed.

Lemma sound_evaluate sc ld steps (w : W) :
  2 <= level sc -> sound C sc w (evaluate C ld steps w).
Proof.
  intros Hsc. unfold evaluate.
  run_modify; [now apply atom_eval_mode|].
  apply sound_bind; [now apply sound_invoke|]. intros _ w1 _ _.
  apply sound_bind; [apply sound_run_one_epoch; lia|]. intros _ w2 _ _.
  run_gets.
  apply sound_bind; [apply sound_read_meter|]. intros l w3 _ _.
  run_gets.
  apply sound_bind.
  { apply sound_map_m with (I := fun _ : W => True); auto.
    intros. apply sound_read_meter. }
  intros. apply sound_ret.
Qed.

Lemma sound_snapshot_train sc (w : W) :
  3 <= level sc -> sound C sc w (snapshot_train w).
Proof.
  intros Hsc. unfold snapshot_train. run_gets.
  apply sound_bind; [now apply sound_copy|]. intros l w1 _ _.
  run_modify; [apply atom_snap_write; [exact Hsc | constructor]|].
  run_gets.
  apply sound_bind.
  { apply sound_map_m with (I := fun _ : W => True); auto.
    intros. now apply sound_copy. }
  intros ls w2 _ _.
  apply sound_modify. apply atom_snap_write; [exact Hsc | constructor].
Qed.

Lemma sound_snapshot_val sc (w : W) :
  3 <= level sc -> sound C sc w (snapshot_val w).
Proof.
  intros Hsc. unfold snapshot_val. run_gets.
  apply sound_bind; [now apply sound_copy|]. intros l w1 _ _.
  run_modify; [apply atom_snap_write; [exact Hsc | constructor]|].
  run_gets.
  apply sound_bind.
  { apply sound_map_m with (I := fun _ : W => True); auto.
    intros. now apply sound_copy. }
  intros ls w2 _ _.
  apply sound_modify. apply atom_snap_write; [exact Hsc | constructor].
Qed.

Lemma sound_fit_epoch tl steps vl vsteps ep (w : W) :
  sound C InFit w (fit_epoch C tl steps vl vsteps ep w).
Proof.
  unfold fit_epoch.
  run_modify; [apply atom_fit_write; [reflexivity | constructor]|].
  run_modify; [apply atom_fit_write; [reflexivity | constructor]|].
  apply sound_bind; [apply sound_callbacks|]. intros _ w1 _ _.
  apply sound_bind; [now apply sound_invoke|]. intros _ w2 _ _.
  apply sound_bind; [apply sound_run_one_epoch; simpl; lia|]. intros _ w3 _ _.
  apply sound_bind; [apply sound_snapshot_train; simpl; lia|]. intros _ w4 _ _.
  apply sound_bind.
  { destruct vl as [v|]; [|apply sound_ret].
    apply sound_bind; [apply sound_evaluate; simpl; lia|]. intros _ w5 _ _.
    apply sound_snapshot_val; simpl; lia. }
  intros _ w5 _ _. apply sound_callbacks.
Qed.


End Soundness.

(** ** Runs in which no collaborator raises *)

Section QuietRuns.
Context {Scalar Input Target Output Loss Metric UserExn Ext : Type}.
Context `{ScalarOps Scalar}.

Variable C : @Collab Scalar Input Target Output Loss Metric UserExn Ext.
Hypothesis quiet : never_raises C.

Abbreviation W := (@World Scalar Input Target Output Loss Metric UserExn Ext).
Abbreviation Mon := (@M Scalar Input Target Output Loss Metric UserExn Ext).
Abbreviation State' := (RunnerState Input Target Output Metric).
Abbreviation call' := (@call Scalar Input Target Output Loss Metric).

Lemma hook_log_app (t1 t2 : list (@Entry Scalar Input Target Output Loss Metric UserExn)) :
  hook_log (t1 ++ t2) = hook_log t1 ++ hook_log t2.
Proof. unfold hook_log. apply flat_map_app. Qed.

Lemma completes_bind {A B} (m : Mon A) (f : A -> Mon B) w hs1 hs2 :
  completes m w hs1 ->
  (forall a w', m w = Ok a w' -> completes (f a) w' hs2) ->
  completes (bind m f) w (hs1 ++ hs2).
Proof.
  intros (a & w1 & E & Hl) Hf.
  destruct (Hf a w1 E) as (b & w2 & E2 & Hl2).
  exists b, w2. unfold bind. rewrite E. split; [exact E2|].
  rewrite Hl2, Hl. now rewrite app_assoc.
Qed.

Lemma completes_eq {A} (m : Mon A) w hs hs' :
  completes m w hs -> hs = hs' -> completes m w hs'.
Proof. now intros ? <-. Qed.

Lemma completes_pure {A} (m : Mon A) (w : W) a w' :
  m w = Ok a w' -> trace w' = trace w -> completes m w [].
Proof.
  intros E Ht. exists a, w'. split; [exact E|]. now rewrite Ht, app_nil_r.
Qed.

Lemma completes_invoke (c : call') (w : W) :
  completes (invoke C c) w (hook_log [mkEntry c (@None UserExn)]).
Proof.
  unfold completes, invoke. specialize (quiet c (ext w)).
  destruct (ext_run C c (ext w)) as [r x']. simpl in quiet. subst r.
  eexists _, _. split; [reflexivity|]. simpl trace. apply hook_log_app.
Qed.

Lemma completes_callbacks (h : hook) (w : W) :
  completes (callbacks C h) w [(h, epoch (st w))].
Proof.
  unfold callbacks. eapply completes_eq; [apply completes_invoke|].
  reflexivity.
Qed.

Lemma completes_model_call x (w : W) : completes (model_call C x) w [].
Proof.
  unfold model_call.
  eapply completes_eq.
  - eapply completes_bind; [apply completes_invoke|].
    intros. eapply completes_pure; reflexivity.
  - reflexivity.
Qed.

Lemma completes_criterion_call o t (w : W) :
  completes (criterion_call C o t) w [].
Proof.
  unfold criterion_call.
  eapply completes_eq.
  - eapply completes_bind; [apply completes_invoke|].
    intros. eapply completes_pure; reflexivity.
  - reflexivity.
Qed.

Lemma completes_metric_call m o t (w : W) :
  completes (metric_call C m o t) w [].
Proof.
  unfold metric_call.
  eapply completes_eq.
  - eapply completes_bind; [apply completes_invoke|].
    intros. eapply completes_pure; reflexivity.
  - reflexivity.
Qed.

Lemma completes_for_each_silent {A} (l : list A) (body : A -> Mon unit) :
  (forall x w, completes (body x) w []) ->
  forall w, completes (for_each l body) w [].
Proof.
  intros Hb. induction l as [|x l IH]; intros w; simpl.
  - eapply completes_pure; reflexivity.
  - eapply completes_eq; [eapply completes_bind; [apply Hb|]|reflexivity].
    intros. apply IH.
Qed.

Lemma completes_map_m_silent {A B} (l : list A) (f : A -> Mon B) :
  (forall x w, completes (f x) w []) ->
  forall w, completes (map_m f l) w [].
Proof.
  intros Hf. induction l as [|x l IH]; intros w; simpl.
  - eapply completes_pure; reflexivity.
  - eapply completes_eq; [eapply completes_bind; [apply Hf|]|reflexivity].
    intros. eapply completes_eq; [eapply completes_bind; [apply IH|]|reflexivity].
    intros. eapply completes_pure; reflexivity.
Qed.

Ltac quiet_step tac :=
  eapply completes_bind; [ tac | intros ? ? ? ].
Ltac quiet_pure :=
  eapply completes_bind;
  [ eapply completes_pure; reflexivity
  | let a := fresh "a" in let w1 := fresh "w" in let E := fresh "E" in
    intros a w1 E; inversion E; subst a w1; clear E ].

Lemma completes_make_step (batch : Input * Target) (w : W) :
  completes (_make_step C batch) w [].
Proof.
  unfold _make_step. destruct batch as [images target].
  eapply completes_eq.
  - quiet_pure.
    quiet_step ltac:(apply completes_model_call).
    quiet_pure.
    quiet_step ltac:(apply completes_criterion_call).
    quiet_pure.
    eapply completes_bind.
    { instantiate (1 := []).
      match goal with |- completes (if ?b then _ else _) _ _ => destruct b end.
      - eapply completes_eq.
        + quiet_step ltac:(apply completes_invoke).
          quiet_step ltac:(apply completes_invoke).
          quiet_step ltac:(apply completes_invoke).
          apply completes_invoke.
        + reflexivity.
      - eapply completes_pure; reflexivity. }
    intros ? ? ?.
    quiet_pure. quiet_pure. quiet_pure. quiet_pure.
    apply completes_for_each_silent.
    intros [metric meter] wm.
    eapply completes_eq.
    + quiet_step ltac:(apply completes_metric_call).
      eapply completes_pure; reflexivity.
    + reflexivity.
  - reflexivity.
Qed.

Lemma callbacks_inv (h : hook) (w w' : W) a :
  callbacks C h w = Ok a w' -> st w' = st w /\ heap w' = heap w.
Proof. unfold callbacks. intros E. apply invoke_inv in E. tauto. Qed.

Lemma make_step_frame (batch : Input * Target) (w w' : W) a :
  _make_step C batch w = Ok a w' -> reaches C InLoop w w'.
Proof.
  intros E. pose proof (sound_make_step C InLoop batch w) as S.
  now rewrite E in S.
Qed.

Lemma batch_body_frame p ib (w w' : W) a :
  batch_body C p ib w = Ok a w' -> reaches C InLoop w w'.
Proof.
  intros E. pose proof (sound_batch_body C InLoop p ib w) as S.
  now rewrite E in S.
Qed.

Lemma completes_batch_body p ib (w : W) :
  verbose (st w) = false ->
  completes (batch_body C p ib) w
    [(on_batch_begin, epoch (st w)); (on_batch_end, epoch (st w))].
Proof.
  intros Hv. unfold batch_body. destruct ib as [i batch].
  eapply completes_eq.
  - quiet_pure.
    eapply completes_bind; [apply completes_callbacks|]. intros a1 w1 E1.
    eapply completes_bind; [apply completes_make_step|]. intros a2 w2 E2.
    apply callbacks_inv in E1. destruct E1 as [E1 _].
    apply make_step_frame in E2.
    destruct (reaches_static E2) as (_ & _ & _ & Ev).
    destruct (reaches_below_fit (sc:=InLoop) ltac:(simpl; lia) E2) as (Ee & _).
    rewrite E1 in Ev, Ee. simpl in Ev, Ee.
    quiet_pure.
    rewrite Ev, Hv.
    quiet_pure.
    eapply completes_eq; [apply completes_callbacks|].
    rewrite Ee. reflexivity.
  - reflexivity.
Qed.

Lemma completes_batches p (l : list (Input * Target)) :
  forall (k : nat) (w : W),
    verbose (st w) = false ->
    completes (for_each (combine (seq k (length l)) l) (batch_body C p)) w
      (pass_hooks (epoch (st w)) (length l)).
Proof.
  induction l as [|b l IH]; intros k w Hv; cbn [for_each combine seq length].
  - eapply completes_pure; reflexivity.
  - eapply completes_eq.
    + eapply completes_bind; [now apply completes_batch_body|].
      intros a w1 E. apply batch_body_frame in E.
      destruct (reaches_static E) as (_ & _ & _ & Ev).
      destruct (reaches_below_fit (sc:=InLoop) ltac:(simpl; lia) E) as (Ee & _).
      eapply completes_eq; [apply IH; congruence|].
      rewrite Ee. reflexivity.
    + reflexivity.
Qed.

Lemma steps_or_len_sized steps (ld : Loader Input Target) (w : W) :
  sized steps ld = true ->
  exists n, effective_size steps ld = Some n /\
            steps_or_len steps ld w = Ok n w.
Proof.
  unfold sized, effective_size, steps_or_len, len.
  destruct steps as [s|]; [destruct (s =? 0)%Z|];
    try (intros _; eexists; split; reflexivity);
    intros Hs; apply bool_decide_eq_true in Hs; destruct Hs as [n Hn];
    rewrite Hn; eexists; split; reflexivity.
Qed.

Lemma run_one_epoch_frame ld steps (w w' : W) a :
  _run_one_epoch C ld steps w = Ok a w' -> reaches C InPass w w'.
Proof.
  intros E.
  assert (S : sound C InPass w (_run_one_epoch C ld steps w))
    by (apply sound_run_one_epoch; simpl; lia).
  now rewrite E in S.
Qed.

Lemma for_each_reset_st (l : list loc) (w w' : W) a :
  for_each l meter_reset_at w = Ok a w' -> st w' = st w /\ trace w' = trace w.
Proof.
  revert w. induction l as [|x l IH]; intros w E; simpl in E.
  - now inversion E.
  - unfold bind in E. simpl in E. apply IH in E. exact E.
Qed.

Lemma make_pbar_quiet (w : W) :
  verbose (st w) = false -> make_pbar C w = Ok PbarEnumerate w.
Proof. intros Hv. unfold make_pbar, bind, gets. now rewrite Hv. Qed.

Lemma completes_run_one_epoch ld steps (w : W) :
  verbose (st w) = false ->
  sized steps ld = true ->
  completes (_run_one_epoch C ld steps) w
    (pass_hooks (epoch (st w)) (length (batches ld))).
Proof.
  intros Hv Hs. unfold _run_one_epoch.
  eapply completes_eq.
  - quiet_pure. quiet_pure. quiet_pure. quiet_pure.
    eapply completes_bind.
    { apply completes_for_each_silent.
      intros; eapply completes_pure; reflexivity. }
    intros a2 w2 E2. apply for_each_reset_st in E2. destruct E2 as [E2 _].
    simpl in E2.
    assert (Hv2 : verbose (st w2) = false) by (rewrite E2; exact Hv).
    assert (He2 : epoch (st w2) = epoch (st w)) by (now rewrite E2).
    destruct (steps_or_len_sized steps ld w2 Hs) as (n & _ & En).
    eapply completes_bind; [eapply completes_pure; [exact En | reflexivity]|].
    intros a3 w3 E3. rewrite En in E3. inversion E3; subst a3 w3; clear E3.
    quiet_pure.
    assert (Hp : make_pbar C (with_st (set_ep_size (Some n)) w2)
                 = Ok PbarEnumerate (with_st (set_ep_size (Some n)) w2)).
    { apply make_pbar_quiet. exact Hv2. }
    eapply completes_bind; [eapply completes_pure; [exact Hp | reflexivity]|].
    intros a4 w4 E4. rewrite Hp in E4. inversion E4; subst a4 w4; clear E4.
    quiet_pure.
    unfold scoped_grad, enumerate.
    destruct (completes_batches PbarEnumerate (batches ld) 0
                (with_grad (is_train (st w2))
                           (with_st (set_ep_size (Some n)) w2)))
      as (u & wf' & Ef & Hf).
    { exact Hv2. }
    eexists u, _. split.
    + cbv beta zeta. rewrite Ef. reflexivity.
    + simpl in Hf. simpl. rewrite Hf, He2. reflexivity.
  - reflexivity.
Qed.

Lemma map_m_read_meter (l : list loc) (w : W) :
  map_m read_meter l w = Ok (map (deref (heap w)) l) w.
Proof.
  induction l as [|x l IH]; simpl; [reflexivity|].
  unfold bind at 1. simpl. unfold bind at 1. now rewrite IH.
Qed.

(** What [evaluate] returns, when it returns. *)
Lemma evaluate_value ld steps (w w' : W) a :
  evaluate C ld steps w = Ok a w' ->
  a = (meter_avg (deref (heap w') (loss_meter (st w'))),
       map (fun l => meter_avg (deref (heap w') l)) (metric_meters (st w'))).
Proof.
  unfold evaluate, bind at 1. simpl.
  unfold bind at 1.
  destruct (invoke C ModelEval _) as [[] w1|]; [|discriminate].
  unfold bind at 1.
  destruct (_run_one_epoch C ld steps w1) as [[] w2|]; [|discriminate].
  unfold bind, gets, read_meter. simpl. rewrite map_m_read_meter.
  unfold ret. intros E. inversion E; subst. now rewrite map_map.
Qed.

Lemma evaluate_frame ld steps (w w' : W) a :
  evaluate C ld steps w = Ok a w' -> reaches C InEvaluate w w'.
Proof.
  intros E.
  assert (S : sound C InEvaluate w (evaluate C ld steps w))
    by (apply sound_evaluate; simpl; lia).
  now rewrite E in S.
Qed.

Lemma completes_evaluate ld steps (w : W) :
  verbose (st w) = false ->
  sized steps ld = true ->
  completes (evaluate C ld steps) w
    (pass_hooks (epoch (st w)) (length (batches ld))).
Proof.
  intros Hv Hs. unfold evaluate.
  eapply completes_eq.
  - quiet_pure.
    eapply completes_bind; [apply completes_invoke|]. intros a1 w1 E1.
    apply invoke_inv in E1. destruct E1 as (E1 & _). simpl in E1.
    eapply completes_bind.
    { eapply completes_eq;
        [apply completes_run_one_epoch; [rewrite E1; exact Hv | exact Hs]|].
      rewrite E1. reflexivity. }
    intros a2 w2 E2.
    quiet_pure. quiet_pure. quiet_pure.
    eapply completes_bind.
    { apply completes_map_m_silent. intros. eapply completes_pure; reflexivity. }
    intros a3 w3 E3. eapply completes_pure; reflexivity.
  - simpl. now rewrite app_nil_r.
Qed.

Lemma completes_snapshot_train (w : W) : completes snapshot_train w [].
Proof.
  unfold snapshot_train. eapply completes_eq.
  - quiet_pure. quiet_pure. quiet_pure. quiet_pure.
    eapply completes_bind.
    { apply completes_map_m_silent. intros. eapply completes_pure; reflexivity. }
    intros a3 w3 E3. eapply completes_pure; reflexivity.
  - reflexivity.
Qed.

Lemma completes_snapshot_val (w : W) : completes snapshot_val w [].
Proof.
  unfold snapshot_val. eapply completes_eq.
  - quiet_pure. quiet_pure. quiet_pure. quiet_pure.
    eapply completes_bind.
    { apply completes_map_m_silent. intros. eapply completes_pure; reflexivity. }
    intros a3 w3 E3. eapply completes_pure; reflexivity.
  - reflexivity.
Qed.

Lemma snapshot_train_frame (w w' : W) a :
  snapshot_train w = Ok a w' -> reaches C InEpoch w w'.
Proof.
  intros E.
  assert (S : sound C InEpoch w (snapshot_train w))
    by (apply sound_snapshot_train; simpl; lia).
  now rewrite E in S.
Qed.

Lemma snapshot_val_frame (w w' : W) a :
  snapshot_val w = Ok a w' -> reaches C InEpoch w w'.
Proof.
  intros E.
  assert (S : sound C InEpoch w (snapshot_val w))
    by (apply sound_snapshot_val; simpl; lia).
  now rewrite E in S.
Qed.

Lemma fit_epoch_unfold tl steps vl vsteps ep (w : W) :
  fit_epoch C tl steps vl vsteps ep w =
  epoch_rest C tl steps vl vsteps
    (with_st (set_epoch ep) (with_st (set_is_train true) w)).
Proof. reflexivity. Qed.

Lemma sound_epoch_rest tl steps vl vsteps (w : W) :
  sound C InEpoch w (epoch_rest C tl steps vl vsteps w).
Proof.
  unfold epoch_rest.
  apply sound_bind; [apply sound_callbacks|]. intros _ w1 _ _.
  apply sound_bind; [now apply sound_invoke|]. intros _ w2 _ _.
  apply sound_bind; [apply sound_run_one_epoch; simpl; lia|]. intros _ w3 _ _.
  apply sound_bind; [apply sound_snapshot_train; simpl; lia|]. intros _ w4 _ _.
  apply sound_bind.
  { destruct vl as [v|]; [|apply sound_ret].
    apply sound_bind; [apply sound_evaluate; simpl; lia|]. intros _ w5 _ _.
    apply sound_snapshot_val; simpl; lia. }
  intros _ w5 _ _. apply sound_callbacks.
Qed.

Lemma completes_epoch_rest tl steps vl vsteps (w : W) :
  verbose (st w) = false ->
  all_sized steps tl vsteps vl = true ->
  completes (epoch_rest C tl steps vl vsteps) w
    (epoch_hooks tl vl (epoch (st w))).
Proof.
  intros Hv Hs. apply andb_true_iff in Hs. destruct Hs as [Hs Hvs].
  unfold epoch_rest.
  eapply completes_eq.
  - eapply completes_bind; [apply completes_callbacks|]. intros a1 w1 E1.
    apply callbacks_inv in E1. destruct E1 as [E1 _].
    eapply completes_bind; [apply completes_invoke|]. intros a2 w2 E2.
    apply invoke_inv in E2. destruct E2 as (E2 & _).
    assert (Hst2 : st w2 = st w) by congruence.
    eapply completes_bind.
    { eapply completes_eq;
        [apply completes_run_one_epoch; [rewrite Hst2; exact Hv | exact Hs]|].
      rewrite Hst2. reflexivity. }
    intros a3 w3 E3. apply run_one_epoch_frame in E3.
    eapply completes_bind; [apply completes_snapshot_train|]. intros a4 w4 E4.
    apply snapshot_train_frame in E4.
    assert (R4 : reaches C InEpoch w2 w4).
    { eapply reaches_trans; [|exact E4].
      eapply reaches_mono; [|exact E3]. simpl; lia. }
    destruct (reaches_static R4) as (_ & _ & _ & Ev4).
    destruct (reaches_in_epoch (sc:=InEpoch) ltac:(simpl; lia) R4) as (Ee4 & _).
    rewrite Hst2 in Ev4, Ee4.
    eapply completes_bind.
    { instantiate (1 := match vl with
                        | Some v => pass_hooks (epoch (st w)) (length (batches v))
                        | None => []
                        end).
      destruct vl as [v|].
      - eapply completes_eq.
        + eapply completes_bind.
          * apply completes_evaluate; [congruence | exact Hvs].
          * intros. apply completes_snapshot_val.
        + rewrite Ee4. now rewrite app_nil_r.
      - eapply completes_pure; reflexivity. }
    intros a5 w5 E5.
    assert (R5 : reaches C InEpoch w4 w5).
    { destruct vl as [v|].
      - unfold bind in E5.
        destruct (evaluate C v vsteps w4) as [x wx|] eqn:Ex; [|discriminate].
        apply evaluate_frame in Ex. apply snapshot_val_frame in E5.
        eapply reaches_trans; [|exact E5].
        eapply reaches_mono; [|exact Ex]. simpl; lia.
      - inversion E5; subst. apply reaches_refl. }
    destruct (reaches_in_epoch (sc:=InEpoch) ltac:(simpl; lia) R5) as (Ee5 & _).
    eapply completes_eq; [apply completes_callbacks|].
    rewrite Ee5, Ee4. reflexivity.
  - unfold epoch_hooks. simpl. reflexivity.
Qed.

Lemma fit_epoch_quiet tl steps vl vsteps ep (w : W) :
  verbose (st w) = false ->
  all_sized steps tl vsteps vl = true ->
  exists w', fit_epoch C tl steps vl vsteps ep w = Ok tt w' /\
    hook_log (trace w') = hook_log (trace w) ++ epoch_hooks tl vl ep /\
    epoch (st w') = ep /\ verbose (st w') = false.
Proof.
  intros Hv Hs. rewrite fit_epoch_unfold.
  set (wA := with_st (set_epoch ep) (with_st (set_is_train true) w)).
  destruct (completes_epoch_rest tl steps vl vsteps wA Hv Hs)
    as ([] & w' & E & Hl).
  exists w'. split; [exact E|].
  pose proof (sound_epoch_rest tl steps vl vsteps wA) as S.
  rewrite E in S. simpl in S.
  destruct (reaches_static S) as (_ & _ & _ & Ev).
  destruct (reaches_in_epoch (sc:=InEpoch) ltac:(simpl; lia) S) as (Ee & _).
  repeat split; [exact Hl | exact Ee | now rewrite Ev].
Qed.

Lemma last_nonempty {A} (x : A) (l : list A) (d d' : A) :
  List.last (x :: l) d = List.last (x :: l) d'.
Proof.
  revert x. induction l as [|y l IH]; intros x; [reflexivity|].
  change (List.last (y :: l) d = List.last (y :: l) d'). apply IH.
Qed.

Lemma fit_epochs_quiet tl steps vl vsteps (eps : list Z) :
  forall w : W,
    verbose (st w) = false ->
    all_sized steps tl vsteps vl = true ->
    exists w', for_each eps (fit_epoch C tl steps vl vsteps) w = Ok tt w' /\
      hook_log (trace w') =
        hook_log (trace w) ++ flat_map (epoch_hooks tl vl) eps /\
      epoch (st w') = List.last eps (epoch (st w)) /\
      verbose (st w') = false.
Proof.
  induction eps as [|ep eps IH]; intros w Hv Hs.
  - exists w. simpl. rewrite app_nil_r. auto.
  - destruct (fit_epoch_quiet tl steps vl vsteps ep w Hv Hs)
      as (w1 & E1 & L1 & Ee1 & Ev1).
    destruct (IH w1 Ev1 Hs) as (w2 & E2 & L2 & Ee2 & Ev2).
    exists w2. cbn [for_each]. unfold bind. rewrite E1.
    split; [exact E2|]. split; [|split; [|exact Ev2]].
    + rewrite L2, L1. cbn [flat_map]. now rewrite <- !app_assoc.
    + rewrite Ee2, Ee1. destruct eps as [|z eps]; [reflexivity|].
      change (List.last (z :: eps) ep = List.last (z :: eps) (epoch (st w))).
      apply last_nonempty.
Qed.

(** A whole [fit] in which nothing raises: it returns, and the log of the
    dispatcher events is the expected one. *)
Lemma fit_quiet tl steps vl vsteps epochs start (w : W) :
  verbose (st w) = false ->
  all_sized steps tl vsteps vl = true ->
  exists w', fit C tl steps vl vsteps epochs start w = Ok tt w' /\
    hook_log (trace w') =
      hook_log (trace w) ++ fit_hooks tl vl (epoch (st w)) start epochs.
Proof.
  intros Hv Hs. unfold fit.
  set (w0 := with_st (set_batch_size
               match ld_batch_size tl with Some b => b | None => 1%Z end)
               (with_st (set_num_epochs epochs) w)).
  destruct (completes_callbacks on_train_begin w0) as ([] & w1 & E1 & L1).
  pose proof (callbacks_inv _ _ E1) as [S1 _].
  destruct (fit_epochs_quiet tl steps vl vsteps (range start epochs) w1)
    as (w2 & E2 & L2 & Ee2 & Ev2); [now rewrite S1 | exact Hs |].
  destruct (completes_callbacks on_train_end w2) as ([] & w3 & E3 & L3).
  exists w3. split.
  - unfold bind at 1. simpl. unfold bind at 1. simpl.
    fold w0. unfold bind at 1. rewrite E1.
    unfold bind at 1. rewrite E2. exact E3.
  - rewrite L3, L2, L1, Ee2, S1. unfold fit_hooks. simpl.
    now rewrite <- !app_assoc.
Qed.

End QuietRuns.


(** ** The inner epoch loop, line by line *)

Section EpochLoop.
Context {Scalar Input Target Output Loss Metric UserExn Ext : Type}.
Context `{ScalarOps Scalar}.

Variable C : @Collab Scalar Input Target Output Loss Metric UserExn Ext.

Abbreviation W := (@World Scalar Input Target Output Loss Metric UserExn Ext).
Abbreviation Res := (@Result Scalar Input Target Output Loss Metric UserExn Ext).
Abbreviation Mon := (@M Scalar Input Target Output Loss Metric UserExn Ext).
Abbreviation State' := (RunnerState Input Target Output Metric).
Abbreviation call' := (@call Scalar Input Target Output Loss Metric).

(** The world in which a result surfaces has the context and the store of
    the last world the run reached. *)
Lemma sound_world sc {A} (w : W) (r : Res A) :
  sound C sc w r ->
  exists w1, reaches C sc w w1 /\
    st (world_of r) = st w1 /\ heap (world_of r) = heap w1.
Proof.
  destruct r as [a w'|e w']; simpl.
  - intros Hr. exists w'. auto.
  - intros (w1 & Hr & Hc). exists w1. split; [exact Hr|].
    destruct e; simpl in Hc; try (subst; auto; fail).
    destruct Hc as (c & x' & _ & _ & ->). auto.
Qed.

(** Lines 71-74 always return: the meters and the timer are reset, nothing
    is called. *)
Lemma run_one_epoch_resets ld steps (w : W) :
  exists w2,
    _run_one_epoch C ld steps w = epoch_tail C ld steps w2 /\
    st w2 = set_timer (S (timer (st w))) (st w) /\
    ext w2 = ext w /\ grad_enabled w2 = grad_enabled w /\
    length (heap w2) = length (heap w) /\
    trace w2 = trace w.
Proof.
  assert (Hres : forall (l : list loc) (wa : W),
            exists wb, for_each l meter_reset_at wa = Ok tt wb /\
              st wb = st wa /\ ext wb = ext wa /\
              grad_enabled wb = grad_enabled wa /\
              length (heap wb) = length (heap wa) /\ trace wb = trace wa).
  { induction l as [|x l IH]; intros wa.
    - exists wa. simpl. auto 10.
    - destruct (IH (with_heap (alter meter_reset x) wa))
        as (wb & E & E1 & E2 & E3 & E4 & E5).
      exists wb. split; [exact E|]. simpl in *.
      rewrite length_alter in E4. auto 10. }
  set (w1 := with_st (fun s => set_timer (S (timer s)) s)
               (with_heap (alter meter_reset (loss_meter (st w))) w)).
  destruct (Hres (metric_meters (st w1)) w1) as (w2 & E & E1 & E2 & E3 & E4 & E5).
  exists w2. split.
  - unfold _run_one_epoch, epoch_tail.
    unfold bind at 1. simpl. unfold bind at 1. simpl.
    unfold bind at 1. simpl. unfold bind at 1. simpl. unfold bind at 1.
    subst w1. simpl in E. rewrite E. reflexivity.
  - rewrite E1, E2, E3, E4, E5. subst w1. simpl.
    rewrite length_alter. auto 10.
Qed.

Lemma steps_or_len_value steps (ld : Loader Input Target) (w : W) :
  steps_or_len steps ld w =
  match effective_size steps ld with
  | Some n => Ok n w
  | None => Err TypeError w
  end.
Proof.
  unfold effective_size, steps_or_len, len.
  destruct steps as [s|]; [destruct (s =? 0)%Z|];
    try reflexivity; destruct (ld_len ld); reflexivity.
Qed.

(** From line 75 on, nothing but line 75 writes the epoch size. *)
Lemma epoch_tail_sized ld steps (w : W) n :
  effective_size steps ld = Some n ->
  ep_size (st (world_of (epoch_tail C ld steps w))) = Some n.
Proof.
  intros Hn.
  unfold epoch_tail. unfold bind at 1. rewrite steps_or_len_value, Hn.
  unfold bind at 1. simpl.
  set (w1 := with_st (set_ep_size (Some n)) w).
  assert (S : sound C InLoop w1
                (bind (make_pbar C) (fun pbar =>
                 bind (gets is_train) (fun training =>
                 scoped_grad training
                   (for_each (enumerate (batches ld)) (batch_body C pbar)))) w1)).
  { apply sound_bind; [apply sound_make_pbar|]. intros p w2 _ _.
    apply sound_bind; [apply sound_gets|]. intros b w3 _ _.
    apply sound_scoped_grad.
    apply sound_for_each with (I := fun _ : W => True); auto.
    intros. apply sound_batch_body. }
  apply sound_world in S. destruct S as (w2 & Hr & Hst & _).
  rewrite Hst, (reaches_in_loop Hr). reflexivity.
Qed.

(** Without a size, line 75 raises. *)
Lemma epoch_tail_unsized ld steps (w : W) :
  effective_size steps ld = None ->
  epoch_tail C ld steps w = Err TypeError w.
Proof.
  intros Hn. unfold epoch_tail, bind. now rewrite steps_or_len_value, Hn.
Qed.

(** In verbose mode the call on line 77 raises, if line 75 has not. *)
Lemma epoch_tail_verbose ld steps (w : W) :
  verbose (st w) = true ->
  exists w', epoch_tail C ld steps w = Err TypeError w' /\
             trace w' = trace w /\ heap w' = heap w /\ ext w' = ext w /\
             step (st w') = step (st w).
Proof.
  intros Hv. unfold epoch_tail, bind at 1. rewrite steps_or_len_value.
  destruct (effective_size steps ld) as [n|].
  - unfold bind at 1. simpl. unfold make_pbar, bind, gets. simpl.
    rewrite Hv. simpl. eexists. split; [reflexivity|]. simpl. auto.
  - exists w. auto.
Qed.

(** C3 (as amended).  The epoch size recorded by the inner epoch loop is the
    explicit step count whenever a non-zero one is given; with no step
    count, or with a step count of 0, it is the length of the data
    source. *)
Theorem ep_size_recorded (ld : Loader Input Target) (steps : option Z) (w : W) :
  (forall s : Z, steps = Some s -> s <> 0%Z ->
     ep_size (st (world_of (_run_one_epoch C ld steps w))) = Some s) /\
  (forall L : nat, steps = None \/ steps = Some 0%Z -> ld_len ld = Some L ->
     ep_size (st (world_of (_run_one_epoch C ld steps w))) = Some (Z.of_nat L)).
Proof.
  destruct (run_one_epoch_resets ld steps w) as (w2 & -> & _).
  split.
  - intros s -> Hs. apply epoch_tail_sized. simpl.
    destruct (Z.eqb_spec s 0); [contradiction | reflexivity].
  - intros L Hsteps HL. apply epoch_tail_sized.
    destruct Hsteps as [-> | ->]; simpl; now rewrite HL.
Qed.

(** In verbose mode the inner epoch loop raises on line 75 or on line 77,
    with the log and the step index as they were. *)
Lemma run_one_epoch_verbose (ld : Loader Input Target) (steps : option Z) (w : W) :
  verbose (st w) = true ->
  exists w', _run_one_epoch C ld steps w = Err TypeError w' /\
             trace w' = trace w /\ step (st w') = step (st w).
Proof.
  intros Hv.
  destruct (run_one_epoch_resets ld steps w) as (w2 & -> & Hst & _ & _ & _ & Htr).
  destruct (epoch_tail_verbose ld steps w2) as (w' & E & Et & _ & _ & Es).
  { now rewrite Hst. }
  exists w'. split; [exact E|]. rewrite Et, Es, Htr, Hst. auto.
Qed.

(** C2 (where the code departs from it).  In verbose mode the inner epoch
    loop raises [TypeError] before the first batch, whatever the source and
    the step count: the log is as it was, so no callback has run, no batch
    has been given to the model and no readout has been surfaced; the step
    index was never set. *)
Theorem verbose_epoch_loop_raises (ld : Loader Input Target)
    (steps : option Z) (w : W) :
  verbose (st w) = true ->
  exists w', _run_one_epoch C ld steps w = Err TypeError w' /\
             trace w' = trace w /\ step (st w') = step (st w).
Proof. apply run_one_epoch_verbose. Qed.

Lemma bind_invoke_returns {B} (c : call') (k : unit -> Mon B) (w : W) x' :
  ext_run C c (ext w) = (None, x') ->
  bind (invoke C c) k w =
  k tt (mkWorld (st w) (heap w) x' (grad_enabled w)
                (trace w ++ [mkEntry c None])).
Proof. intros E. unfold bind, invoke. now rewrite E. Qed.

Lemma bind_invoke_raises {B} (c : call') (k : unit -> Mon B) (w : W) u x' :
  ext_run C c (ext w) = (Some u, x') ->
  bind (invoke C c) k w =
  Err (Raised u) (mkWorld (st w) (heap w) x' (grad_enabled w)
                          (trace w ++ [mkEntry c (Some u)])).
Proof. intros E. unfold bind, invoke. now rewrite E. Qed.

Lemma bind_callbacks_returns {B} (h : hook) (k : unit -> Mon B) (w : W) x' :
  ext_run C (Callback h (st w) (heap w)) (ext w) = (None, x') ->
  bind (callbacks C h) k w =
  k tt (mkWorld (st w) (heap w) x' (grad_enabled w)
                (trace w ++ [mkEntry (Callback h (st w) (heap w)) None])).
Proof. intros E. unfold bind, callbacks, invoke. now rewrite E. Qed.

Lemma bind_callbacks_raises {B} (h : hook) (k : unit -> Mon B) (w : W) u x' :
  ext_run C (Callback h (st w) (heap w)) (ext w) = (Some u, x') ->
  bind (callbacks C h) k w =
  Err (Raised u)
      (mkWorld (st w) (heap w) x' (grad_enabled w)
               (trace w ++ [mkEntry (Callback h (st w) (heap w)) (Some u)])).
Proof. intros E. unfold bind, callbacks, invoke. now rewrite E. Qed.

Lemma range_cons (s e : Z) :
  (s < e)%Z -> range s e = s :: range (s + 1) e.
Proof.
  intros Hlt. unfold range.
  replace (Z.to_nat (e - s)) with (S (Z.to_nat (e - (s + 1)))) by lia.
  cbn [seq map]. f_equal; [lia|].
  rewrite <- seq_shift, map_map. apply map_ext. intros a. lia.
Qed.

Lemma range_empty (s e : Z) : (e <= s)%Z -> range s e = [].
Proof.
  intros Hle. unfold range.
  replace (Z.to_nat (e - s)) with 0 by lia. reflexivity.
Qed.

Lemma run_one_epoch_unsized (ld : Loader Input Target) (w : W) :
  ld_len ld = None ->
  exists w', _run_one_epoch C ld None w = Err TypeError w' /\
             trace w' = trace w /\ step (st w') = step (st w).
Proof.
  intros Hl.
  destruct (run_one_epoch_resets ld None w) as (w2 & -> & Hst & _ & _ & _ & Htr).
  exists w2. split.
  - apply epoch_tail_unsized. simpl. now rewrite Hl.
  - now rewrite Htr, Hst.
Qed.

Lemma evaluate_unsized (ld : Loader Input Target) (w : W) :
  ld_len ld = None ->
  exists e w', evaluate C ld None w = Err e w' /\ fails_before_batches w e w'.
Proof.
  intros Hl. unfold evaluate. unfold bind at 1. simpl.
  destruct (ext_run C ModelEval (ext w)) as [[u|] x'] eqn:Ex.
  - erewrite bind_invoke_raises by exact Ex.
    eexists _, _. split; [reflexivity|].
    eexists. simpl. split; [reflexivity|]. repeat split.
    + repeat constructor.
    + intros Hall. inversion Hall; subst. discriminate.
  - erewrite bind_invoke_returns by exact Ex.
    unfold bind at 1.
    match goal with |- context [_run_one_epoch C ld None ?wa] =>
      destruct (run_one_epoch_unsized ld wa Hl) as (w' & E & Et & Es)
    end.
    rewrite E. eexists _, _. split; [reflexivity|].
    eexists. rewrite Et, Es. simpl. split; [reflexivity|]. repeat split.
    repeat constructor.
Qed.

Lemma fit_unsized (ld : Loader Input Target) vl vsteps (epochs start : Z) (w : W) :
  ld_len ld = None ->
  (start < epochs)%Z ->
  exists e w', fit C ld None vl vsteps epochs start w = Err e w' /\
               fails_before_batches w e w'.
Proof.
  intros Hl Hlt. unfold fit. unfold bind at 1. simpl. unfold bind at 1. simpl.
  rewrite (range_cons Hlt).
  match goal with |- context [bind (callbacks C on_train_begin) _ ?wa] =>
    set (w0 := wa) end.
  destruct (ext_run C (Callback on_train_begin (st w0) (heap w0)) (ext w0))
    as [[u|] x0] eqn:E0.
  { erewrite bind_callbacks_raises by exact E0.
    eexists _, _. split; [reflexivity|].
    eexists. simpl. split; [reflexivity|]. repeat split.
    - repeat constructor.
    - intros Hall. inversion Hall; subst. discriminate. }
  erewrite bind_callbacks_returns by exact E0.
  unfold bind at 1. cbn [for_each]. unfold bind at 1.
  unfold fit_epoch. unfold bind at 1. simpl. unfold bind at 1. simpl.
  match goal with |- context [bind (callbacks C on_epoch_begin) _ ?wa] =>
    set (w1 := wa) end.
  destruct (ext_run C (Callback on_epoch_begin (st w1) (heap w1)) (ext w1))
    as [[u|] x1] eqn:E1.
  { erewrite bind_callbacks_raises by exact E1.
    eexists _, _. split; [reflexivity|].
    eexists. simpl. rewrite <- app_assoc. split; [reflexivity|]. repeat split.
    - repeat constructor.
    - intros Hall. inversion Hall as [|? ? _ Hall']; subst.
      inversion Hall'; subst. discriminate. }
  erewrite bind_callbacks_returns by exact E1.
  match goal with |- context [bind (invoke C ModelTrain) _ ?wa] =>
    set (w2 := wa) end.
  destruct (ext_run C ModelTrain (ext w2)) as [[u|] x2] eqn:E2.
  { erewrite bind_invoke_raises by exact E2.
    eexists _, _. split; [reflexivity|].
    eexists. simpl. rewrite <- !app_assoc. split; [reflexivity|]. repeat split.
    - repeat constructor.
    - intros Hall. inversion Hall as [|? ? _ Hall']; subst.
      inversion Hall' as [|? ? _ Hall'']; subst.
      inversion Hall''; subst. discriminate. }
  erewrite bind_invoke_returns by exact E2.
  unfold bind at 1.
  match goal with |- context [_run_one_epoch C ld None ?wa] =>
    destruct (run_one_epoch_unsized ld wa Hl) as (w' & E & Et & Es)
  end.
  rewrite E. eexists _, _. split; [reflexivity|].
  eexists. rewrite Et, Es. simpl. rewrite <- !app_assoc.
  split; [reflexivity|]. repeat split. repeat constructor.
Qed.

(** C4 (as amended).  On a data source without a length and with no
    explicit step count, every call to [evaluate], and every call to [fit]
    that has an epoch to run ([start_epoch < epochs]), raises before any
    batch is processed; what is raised is the [TypeError] of [len], unless
    a collaborator called before the loop raised first. *)
Theorem unsized_source_raises (ld : Loader Input Target) (w : W) :
  ld_len ld = None ->
  (exists e w', evaluate C ld None w = Err e w' /\ fails_before_batches w e w') /\
  (forall vl vsteps (epochs start : Z),
     (start < epochs)%Z ->
     exists e w', fit C ld None vl vsteps epochs start w = Err e w' /\
                  fails_before_batches w e w').
Proof.
  intros Hl. split.
  - now apply evaluate_unsized.
  - intros. now apply fit_unsized.
Qed.

(** *** No optimizer outside training *)




(** [evaluate] past its first line, seen from the world that line leaves. *)
Lemma sound_evaluate_body ld steps (w : W) :
  sound C InEvaluate (with_st (set_is_train false) w) (evaluate C ld steps w).
Proof.
  change (evaluate C ld steps w) with
    (bind (invoke C ModelEval) (fun _ =>
     bind (_run_one_epoch C ld steps) (fun _ =>
     bind (gets loss_meter) (fun lm =>
     bind (read_meter lm) (fun l =>
     bind (gets metric_meters) (fun mms =>
     bind (map_m read_meter mms) (fun ms =>
     ret (meter_avg l, map meter_avg ms)))))))
     (with_st (set_is_train false) w)).
  apply sound_bind; [now apply sound_invoke|]. intros _ w1 _ _.
  apply sound_bind; [apply sound_run_one_epoch; simpl; lia|]. intros _ w2 _ _.
  apply sound_bind; [apply sound_gets|]. intros lm w3 _ _.
  apply sound_bind; [apply sound_read_meter|]. intros l w4 _ _.
  apply sound_bind; [apply sound_gets|]. intros mms w5 _ _.
  apply sound_bind.
  { apply sound_map_m with (I := fun _ : W => True); auto.
    intros. apply sound_read_meter. }
  intros. apply sound_ret.
Qed.


(** *** Exceptions reach the caller *)


Lemma for_each_app {A} (l1 l2 : list A) (body : A -> Mon unit) (w : W) :
  for_each (l1 ++ l2) body w =
  bind (for_each l1 body) (fun _ => for_each l2 body) w.
Proof.
  revert w. induction l1 as [|x l1 IH]; intros w; [reflexivity|].
  cbn [app for_each]. unfold bind.
  destruct (body x w) as [[] w1|e w1]; [|reflexivity].
  rewrite IH. reflexivity.
Qed.

Lemma range_split (s k e : Z) :
  (s <= k)%Z -> (k <= e)%Z -> range s e = range s k ++ range k e.
Proof.
  intros H1 H2. remember (Z.to_nat (k - s)) as n eqn:En.
  revert s H1 En. induction n as [|n IH]; intros s H1 En.
  - assert (s = k) by lia. subst s.
    rewrite (@range_empty k k) by lia. reflexivity.
  - rewrite (@range_cons s e) by lia. rewrite (@range_cons s k) by lia.
    cbn [app]. f_equal. apply IH; lia.
Qed.

Lemma bind_assoc {A B D} (m : Mon A) (f : A -> Mon B) (g : B -> Mon D) (w : W) :
  bind (bind m f) g w = bind m (fun a => bind (f a) g) w.
Proof. unfold bind. destruct (m w); reflexivity. Qed.

Lemma bind_modify {B} (f : State' -> State') (k : unit -> Mon B) (w : W) :
  bind (modify f) k w = k tt (with_st f w).
Proof. reflexivity. Qed.

Lemma bind_ok {A B} (m : Mon A) (k : A -> Mon B) (w w1 : W) a :
  m w = Ok a w1 -> bind m k w = k a w1.
Proof. intros E. unfold bind. now rewrite E. Qed.

Lemma bind_err {A B} (m : Mon A) (k : A -> Mon B) (w w1 : W) e :
  m w = Err e w1 -> bind m k w = Err e w1.
Proof. intros E. unfold bind. now rewrite E. Qed.

Lemma bind_ok_inv {A B} (m : Mon A) (k : A -> Mon B) (w w' : W) b :
  bind m k w = Ok b w' -> exists a w1, m w = Ok a w1 /\ k a w1 = Ok b w'.
Proof.
  unfold bind. destruct (m w) as [a w1|e w1]; [|discriminate]. eauto.
Qed.

Lemma bind_for_each_app {A B} (l1 l2 : list A) (body : A -> Mon unit)
    (k : unit -> Mon B) (w : W) :
  bind (for_each (l1 ++ l2) body) k w =
  bind (for_each l1 body) (fun _ => bind (for_each l2 body) k) w.
Proof.
  unfold bind. rewrite for_each_app. unfold bind.
  destruct (for_each l1 body w); reflexivity.
Qed.

Lemma bind_congr {A B} (m m' : Mon A) (k : A -> Mon B) (w : W) :
  m w = m' w -> bind m k w = bind m' k w.
Proof. intros E. unfold bind. now rewrite E. Qed.

Lemma bind_ext {A B} (m : Mon A) (k1 k2 : A -> Mon B) (w : W) :
  (forall a w', k1 a w' = k2 a w') -> bind m k1 w = bind m k2 w.
Proof. intros E. unfold bind. destruct (m w); [apply E | reflexivity]. Qed.

Ltac bind_norm :=
  repeat (rewrite bind_modify || rewrite bind_assoc || cbv beta);
  first [ reflexivity | apply bind_ext; intros; bind_norm ].

(** [fit], resumed from the moment epoch [k] is about to begin. *)
Lemma fit_resume tl steps vl vsteps (epochs start k : Z) (w w0 : W) :
  (start <= k)%Z -> (k <= epochs)%Z ->
  fit_until C tl steps vl vsteps epochs start k w = Ok tt w0 ->
  fit C tl steps vl vsteps epochs start w =
  bind (for_each (range k epochs) (fit_epoch C tl steps vl vsteps))
       (fun _ => callbacks C on_train_end) w0.
Proof.
  intros H1 H2. unfold fit, fit_until. rewrite !bind_modify.
  intros E. apply bind_ok_inv in E. destruct E as ([] & w1 & E1 & E2).
  erewrite bind_ok by exact E1.
  rewrite (range_split H1 H2), bind_for_each_app.
  erewrite bind_ok by exact E2. reflexivity.
Qed.



Lemma fit_epoch_from_train tl steps vl vsteps (ep : Z) (w : W) :
  fit_epoch C tl steps vl vsteps ep w =
  bind (train_phase C tl steps ep) (fun _ =>
  bind (match vl with
        | Some v => bind (evaluate C v vsteps) (fun _ => snapshot_val)
        | None => ret tt
        end) (fun _ => callbacks C on_epoch_end)) w.
Proof.
  unfold fit_epoch, train_phase. bind_norm.
Qed.








(** *** Snapshots *)

Lemma deref_app_l (hp extra : list (Meter Scalar)) (l : loc) :
  l < length hp -> deref (hp ++ extra) l = deref hp l.
Proof. intros Hl. unfold deref. now rewrite lookup_app_l. Qed.

Lemma map_m_copy_spec (l : list loc) :
  forall w : W,
    Forall (fun x => x < length (heap w)) l ->
    map_m copy l w =
    Ok (seq (length (heap w)) (length l))
       (with_heap (fun hp => hp ++ map (deref hp) l) w).
Proof.
  induction l as [|x l IH]; intros w Hall.
  - simpl. unfold ret, with_heap. rewrite app_nil_r. now destruct w.
  - inversion Hall as [|? ? Hx Hl]; subst.
    cbn [map_m]. unfold bind at 1. unfold copy at 1.
    set (w1 := with_heap (fun hp => hp ++ [deref hp x]) w).
    assert (Hlen : length (heap w1) = S (length (heap w))).
    { subst w1. simpl. rewrite length_app. simpl. lia. }
    unfold bind at 1. rewrite IH.
    2:{ eapply Forall_impl; [exact Hl|]. intros a Ha. cbv beta in *.
        rewrite Hlen. lia. }
    unfold ret. rewrite Hlen. cbn [length seq]. f_equal.
    subst w1. unfold with_heap. simpl. f_equal.
    rewrite <- app_assoc. f_equal. cbn [map app]. f_equal.
    apply map_ext_in. intros y Hy. apply deref_app_l.
    rewrite List.Forall_forall in Hl. now apply Hl.
Qed.

Lemma snapshot_train_spec (w : W) :
  wf w ->
  exists w',
    snapshot_train w = Ok tt w' /\
    st w' = set_train_metrics
              (Some (seq (S (length (heap w))) (length (metric_meters (st w)))))
              (set_train_loss (Some (length (heap w))) (st w)) /\
    heap w' = heap w ++ deref (heap w) (loss_meter (st w))
                        :: map (deref (heap w)) (metric_meters (st w)) /\
    trace w' = trace w /\ ext w' = ext w.
Proof.
  intros [Hl Hm]. unfold snapshot_train.
  unfold bind at 1. simpl. unfold bind at 1. simpl.
  unfold bind at 1. simpl. unfold bind at 1. simpl.
  unfold bind at 1. rewrite map_m_copy_spec.
  2:{ simpl. eapply Forall_impl; [exact Hm|]. simpl. intros.
      rewrite length_app. simpl. lia. }
  simpl. eexists. split; [reflexivity|]. simpl.
  rewrite length_app. simpl.
  replace (length (heap w) + 1) with (S (length (heap w))) by lia.
  repeat split.
  rewrite <- app_assoc. f_equal. cbn [app]. f_equal.
  apply map_ext_in. intros y Hy. apply deref_app_l.
  rewrite List.Forall_forall in Hm. now apply Hm.
Qed.

Lemma snapshot_val_spec (w : W) :
  wf w ->
  exists w',
    snapshot_val w = Ok tt w' /\
    st w' = set_val_metrics
              (Some (seq (S (length (heap w))) (length (metric_meters (st w)))))
              (set_val_loss (Some (length (heap w))) (st w)) /\
    heap w' = heap w ++ deref (heap w) (loss_meter (st w))
                        :: map (deref (heap w)) (metric_meters (st w)) /\
    trace w' = trace w /\ ext w' = ext w.
Proof.
  intros [Hl Hm]. unfold snapshot_val.
  unfold bind at 1. simpl. unfold bind at 1. simpl.
  unfold bind at 1. simpl. unfold bind at 1. simpl.
  unfold bind at 1. rewrite map_m_copy_spec.
  2:{ simpl. eapply Forall_impl; [exact Hm|]. simpl. intros.
      rewrite length_app. simpl. lia. }
  simpl. eexists. split; [reflexivity|]. simpl.
  rewrite length_app. simpl.
  replace (length (heap w) + 1) with (S (length (heap w))) by lia.
  repeat split.
  rewrite <- app_assoc. f_equal. cbn [app]. f_equal.
  apply map_ext_in. intros y Hy. apply deref_app_l.
  rewrite List.Forall_forall in Hm. now apply Hm.
Qed.

(** A snapshot just taken: new objects, none of them a live meter, holding
    what the meters hold. *)
Lemma fresh_snapshot (w w' : W) :
  wf w ->
  loss_meter (st w') = loss_meter (st w) ->
  metric_meters (st w') = metric_meters (st w) ->
  heap w' = heap w ++ deref (heap w) (loss_meter (st w))
                      :: map (deref (heap w)) (metric_meters (st w)) ->
  Forall (detached w')
    (length (heap w) :: seq (S (length (heap w))) (length (metric_meters (st w)))) /\
  copies w' (length (heap w))
    (seq (S (length (heap w))) (length (metric_meters (st w)))).
Proof.
  intros [Hl Hm] E1 E2 Eh.
  rewrite List.Forall_forall in Hm.
  assert (Hlen : length (heap w') =
                 S (length (heap w) + length (metric_meters (st w)))).
  { rewrite Eh, length_app. simpl. rewrite length_map. lia. }
  split.
  - change (length (heap w) :: seq (S (length (heap w)))
              (length (metric_meters (st w))))
      with (seq (length (heap w)) (S (length (metric_meters (st w))))).
    apply List.Forall_forall. intros l Hin. apply in_seq in Hin.
    unfold detached. rewrite E1, E2, Hlen. repeat split; try lia.
    intros Hc. apply Hm in Hc. lia.
  - unfold copies. rewrite E1, E2, Eh. split.
    + transitivity (deref (heap w) (loss_meter (st w))).
      * unfold deref. rewrite lookup_app_r by lia.
        now rewrite Nat.sub_diag.
      * symmetry. apply deref_app_l. exact Hl.
    + generalize (deref (heap w) (loss_meter (st w))). intros m0.
      assert (G : forall (mms : list loc) (pre : list (Meter Scalar)),
                Forall (fun x => x < length (heap w)) mms ->
                Forall2 (fun l' m =>
                           deref ((heap w ++ pre) ++ map (deref (heap w)) mms) l' =
                           deref ((heap w ++ pre) ++ map (deref (heap w)) mms) m)
                        (seq (length (heap w ++ pre)) (length mms)) mms).
      { induction mms as [|m mms IH]; intros pre Hall; [constructor|].
        inversion Hall as [|? ? Hm0 Hall']; subst.
        cbn [length seq map]. constructor.
        - transitivity (deref (heap w) m).
          + unfold deref. rewrite lookup_app_r by lia.
            now rewrite Nat.sub_diag.
          + symmetry. rewrite <- app_assoc. apply deref_app_l. exact Hm0.
        - specialize (IH (pre ++ [deref (heap w) m]) Hall').
          rewrite !app_assoc in IH. rewrite !length_app in IH. simpl in IH.
          rewrite length_app.
          replace (S (length (heap w) + length pre))
            with (length (heap w) + length pre + 1) by lia.
          replace ((heap w ++ pre) ++ deref (heap w) m :: map (deref (heap w)) mms)
            with (((heap w ++ pre) ++ [deref (heap w) m]) ++ map (deref (heap w)) mms)
            by (now rewrite <- !app_assoc).
          exact IH. }
      specialize (G (metric_meters (st w)) [m0]).
      rewrite <- app_assoc in G. rewrite length_app in G. simpl in G.
      replace (length (heap w) + 1) with (S (length (heap w))) in G by lia.
      apply G. apply List.Forall_forall. exact Hm.
Qed.

Lemma reaches_detached sc (w w' : W) (l : loc) :
  reaches C sc w w' -> detached w l -> detached w' l /\ unchanged w w' l.
Proof.
  intros Hr (Hlt & Hne & Hni).
  destruct (reaches_static Hr) as (E1 & E2 & _).
  destruct (reaches_heap Hr) as [Hlen Hfr].
  unfold detached, unchanged. rewrite E1, E2.
  repeat split; try assumption; try lia. now apply Hfr.
Qed.

Lemma sound_detached sc {A} (w : W) (r : Res A) (l : loc) :
  sound C sc w r -> detached w l ->
  detached (world_of r) l /\ unchanged w (world_of r) l.
Proof.
  intros Hs Hd. apply sound_world in Hs. destruct Hs as (w1 & Hr & Hst & Hh).
  destruct (reaches_detached Hr Hd) as [D U].
  unfold detached, unchanged in *. rewrite Hst, Hh. auto.
Qed.

Lemma wf_same (w w' : W) :
  loss_meter (st w') = loss_meter (st w) ->
  metric_meters (st w') = metric_meters (st w) ->
  heap w' = heap w -> wf w -> wf w'.
Proof. unfold wf. now intros -> -> ->. Qed.

(** The snapshot of the training pass, at the moment it is stored. *)
Lemma train_phase_snapshot tl steps (k : Z) (w w3 : W) :
  wf w ->
  train_phase C tl steps k w = Ok tt w3 ->
  wf w3 /\
  exists l ls,
    train_loss (st w3) = Some l /\ train_metrics (st w3) = Some ls /\
    Forall (detached w3) (l :: ls) /\ copies w3 l ls.
Proof.
  intros Hwf. unfold train_phase. rewrite !bind_modify. intros E3.
  apply bind_ok_inv in E3. destruct E3 as (x1 & wa & Ea & E3).
  apply bind_ok_inv in E3. destruct E3 as (x2 & wb & Eb & E3).
  apply bind_ok_inv in E3. destruct E3 as (x3 & wc & Ec & E3).
  apply callbacks_inv in Ea. destruct Ea as [Ea Ea'].
  apply invoke_inv in Eb. destruct Eb as (Eb & Eb' & _).
  apply run_one_epoch_frame in Ec.
  assert (Hwb : wf wb).
  { eapply wf_same; [| | |exact Hwf];
      rewrite ?Eb, ?Eb', ?Ea, ?Ea'; reflexivity. }
  assert (Hwc : wf wc) by (eapply reaches_wf; eassumption).
  destruct (snapshot_train_spec Hwc) as (w3' & E3' & Hst & Hh & _).
  rewrite E3' in E3. inversion E3; subst w3'. clear E3.
  destruct (@fresh_snapshot wc w3 Hwc) as [D Cp];
    [now rewrite Hst | now rewrite Hst | exact Hh |].
  split.
  - pose proof E3' as R. apply (snapshot_train_frame C) in R.
    eapply reaches_wf; eassumption.
  - eexists _, _. rewrite Hst. simpl.
    split; [reflexivity|]. split; [reflexivity|]. split; [exact D | exact Cp].
Qed.

(** The snapshot of the validation pass, at the moment it is stored. *)
Lemma val_phase_snapshot v vsteps (w w5 : W) :
  wf w ->
  val_phase C v vsteps w = Ok tt w5 ->
  exists l ls,
    val_loss (st w5) = Some l /\ val_metrics (st w5) = Some ls /\
    Forall (detached w5) (l :: ls) /\ copies w5 l ls.
Proof.
  intros Hwf. unfold val_phase. intros E5.
  apply bind_ok_inv in E5. destruct E5 as (x & w4 & E4 & E5).
  apply evaluate_frame in E4.
  assert (Hw4 : wf w4) by (eapply reaches_wf; eassumption).
  destruct (snapshot_val_spec Hw4) as (w5' & E5' & Hst & Hh & _).
  rewrite E5' in E5. inversion E5; subst w5'. clear E5.
  destruct (@fresh_snapshot w4 w5 Hw4) as [D Cp];
    [now rewrite Hst | now rewrite Hst | exact Hh |].
  eexists _, _. rewrite Hst. simpl.
  split; [reflexivity|]. split; [reflexivity|]. split; [exact D | exact Cp].
Qed.

Lemma sound_fit_until tl steps vl vsteps (epochs start k : Z) (w : W) :
  sound C InFit w (fit_until C tl steps vl vsteps epochs start k w).
Proof.
  unfold fit_until. rewrite !bind_modify.
  eapply sound_prefix.
  { eapply reaches_trans; apply reaches_once.
    - apply atom_fit_write with (f := set_num_epochs epochs);
        [reflexivity | apply fw_num_epochs].
    - apply atom_fit_write; [reflexivity | apply fw_batch_size]. }
  apply sound_bind; [apply sound_callbacks|]. intros _ w1 _ _.
  apply sound_for_each with (I := fun _ : W => True); auto.
  intros. apply sound_fit_epoch.
Qed.

Lemma sound_fit_rest tl steps vl vsteps (eps : list Z) (w : W) :
  sound C InFit w
    (bind (for_each eps (fit_epoch C tl steps vl vsteps))
          (fun _ => callbacks C on_train_end) w).
Proof.
  apply sound_bind.
  - apply sound_for_each with (I := fun _ : W => True); auto.
    intros. apply sound_fit_epoch.
  - intros. apply sound_callbacks.
Qed.

(** Whatever [fit] does once the training snapshot of epoch [k] is stored
    is a run from that moment. *)
Lemma fit_after_train_phase tl steps vl vsteps (epochs start k : Z) (w w0 w3 : W) :
  (start <= k < epochs)%Z ->
  fit_until C tl steps vl vsteps epochs start k w = Ok tt w0 ->
  train_phase C tl steps k w0 = Ok tt w3 ->
  sound C InFit w3 (fit C tl steps vl vsteps epochs start w).
Proof.
  intros Hk E0 E3.
  erewrite fit_resume; [| | |exact E0]; [|lia..].
  rewrite (@range_cons k epochs) by lia. cbn [for_each].
  rewrite bind_assoc.
  erewrite bind_congr by apply fit_epoch_from_train.
  rewrite bind_assoc. erewrite bind_ok by exact E3.
  apply sound_bind.
  { apply sound_bind.
    - destruct vl as [v|]; [|apply sound_ret].
      apply sound_bind; [apply sound_evaluate; simpl; lia|]. intros.
      apply sound_snapshot_val; simpl; lia.
    - intros. apply sound_callbacks. }
  intros. apply sound_fit_rest.
Qed.

(** The same once the validation snapshot of epoch [k] is stored. *)
Lemma fit_after_val_phase tl steps v vsteps (epochs start k : Z) (w w0 w3 w5 : W) :
  (start <= k < epochs)%Z ->
  fit_until C tl steps (Some v) vsteps epochs start k w = Ok tt w0 ->
  train_phase C tl steps k w0 = Ok tt w3 ->
  val_phase C v vsteps w3 = Ok tt w5 ->
  sound C InFit w5 (fit C tl steps (Some v) vsteps epochs start w).
Proof.
  intros Hk E0 E3 E5.
  erewrite fit_resume; [| | |exact E0]; [|lia..].
  rewrite (@range_cons k epochs) by lia. cbn [for_each].
  rewrite bind_assoc.
  erewrite bind_congr by apply fit_epoch_from_train.
  rewrite bind_assoc. erewrite bind_ok by exact E3.
  rewrite bind_assoc.
  change (bind (evaluate C v vsteps) (fun _ => snapshot_val))
    with (val_phase C v vsteps).
  erewrite bind_ok by exact E5.
  apply sound_bind; [apply sound_callbacks|].
  intros. apply sound_fit_rest.
Qed.

(** C6.  The snapshot [fit] stores after the training pass of epoch [k]
    (and, with a validation source, the one it stores after the validation
    pass) consists of objects of its own, none of them a live meter, that
    hold what the loss meter and the metric meters hold at that moment, in
    the order of the metrics.  Whatever [fit] does from that moment on (the
    validation pass of the same epoch, the resets and updates of every later
    pass) leaves these objects as they are, however the call ends. *)
Theorem snapshots_are_independent_copies
    (tl : Loader Input Target) (steps : option Z)
    (vl : option (Loader Input Target)) (vsteps : option Z)
    (epochs start k : Z) (w w0 w3 : W) :
  wf w ->
  (start <= k < epochs)%Z ->
  fit_until C tl steps vl vsteps epochs start k w = Ok tt w0 ->
  train_phase C tl steps k w0 = Ok tt w3 ->
  (exists l ls,
     train_loss (st w3) = Some l /\ train_metrics (st w3) = Some ls /\
     Forall (detached w3) (l :: ls) /\
     copies w3 l ls /\
     Forall (unchanged w3 (world_of (fit C tl steps vl vsteps epochs start w)))
            (l :: ls)) /\
  (forall v w5,
     vl = Some v ->
     val_phase C v vsteps w3 = Ok tt w5 ->
     exists l ls,
       val_loss (st w5) = Some l /\ val_metrics (st w5) = Some ls /\
       Forall (detached w5) (l :: ls) /\
       copies w5 l ls /\
       Forall (unchanged w5 (world_of (fit C tl steps vl vsteps epochs start w)))
              (l :: ls)).
Proof.
  intros Hwf Hk E0 E3.
  assert (Hw0 : wf w0).
  { pose proof (sound_fit_until tl steps vl vsteps epochs start k w) as S.
    rewrite E0 in S. eapply reaches_wf; eassumption. }
  destruct (train_phase_snapshot _ _ _ Hw0 E3) as (Hw3 & l & ls & Tl & Tm & D & Cp).
  split.
  - exists l, ls. split; [exact Tl|]. split; [exact Tm|]. split; [exact D|].
    split; [exact Cp|].
    eapply Forall_impl; [exact D|]. intros y Hy.
    eapply sound_detached; [|exact Hy].
    eapply fit_after_train_phase; eassumption.
  - intros v w5 -> E5.
    destruct (val_phase_snapshot _ _ Hw3 E5) as (l' & ls' & Vl & Vm & D' & Cp').
    exists l', ls'. split; [exact Vl|]. split; [exact Vm|]. split; [exact D'|].
    split; [exact Cp'|].
    eapply Forall_impl; [exact D'|]. intros y Hy.
    eapply sound_detached; [|exact Hy].
    eapply fit_after_val_phase; eassumption.
Qed.

End EpochLoop.

(** ** Whole runs: what the callbacks see *)

Section WholeRuns.
Context {Scalar Input Target Output Loss Metric UserExn Ext : Type}.
Context `{ScalarOps Scalar}.

Variable C : @Collab Scalar Input Target Output Loss Metric UserExn Ext.

Abbreviation W := (@World Scalar Input Target Output Loss Metric UserExn Ext).

Lemma range_length (s e : Z) : length (range s e) = Z.to_nat (e - s).
Proof. unfold range. now rewrite length_map, length_seq. Qed.

Lemma sized_with_len (steps : option Z) (ld : Loader Input Target) (L : nat) :
  ld_len ld = Some L -> sized steps ld = true.
Proof.
  intros HL. unfold sized. rewrite HL.
  assert (Hb : bool_decide (is_Some (Some L)) = true)
    by (apply bool_decide_eq_true; eauto).
  destruct steps as [s|]; [destruct (s =? 0)%Z|]; auto.
Qed.

(** C1 (as amended).  With the progress display off and collaborators that
    do not raise, [fit(train_source, steps_per_epoch=S, epochs=E)] on a
    source of length [L > S] returns, and the callbacks see: one
    [on_train_begin]; then, for each of the [E] epochs, [on_epoch_begin],
    [L] pairs of [on_batch_begin]/[on_batch_end] (the source is iterated in
    full, the step count only sets [ep_size]), [on_epoch_end]; then one
    [on_train_end]. *)
Theorem fit_emits_one_pair_per_batch
    (tl : Loader Input Target) (S E : Z) (L : nat) (w : W) :
  never_raises C ->
  verbose (st w) = false ->
  ld_len tl = Some L ->
  length (batches tl) = L ->
  (S < Z.of_nat L)%Z ->
  exists w',
    fit C tl (Some S) None None E 0 w = Ok tt w' /\
    length (range 0 E) = Z.to_nat E /\
    hook_log (trace w') =
      hook_log (trace w) ++
      (on_train_begin, epoch (st w)) ::
      flat_map (fun ep =>
                  (on_epoch_begin, ep) ::
                  concat (repeat [(on_batch_begin, ep); (on_batch_end, ep)] L) ++
                  [(on_epoch_end, ep)])
               (range 0 E) ++
      [(on_train_end, List.last (range 0 E) (epoch (st w)))].
Proof.
  intros Hq Hv HL Hlen _.
  destruct (@fit_quiet _ _ _ _ _ _ _ _ _ C Hq tl (Some S) None None E 0 w Hv)
    as (w' & Ef & Hl).
  { unfold all_sized. now rewrite (sized_with_len (Some S) tl HL). }
  exists w'. split; [exact Ef|]. split.
  - rewrite range_length. f_equal. lia.
  - rewrite Hl. unfold fit_hooks, epoch_hooks, pass_hooks. rewrite Hlen.
    reflexivity.
Qed.

(** X14.  With the progress display off and collaborators that do not raise,
    [evaluate] returns the averages of the meters, loss first and the
    metrics in their order, with the train flag off and [model.eval()] the
    first call it made. *)
Lemma evaluate_quiet_returns (ld : Loader Input Target) (steps : option Z) (w : W) :
  never_raises C ->
  verbose (st w) = false ->
  sized steps ld = true ->
  exists w' tr,
    evaluate C ld steps w =
      Ok (meter_avg (deref (heap w') (loss_meter (st w'))),
          map (fun l => meter_avg (deref (heap w') l)) (metric_meters (st w')))
         w' /\
    is_train (st w') = false /\
    trace w' = trace w ++ mkEntry ModelEval None :: tr.
Proof.
  intros Hq Hv Hs.
  destruct (completes_evaluate Hq ld steps w Hv Hs) as (a & w' & E & _).
  pose proof (evaluate_value _ _ _ _ E) as Ha. subst a.
  pose proof (sound_evaluate_body C ld steps w) as S. rewrite E in S.
  simpl in S.
  destruct (reaches_below_fit (sc:=InEvaluate) ltac:(simpl; lia) S)
    as (_ & _ & _ & _ & _ & _ & _ & Ht).
  assert (Htr : exists tr, trace w' = trace w ++ mkEntry ModelEval None :: tr).
  { revert E. unfold evaluate. rewrite bind_modify. intros E.
    apply bind_ok_inv in E. destruct E as ([] & w1 & E1 & E).
    apply invoke_inv in E1. destruct E1 as (_ & _ & _ & T1).
    assert (S2 : sound C InEvaluate w1
              (bind (_run_one_epoch C ld steps) (fun _ =>
               bind (gets loss_meter) (fun lm =>
               bind (read_meter lm) (fun l =>
               bind (gets metric_meters) (fun mms =>
               bind (map_m read_meter mms) (fun ms =>
               ret (meter_avg l, map meter_avg ms)))))) w1)).
    { apply sound_bind; [apply sound_run_one_epoch; simpl; lia|]. intros.
      apply sound_bind; [apply sound_gets|]. intros.
      apply sound_bind; [apply sound_read_meter|]. intros.
      apply sound_bind; [apply sound_gets|]. intros.
      apply sound_bind.
      { apply sound_map_m with (I := fun _ : W => True); auto.
        intros. apply sound_read_meter. }
      intros. apply sound_ret. }
    rewrite E in S2. simpl in S2.
    destruct (reaches_trace S2) as (tr & Htr & _).
    exists tr. rewrite Htr, T1. simpl. now rewrite <- app_assoc. }
  destruct Htr as (tr & Htr).
  exists w', tr. split; [exact E|]. split; [now apply Ht | exact Htr].
Qed.

Lemma quiet_returns (c : @call Scalar Input Target Output Loss Metric) (x : Ext) :
  never_raises C -> exists x', ext_run C c x = (None, x').
Proof.
  intros Hq. specialize (Hq c x).
  destruct (ext_run C c x) as [r x']. simpl in Hq. subst r. eauto.
Qed.

Lemma fit_epoch_verbose tl steps vl vsteps (ep : Z) (w : W) :
  never_raises C ->
  verbose (st w) = true ->
  exists w',
    fit_epoch C tl steps vl vsteps ep w = Err TypeError w' /\
    hook_log (trace w') = hook_log (trace w) ++ [(on_epoch_begin, ep)].
Proof.
  intros Hq Hv. unfold fit_epoch. rewrite !bind_modify.
  set (w1 := with_st (set_epoch ep) (with_st (set_is_train true) w)).
  destruct (quiet_returns (Callback on_epoch_begin (st w1) (heap w1)) (ext w1) Hq)
    as (x1 & E1).
  erewrite bind_callbacks_returns by exact E1.
  match goal with |- context [bind (invoke C ModelTrain) _ ?wa] =>
    set (w2 := wa) end.
  destruct (quiet_returns ModelTrain (ext w2) Hq) as (x2 & E2).
  erewrite bind_invoke_returns by exact E2.
  match goal with |- context [bind (_run_one_epoch C tl steps) _ ?wa] =>
    set (w3 := wa) end.
  destruct (@run_one_epoch_verbose _ _ _ _ _ _ _ _ _ C tl steps w3)
    as (w' & E & Et & _); [exact Hv|].
  erewrite bind_err by exact E.
  exists w'. split; [reflexivity|].
  rewrite Et. subst w3 w2 w1. simpl. rewrite !hook_log_app. simpl.
  now rewrite app_nil_r.
Qed.

(** C7 (where the code departs from it).  In verbose mode, which is the
    default of [Runner], a [fit] that has an epoch to run raises
    [TypeError] in its first epoch: with collaborators that do not raise,
    the callbacks see [on_train_begin] and [on_epoch_begin] for the first
    epoch index and nothing else; no later epoch index is observed and
    [on_train_end] is not emitted. *)
Theorem fit_verbose_stops_in_first_epoch
    (tl : Loader Input Target) (steps : option Z)
    (vl : option (Loader Input Target)) (vsteps : option Z)
    (epochs start : Z) (w : W) :
  never_raises C ->
  verbose (st w) = true ->
  (start < epochs)%Z ->
  exists w',
    fit C tl steps vl vsteps epochs start w = Err TypeError w' /\
    hook_log (trace w') =
      hook_log (trace w) ++
      [(on_train_begin, epoch (st w)); (on_epoch_begin, start)].
Proof.
  intros Hq Hv Hlt. unfold fit. rewrite !bind_modify.
  match goal with |- context [bind (callbacks C on_train_begin) _ ?wa] =>
    set (w0 := wa) end.
  destruct (quiet_returns (Callback on_train_begin (st w0) (heap w0)) (ext w0) Hq)
    as (x0 & E0).
  erewrite bind_callbacks_returns by exact E0.
  rewrite (range_cons Hlt). cbn [for_each]. rewrite bind_assoc.
  match goal with |- context [bind (fit_epoch C tl steps vl vsteps start) _ ?wa] =>
    set (w1 := wa) end.
  destruct (fit_epoch_verbose tl steps vl vsteps start w1 Hq) as (w' & E & Hl);
    [exact Hv|].
  erewrite bind_err by exact E.
  exists w'. split; [reflexivity|].
  rewrite Hl. subst w1 w0. simpl. rewrite hook_log_app. simpl.
  now rewrite <- app_assoc.
Qed.

(** C8 (where the code departs from it).  In verbose mode, which is the
    default of [Runner], [evaluate] never returns a pair: it switches the
    train flag off and the model to evaluation mode, then raises, with
    [TypeError] when [model.eval()] returned. *)
Theorem evaluate_verbose_never_returns
    (ld : Loader Input Target) (steps : option Z) (w : W) :
  verbose (st w) = true ->
  exists e w',
    evaluate C ld steps w = Err e w' /\
    is_train (st w') = false /\
    (forall x', ext_run C ModelEval (ext w) = (None, x') ->
                e = TypeError /\
                trace w' = trace w ++ [mkEntry ModelEval None]).
Proof.
  intros Hv. unfold evaluate. rewrite bind_modify.
  set (w0 := with_st (set_is_train false) w).
  destruct (ext_run C ModelEval (ext w)) as [[u|] x0] eqn:E0.
  - erewrite bind_invoke_raises by exact E0.
    eexists _, _. split; [reflexivity|]. simpl. split; [reflexivity|].
    intros x' Hx. discriminate.
  - erewrite bind_invoke_returns by exact E0.
    match goal with |- context [bind (_run_one_epoch C ld steps) _ ?wa] =>
      set (w1 := wa) end.
    destruct (@run_one_epoch_verbose _ _ _ _ _ _ _ _ _ C ld steps w1)
      as (w' & E & Et & _); [exact Hv|].
    erewrite bind_err by exact E.
    eexists _, _. split; [reflexivity|].
    assert (S : sound C InPass w1 (_run_one_epoch C ld steps w1))
      by (apply sound_run_one_epoch; simpl; lia).
    rewrite E in S. apply sound_world in S. destruct S as (w2 & Hr & Hst & _).
    simpl in Hst. split.
    + rewrite Hst, (reaches_in_pass (sc:=InPass) ltac:(simpl; lia) Hr).
      reflexivity.
    + intros x' _. split; [reflexivity|]. rewrite Et. reflexivity.
Qed.

Lemma epochs_begun_app (a b : list (hook * Z)) :
  epochs_begun (a ++ b) = epochs_begun a ++ epochs_begun b.
Proof. unfold epochs_begun. apply flat_map_app. Qed.

Lemma epochs_begun_pass (ep : Z) (n : nat) : epochs_begun (pass_hooks ep n) = [].
Proof.
  unfold pass_hooks. induction n as [|n IH]; [reflexivity|].
  cbn [repeat concat]. rewrite epochs_begun_app, IH. reflexivity.
Qed.

Lemma epochs_begun_epoch (tl : Loader Input Target) vl (ep : Z) :
  epochs_begun (epoch_hooks tl vl ep) = [ep].
Proof.
  unfold epoch_hooks.
  change (epochs_begun ([(on_epoch_begin, ep)] ++
            pass_hooks ep (length (batches tl)) ++
            match vl with
            | Some v => pass_hooks ep (length (batches v))
            | None => []
            end ++ [(on_epoch_end, ep)]) = [ep]).
  rewrite !epochs_begun_app, epochs_begun_pass.
  destruct vl; [rewrite epochs_begun_pass|]; reflexivity.
Qed.

Lemma epochs_begun_fit_hooks (tl : Loader Input Target) vl (e0 s e : Z) :
  epochs_begun (fit_hooks tl vl e0 s e) = range s e.
Proof.
  unfold fit_hooks.
  change (epochs_begun ([(on_train_begin, e0)] ++
            flat_map (epoch_hooks tl vl) (range s e) ++
            [(on_train_end, List.last (range s e) e0)]) = range s e).
  rewrite !epochs_begun_app. cbn. rewrite app_nil_r.
  induction (range s e) as [|ep l IH]; [reflexivity|].
  cbn [flat_map]. rewrite epochs_begun_app, epochs_begun_epoch, IH.
  reflexivity.
Qed.

(** X13.  With the progress display off and collaborators that do not raise,
    [fit] returns and the epoch indices the callbacks see at
    [on_epoch_begin] are [start_epoch], ..., [epochs - 1] in this order,
    between one [on_train_begin] and one [on_train_end]. *)
Lemma fit_quiet_covers_epochs
    (tl : Loader Input Target) (steps : option Z)
    (vl : option (Loader Input Target)) (vsteps : option Z)
    (epochs start : Z) (w : W) :
  never_raises C ->
  verbose (st w) = false ->
  all_sized steps tl vsteps vl = true ->
  exists w' hs,
    fit C tl steps vl vsteps epochs start w = Ok tt w' /\
    hook_log (trace w') = hook_log (trace w) ++ hs /\
    hs = fit_hooks tl vl (epoch (st w)) start epochs /\
    epochs_begun hs = range start epochs /\
    count_hook on_train_begin hs = 1 /\
    count_hook on_train_end hs = 1.
Proof.
  intros Hq Hv Hs.
  destruct (@fit_quiet _ _ _ _ _ _ _ _ _ C Hq tl steps vl vsteps epochs start w Hv Hs)
    as (w' & E & Hl).
  exists w', (fit_hooks tl vl (epoch (st w)) start epochs).
  split; [exact E|]. split; [exact Hl|]. split; [reflexivity|].
  split; [apply epochs_begun_fit_hooks|].
  assert (Hpass : forall h ep n,
            h = on_train_begin \/ h = on_train_end ->
            filter (fun p : hook * Z => hook_eqb h (fst p)) (pass_hooks ep n) = []).
  { intros h ep n Hh. unfold pass_hooks. induction n as [|n IH]; [reflexivity|].
    cbn [repeat concat]. rewrite filter_app, IH.
    destruct Hh as [-> | ->]; reflexivity. }
  assert (Hep : forall h l,
            h = on_train_begin \/ h = on_train_end ->
            filter (fun p : hook * Z => hook_eqb h (fst p))
                   (flat_map (epoch_hooks tl vl) l) = []).
  { intros h l Hh. induction l as [|ep l IH]; [reflexivity|].
    cbn [flat_map]. rewrite filter_app, IH. unfold epoch_hooks.
    change ((on_epoch_begin, ep) :: pass_hooks ep (length (batches tl)) ++
            match vl with
            | Some v => pass_hooks ep (length (batches v))
            | None => []
            end ++ [(on_epoch_end, ep)])
      with ([(on_epoch_begin, ep)] ++ pass_hooks ep (length (batches tl)) ++
            match vl with
            | Some v => pass_hooks ep (length (batches v))
            | None => []
            end ++ [(on_epoch_end, ep)]).
    rewrite !filter_app, (Hpass h ep _ Hh).
    destruct vl; [rewrite (Hpass h ep _ Hh)|];
      destruct Hh as [-> | ->]; reflexivity. }
  unfold count_hook, fit_hooks.
  change ((on_train_begin, epoch (st w)) ::
          flat_map (epoch_hooks tl vl) (range start epochs) ++
          [(on_train_end, List.last (range start epochs) (epoch (st w)))])
    with ([(on_train_begin, epoch (st w))] ++
          flat_map (epoch_hooks tl vl) (range start epochs) ++
          [(on_train_end, List.last (range start epochs) (epoch (st w)))]).
  rewrite !filter_app, !Hep by auto. split; reflexivity.
Qed.

End WholeRuns.

(** ** The Unet decoder *)

Section UnetFacts.
Context {Tensor UserExn : Type}.
Variable run_module :
  Unet.callee -> list (Unet.value Tensor) -> UserExn + Unet.value Tensor.

Abbreviation Call' := (@Unet.Call Tensor).

Lemma center_block_forward (blk : Unet.Block) (x : Unet.value Tensor)
    (log : list Call') :
  Unet.UnetCenterBlock_forward run_module blk x log =
  match run_module (Unet.BlockSeq blk) [x] with
  | inr _ => (inr Unet.PyNone, log ++ [Unet.mkCall (Unet.BlockSeq blk) [x]])
  | inl u => (inl (Unet.Raised u), log ++ [Unet.mkCall (Unet.BlockSeq blk) [x]])
  end.
Proof.
  unfold Unet.UnetCenterBlock_forward, Unet.bind, Unet.apply.
  destruct (run_module (Unet.BlockSeq blk) [x]); reflexivity.
Qed.

Lemma decoder_init_center (enc dec : list Z) (nc : Z) (d : @Unet.UnetDecoder)
    (log log' : list Call') :
  Unet.Unet_decoder (UserExn:=UserExn) enc dec nc true log = (inr d, log') ->
  exists channels, Unet.center d = Some (Unet.mkBlock "center" channels channels).
Proof.
  unfold Unet.Unet_decoder, Unet.UnetDecoder_init.
  unfold Unet.bind at 1. unfold Unet.bind at 1.
  destruct (Unet.index enc 0 log) as [[e|c] l0] eqn:E0; [discriminate|].
  unfold Unet.ret at 1.
  repeat (unfold Unet.bind at 1;
          match goal with
          | |- context [match ?m ?l with _ => _ end] =>
              destruct (m l) as [[?|?] ?]; [discriminate|]
          end).
  unfold Unet.ret. intros E. inversion E; subst. simpl. eauto.
Qed.

(** Whatever a [forward] does, it only appends to the log. *)
Lemma ret_extends {A} (a : A) (log : list Call') :
  exists rest, snd (Unet.ret (UserExn:=UserExn) a log) = log ++ rest.
Proof. exists []. simpl. now rewrite app_nil_r. Qed.

Lemma index_extends {A} (l : list A) (i : nat) (log : list Call') :
  exists rest, snd (Unet.index (UserExn:=UserExn) l i log) = log ++ rest.
Proof.
  exists []. unfold Unet.index. destruct (l !! i); simpl; now rewrite app_nil_r.
Qed.

Lemma apply_extends (c : Unet.callee) args (log : list Call') :
  exists rest, snd (Unet.apply run_module c args log) = log ++ rest.
Proof.
  exists [Unet.mkCall c args]. unfold Unet.apply.
  destruct (run_module c args); reflexivity.
Qed.

Lemma bind_extends {A B} (m : Unet.M A) (k : A -> Unet.M B) :
  (forall log : list Call', exists rest, snd (m log) = log ++ rest) ->
  (forall a (log : list Call'), exists rest, snd (k a log) = log ++ rest) ->
  forall log : list Call',
    exists rest, snd (Unet.bind (UserExn:=UserExn) m k log) = log ++ rest.
Proof.
  intros Hm Hk log. unfold Unet.bind.
  destruct (Hm log) as (r1 & E1).
  destruct (m log) as [[e|a] log1]; simpl in E1; subst log1.
  - exists r1. reflexivity.
  - destruct (Hk a (log ++ r1)) as (r2 & E2).
    exists (r1 ++ r2). rewrite E2. now rewrite <- app_assoc.
Qed.

(** C10.  [UnetCenterBlock.forward] never returns a tensor: it applies the
    wrapped block, drops the result and returns [None] (when the block
    itself raises, so does the call).  In a [Unet] built with
    [center=True], once the center block has been applied to the encoder
    head, the first decoder layer is called with [None] in the place of
    the head. *)
Theorem center_block_returns_none (blk : Unet.Block) (x : Unet.value Tensor)
    (log : list Call') :
  (forall v log',
     Unet.UnetCenterBlock_forward run_module blk x log = (inr v, log') ->
     v = Unet.PyNone) /\
  (forall r,
     run_module (Unet.BlockSeq blk) [x] = inr r ->
     Unet.UnetCenterBlock_forward run_module blk x log =
     (inr Unet.PyNone, log ++ [Unet.mkCall (Unet.BlockSeq blk) [x]])) /\
  (forall (enc dec : list Z) (nc : Z) (d : @Unet.UnetDecoder)
          (log0 log1 : list Call') (s0 : Unet.value Tensor)
          (skips : list (Unet.value Tensor)),
     Unet.Unet_decoder (UserExn:=UserExn) enc dec nc true log0 = (inr d, log1) ->
     exists c,
       Unet.center d = Some c /\
       forall r,
         run_module (Unet.BlockSeq c) [x] = inr r ->
         exists res rest,
           Unet.UnetDecoder_forward run_module d (x :: s0 :: skips) log =
           (res,
            log ++ Unet.mkCall (Unet.BlockSeq c) [x]
                :: Unet.mkCall (Unet.BlockForward (Unet.layer1 d))
                               [Unet.PyNone; s0]
                :: rest)).
Proof.
  split; [|split].
  - intros v log'. rewrite center_block_forward.
    destruct (run_module (Unet.BlockSeq blk) [x]); intros E; inversion E.
    reflexivity.
  - intros r Hr. rewrite center_block_forward, Hr. reflexivity.
  - intros enc dec nc d log0 log1 s0 skips Hinit.
    apply decoder_init_center in Hinit. destruct Hinit as (ch & Hc).
    eexists. split; [exact Hc|]. intros r Hr.
    unfold Unet.UnetDecoder_forward. rewrite Hc.
    unfold Unet.bind at 1. cbn [Unet.index lookup list_lookup Unet.ret].
    unfold Unet.bind at 1. rewrite center_block_forward, Hr.
    unfold Unet.bind at 1. cbn [drop Unet.index lookup list_lookup Unet.ret].
    unfold Unet.bind at 1. unfold Unet.apply at 1.
    destruct (run_module (Unet.BlockForward (Unet.layer1 d)) [Unet.PyNone; s0])
      as [u|v1].
    + eexists _, []. rewrite <- app_assoc. reflexivity.
    + match goal with |- exists res rest, ?m ?l = _ =>
        assert (Hext : exists rest', snd (m l) = l ++ rest')
      end.
      { repeat (apply bind_extends;
                [ intros; first [apply index_extends | apply apply_extends]
                | intros ]).
        apply ret_extends. }
      destruct Hext as (rest & Hrest).
      match goal with |- exists res rest, ?m ?l = _ =>
        exists (fst (m l)), rest
      end.
      rewrite (surjective_pairing (_ _)) at 1. rewrite Hrest.
      now rewrite <- !app_assoc.
Qed.

End UnetFacts.

(** ** One step, call by call *)

Section StepFacts.
Context {Scalar Input Target Output Loss Metric UserExn Ext : Type}.
Context `{ScalarOps Scalar}.

Variable C : @Collab Scalar Input Target Output Loss Metric UserExn Ext.

Abbreviation W := (@World Scalar Input Target Output Loss Metric UserExn Ext).
Abbreviation Res := (@Result Scalar Input Target Output Loss Metric UserExn Ext).
Abbreviation Mon := (@M Scalar Input Target Output Loss Metric UserExn Ext).
Abbreviation State' := (RunnerState Input Target Output Metric).
Abbreviation call' := (@call Scalar Input Target Output Loss Metric).
Abbreviation Entry' := (@Entry Scalar Input Target Output Loss Metric UserExn).

Lemma map_fst_combine {A B} (l : list A) (l' : list B) :
  map fst (combine l l') = firstn (length l') l.
Proof.
  revert l'. induction l as [|a l IH]; intros [|b l']; simpl;
    try reflexivity.
  now rewrite IH.
Qed.

Lemma map_snd_combine {A B} (l : list A) (l' : list B) :
  map snd (combine l l') = firstn (length l) l'.
Proof.
  revert l'. induction l as [|a l IH]; intros [|b l']; simpl;
    try reflexivity.
  now rewrite IH.
Qed.

Lemma observations_alter (hp : list (Meter Scalar)) (f : Meter Scalar -> Meter Scalar)
    (l x : loc) :
  x < length hp ->
  observations (alter f l hp) x =
  if Nat.eq_dec l x then m_count (f (deref hp x)) else observations hp x.
Proof.
  intros Hx. unfold observations, deref.
  destruct (lookup_lt_is_Some_2 hp x Hx) as (m & Hm).
  destruct (Nat.eq_dec l x) as [->|Hne].
  - rewrite list_lookup_alter, decide_True by reflexivity.
    change (@lookup loc) with (@lookup nat). rewrite Hm. reflexivity.
  - now rewrite list_lookup_alter_ne.
Qed.

Lemma observations_update (hp : list (Meter Scalar)) (v : Scalar) (l x : loc) :
  x < length hp ->
  observations (alter (meter_update v) l hp) x =
  observations hp x + (if Nat.eq_dec l x then 1 else 0).
Proof.
  intros Hx. rewrite observations_alter by exact Hx.
  destruct (Nat.eq_dec l x); [|lia].
  unfold observations. simpl. lia.
Qed.

Lemma bind_gets {A B} (f : State' -> A) (k : A -> Mon B) (w : W) :
  bind (gets f) k w = k (f (st w)) w.
Proof. reflexivity. Qed.

Lemma bind_meter_update {B} (l : loc) v (k : unit -> Mon B) (w : W) :
  bind (meter_update_at l v) k w = k tt (with_heap (alter (meter_update v) l) w).
Proof. reflexivity. Qed.




Hypothesis Hq : never_raises C.

Lemma invoke_quiet (c : call') (w : W) :
  invoke C c w =
  Ok tt (mkWorld (st w) (heap w) (ext_after C c (ext w)) (grad_enabled w)
                 (trace w ++ [returned c])).
Proof.
  unfold invoke, ext_after, returned. specialize (Hq c (ext w)).
  destruct (ext_run C c (ext w)) as [r x']. simpl in *. subst r. reflexivity.
Qed.

Lemma bind_invoke_quiet {B} (c : call') (k : unit -> Mon B) (w : W) :
  bind (invoke C c) k w =
  k tt (mkWorld (st w) (heap w) (ext_after C c (ext w)) (grad_enabled w)
                (trace w ++ [returned c])).
Proof. unfold bind. now rewrite invoke_quiet. Qed.

Lemma bind_callbacks_quiet {B} (h : hook) (k : unit -> Mon B) (w : W) :
  bind (callbacks C h) k w =
  k tt (mkWorld (st w) (heap w)
                (ext_after C (Callback h (st w) (heap w)) (ext w))
                (grad_enabled w)
                (trace w ++ [returned (Callback h (st w) (heap w))])).
Proof. unfold callbacks. apply bind_invoke_quiet. Qed.

Lemma bind_model_call_quiet {B} (x : Input) (k : Output -> Mon B) (w : W) :
  bind (model_call C x) k w =
  k (model_out C x (ext w))
    (mkWorld (st w) (heap w) (ext_after C (ModelCall x) (ext w))
             (grad_enabled w) (trace w ++ [returned (ModelCall x)])).
Proof. unfold model_call, bind. now rewrite invoke_quiet. Qed.

Lemma bind_criterion_call_quiet {B} o t (k : Loss -> Mon B) (w : W) :
  bind (criterion_call C o t) k w =
  k (criterion_out C o t (ext w))
    (mkWorld (st w) (heap w) (ext_after C (Criterion o t) (ext w))
             (grad_enabled w) (trace w ++ [returned (Criterion o t)])).
Proof. unfold criterion_call, bind. now rewrite invoke_quiet. Qed.

Lemma bind_metric_call_quiet {B} m o t (k : Scalar -> Mon B) (w : W) :
  bind (metric_call C m o t) k w =
  k (metric_out C m o t (ext w))
    (mkWorld (st w) (heap w) (ext_after C (MetricCall m o t) (ext w))
             (grad_enabled w) (trace w ++ [returned (MetricCall m o t)])).
Proof. unfold metric_call, bind. now rewrite invoke_quiet. Qed.

(** The loop over the zipped metrics and meters. *)
Lemma metric_loop_spec (out : Output) (target : Target) (l : list (Metric * loc)) :
  forall w : W, exists w',
    for_each l (fun '(metric, meter) =>
      bind (metric_call C metric out target) (fun v =>
      meter_update_at meter v)) w = Ok tt w' /\
    trace w' = trace w ++
               map (fun m => returned (MetricCall m out target)) (map fst l) /\
    st w' = st w /\ grad_enabled w' = grad_enabled w /\
    length (heap w') = length (heap w) /\
    forall x, x < length (heap w) ->
      observations (heap w') x =
      observations (heap w) x + count_occ Nat.eq_dec (map snd l) x.
Proof.
  induction l as [|[m l0] l IH]; intros w.
  - exists w. simpl. rewrite app_nil_r. repeat split; auto.
  - cbn [for_each]. rewrite bind_assoc, bind_metric_call_quiet.
    rewrite bind_meter_update.
    match goal with |- context [for_each l _ ?wa] =>
      destruct (IH wa) as (w' & E & Ht & Hs & Hg & Hl & Hc) end.
    exists w'. split; [exact E|]. simpl in *.
    rewrite length_alter in Hl, Hc.
    split; [rewrite Ht, <- app_assoc; reflexivity|].
    split; [exact Hs|]. split; [exact Hg|]. split; [exact Hl|].
    intros x Hx. rewrite (Hc x Hx), observations_update by exact Hx.
    destruct (Nat.eq_dec l0 x); lia.
Qed.

Lemma make_step_spec (batch : Input * Target) (w : W) :
  exists w',
    _make_step C batch w = Ok tt w' /\
    trace w' = trace w ++ map returned (step_calls C (st w) (ext w) batch) /\
    st w' = set_output (Some (model_out C (fst batch) (ext w)))
              (set_input (Some batch) (st w)) /\
    grad_enabled w' = grad_enabled w /\
    length (heap w') = length (heap w) /\
    forall x, x < length (heap w) ->
      observations (heap w') x =
      observations (heap w) x + count_occ Nat.eq_dec (fed_meters (st w)) x.
Proof.
  destruct batch as [images target]. unfold _make_step, step_calls.
  rewrite bind_modify, bind_model_call_quiet, bind_modify.
  rewrite bind_criterion_call_quiet, bind_gets.
  cbn [st with_st ext is_train set_output set_input fst].
  set (out := model_out C images (ext w)).
  set (loss := criterion_out C out target (ext_after C (ModelCall images) (ext w))).
  assert (Hfin : forall wa : W,
            st wa = set_output (Some out) (set_input (Some (images, target)) (st w)) ->
            grad_enabled wa = grad_enabled w ->
            heap wa = heap w ->
            exists w',
              bind (gets loss_meter) (fun lm =>
              bind (meter_update_at lm (to_numpy C loss)) (fun _ =>
              bind (gets metrics) (fun ms =>
              bind (gets metric_meters) (fun mms =>
              for_each (combine ms mms) (fun '(metric, meter) =>
                bind (metric_call C metric out target) (fun v =>
                meter_update_at meter v)))))) wa = Ok tt w' /\
              trace w' = trace wa ++
                map returned (map (fun m => MetricCall m out target)
                                  (paired_metrics (st w))) /\
              st w' = st wa /\ grad_enabled w' = grad_enabled w /\
              length (heap w') = length (heap w) /\
              forall x, x < length (heap w) ->
                observations (heap w') x =
                observations (heap w) x +
                count_occ Nat.eq_dec (fed_meters (st w)) x).
  { intros wa Hs Hg Hh.
    rewrite bind_gets, bind_meter_update, !bind_gets.
    match goal with |- context [for_each ?l _ ?wb] =>
      destruct (metric_loop_spec out target l wb)
        as (w' & E & Ht & Hs' & Hg' & Hl & Hc)
    end.
    exists w'. split; [exact E|]. simpl in *.
    rewrite length_alter in Hl, Hc.
    rewrite map_fst_combine in Ht. rewrite map_snd_combine in Hc.
    rewrite Hs in Ht, Hc. simpl in Ht, Hc. rewrite Hh in Hl, Hc.
    split.
    { rewrite Ht. unfold paired_metrics. now rewrite map_map. }
    split; [exact Hs'|]. split; [congruence|]. split; [exact Hl|].
    intros x Hx. rewrite (Hc x Hx), observations_update by exact Hx.
    unfold fed_meters, paired_meters. simpl.
    destruct (Nat.eq_dec (loss_meter (st w)) x); lia. }
  destruct (is_train (st w)) eqn:Et.
  - repeat ((rewrite bind_assoc || rewrite bind_invoke_quiet);
            cbn [st heap ext grad_enabled trace]).
    match goal with |- context [bind (gets loss_meter) _ ?wa] =>
      destruct (Hfin wa) as (w' & E & Ht & Hs & Hg & Hl & Hc);
        [reflexivity..|]
    end.
    exists w'. split; [exact E|].
    split; [rewrite Ht; simpl; rewrite <- !app_assoc; reflexivity|].
    split; [rewrite Hs; reflexivity|]. auto.
  - rewrite bind_ok with (a := tt) (w1 := _) by reflexivity.
    match goal with |- context [bind (gets loss_meter) _ ?wa] =>
      destruct (Hfin wa) as (w' & E & Ht & Hs & Hg & Hl & Hc);
        [reflexivity..|]
    end.
    exists w'. split; [exact E|].
    split; [rewrite Ht; simpl; rewrite <- !app_assoc; reflexivity|].
    split; [rewrite Hs; reflexivity|]. auto.
Qed.

Lemma callbacks_quiet (h : hook) (w : W) :
  callbacks C h w =
  Ok tt (mkWorld (st w) (heap w)
                 (ext_after C (Callback h (st w) (heap w)) (ext w))
                 (grad_enabled w)
                 (trace w ++ [returned (Callback h (st w) (heap w))])).
Proof. unfold callbacks. apply invoke_quiet. Qed.

(** One turn of the loop over the batches, with the progress display off. *)
Lemma batch_body_spec (p : pbar_kind) (i : nat) (batch : Input * Target) (w : W) :
  verbose (st w) = false ->
  exists w',
    batch_body C p (i, batch) w = Ok tt w' /\
    trace w' = trace w ++
      returned (Callback on_batch_begin (set_step (Some i) (st w)) (heap w)) ::
      map returned
        (step_calls C (st w)
           (ext_after C (Callback on_batch_begin (set_step (Some i) (st w)) (heap w))
                      (ext w)) batch) ++
      [returned (Callback on_batch_end (st w') (heap w'))] /\
    st w' = set_output
              (Some (model_out C (fst batch)
                       (ext_after C (Callback on_batch_begin
                                       (set_step (Some i) (st w)) (heap w))
                                  (ext w))))
              (set_input (Some batch) (set_step (Some i) (st w))) /\
    grad_enabled w' = grad_enabled w /\
    length (heap w') = length (heap w) /\
    forall x, x < length (heap w) ->
      observations (heap w') x =
      observations (heap w) x + count_occ Nat.eq_dec (fed_meters (st w)) x.
Proof.
  intros Hv. unfold batch_body.
  rewrite bind_modify, bind_callbacks_quiet.
  cbn [st heap ext grad_enabled trace with_st].
  match goal with |- context [bind (_make_step C batch) _ ?wa] =>
    destruct (make_step_spec batch wa) as (w1 & E & Ht & Hs & Hg & Hl & Hc)
  end.
  cbn [st heap ext grad_enabled trace] in *.
  erewrite bind_ok by exact E. rewrite bind_gets.
  assert (Hv1 : verbose (st w1) = false) by (rewrite Hs; exact Hv).
  rewrite Hv1. rewrite bind_ok with (a := tt) (w1 := w1) by reflexivity.
  rewrite callbacks_quiet.
  eexists. split; [reflexivity|].
  cbn [st heap ext grad_enabled trace].
  split.
  { rewrite Ht, <- !app_assoc. reflexivity. }
  split; [exact Hs|]. split; [exact Hg|]. split; [exact Hl|]. exact Hc.
Qed.

Lemma call_log_app (a b : list Entry') :
  call_log (a ++ b) = call_log a ++ call_log b.
Proof. unfold call_log. apply map_app. Qed.

Lemma seen_app {A} (f : State' -> A) (h : hook) (a b : list Entry') :
  seen f h (a ++ b) = seen f h a ++ seen f h b.
Proof. unfold seen. apply flat_map_app. Qed.

Lemma call_log_cons (a : Entry') (t : list Entry') :
  call_log (a :: t) = kind_of (e_call a) :: call_log t.
Proof. reflexivity. Qed.

Lemma seen_cons {A} (f : State' -> A) (h : hook) (a : Entry') (t : list Entry') :
  seen f h (a :: t) = seen f h [a] ++ seen f h t.
Proof. unfold seen. cbn [flat_map]. now rewrite app_nil_r. Qed.

Lemma call_log_step (s : State') (x : Ext) (batch : Input * Target) :
  call_log (map returned (step_calls C s x batch) : list Entry') =
  step_kinds (is_train s) (paired_metrics s).
Proof.
  destruct batch as [images target]. unfold call_log, step_calls, step_kinds.
  rewrite map_map. cbn [map app e_call returned kind_of]. f_equal. f_equal.
  rewrite map_app. f_equal.
  - destruct (is_train s); reflexivity.
  - rewrite map_map. reflexivity.
Qed.

Lemma seen_step {A} (f : State' -> A) (h : hook) (s : State') (x : Ext)
    (batch : Input * Target) :
  seen f h (map returned (step_calls C s x batch) : list Entry') = [].
Proof.
  destruct batch as [images target]. unfold seen, step_calls.
  cbn [map flat_map e_call returned app]. rewrite map_app, flat_map_app.
  assert (E1 : forall l : list Metric,
            flat_map (fun en : Entry' =>
                        match e_call en with
                        | Callback h' s0 _ => if hook_eqb h h' then [f s0] else []
                        | _ => []
                        end)
              (map returned
                 (map (fun m => MetricCall m (model_out C images x) target) l)) = []).
  { induction l as [|m l IH]; [reflexivity|]. exact IH. }
  rewrite E1, app_nil_r. destruct (is_train s); reflexivity.
Qed.

(** The loop over the batches, with the progress display off. *)
Lemma batches_spec (p : pbar_kind) (l : list (Input * Target)) :
  forall (k : nat) (w : W),
    verbose (st w) = false ->
    exists w' tr,
      for_each (combine (seq k (length l)) l) (batch_body C p) w = Ok tt w' /\
      trace w' = trace w ++ tr /\
      call_log tr =
        pass_kinds (is_train (st w)) (paired_metrics (st w)) (length l) /\
      seen (fun s => (step s, ep_size s)) on_batch_begin tr =
        map (fun i => (Some i, ep_size (st w))) (seq k (length l)) /\
      seen (fun s => (step s, ep_size s)) on_batch_end tr =
        map (fun i => (Some i, ep_size (st w))) (seq k (length l)) /\
      grad_enabled w' = grad_enabled w /\
      length (heap w') = length (heap w) /\
      forall x, x < length (heap w) ->
        observations (heap w') x =
        observations (heap w) x +
        length l * count_occ Nat.eq_dec (fed_meters (st w)) x.
Proof.
  induction l as [|b l IH]; intros k w Hv.
  - exists w, []. simpl. rewrite app_nil_r. repeat split; auto.
  - cbn [length seq combine for_each].
    destruct (batch_body_spec p k b w Hv) as (w1 & E1 & T1 & S1 & G1 & L1 & C1).
    assert (Hv1 : verbose (st w1) = false) by (rewrite S1; exact Hv).
    destruct (IH (S k) w1 Hv1) as (w2 & tr2 & E2 & T2 & K2 & B2 & N2 & G2 & L2 & C2).
    erewrite bind_ok by exact E1.
    eexists w2, _. split; [exact E2|].
    split; [rewrite T2, T1, <- app_assoc; reflexivity|].
    assert (Ht : is_train (st w1) = is_train (st w)) by (rewrite S1; reflexivity).
    assert (Hp : paired_metrics (st w1) = paired_metrics (st w))
      by (rewrite S1; reflexivity).
    assert (He : ep_size (st w1) = ep_size (st w)) by (rewrite S1; reflexivity).
    assert (Hf : fed_meters (st w1) = fed_meters (st w))
      by (rewrite S1; reflexivity).
    rewrite Ht, Hp in K2. rewrite He in B2, N2. rewrite Hf, L1 in C2.
    split.
    { rewrite call_log_app, call_log_cons, call_log_app, call_log_step, K2.
      unfold pass_kinds. cbn [repeat concat].
      cbn [call_log map e_call returned kind_of app].
      rewrite <- !app_assoc. reflexivity. }
    split.
    { rewrite seen_app, seen_cons, seen_app, seen_step, B2.
      cbn [seen flat_map e_call returned hook_eqb app map].
      f_equal. }
    split.
    { rewrite seen_app, seen_cons, seen_app, seen_step, N2.
      cbn [seen flat_map e_call returned hook_eqb app map].
      rewrite S1. reflexivity. }
    split; [congruence|]. split; [congruence|].
    intros x Hx. rewrite C2 by lia. rewrite C1 by exact Hx. lia.
Qed.

Lemma deref_alter_reset (hp : list (Meter Scalar)) (l x : loc) :
  deref (alter meter_reset l hp) x =
  if Nat.eq_dec l x then meter_reset (deref hp x) else deref hp x.
Proof.
  unfold deref. destruct (Nat.eq_dec l x) as [->|Hne].
  - rewrite list_lookup_alter, decide_True by reflexivity.
    change (@lookup loc) with (@lookup nat).
    destruct (@lookup nat _ _ _ x hp); reflexivity.
  - now rewrite list_lookup_alter_ne.
Qed.

Lemma resets_spec (l : list loc) :
  forall wa : W,
    exists wb,
      for_each l meter_reset_at wa = Ok tt wb /\
      st wb = st wa /\ ext wb = ext wa /\
      grad_enabled wb = grad_enabled wa /\ trace wb = trace wa /\
      length (heap wb) = length (heap wa) /\
      (forall x, In x l -> deref (heap wb) x = meter_reset (deref (heap wa) x)) /\
      (forall x, ~ In x l -> deref (heap wb) x = deref (heap wa) x).
Proof.
  induction l as [|a l IH]; intros wa.
  - exists wa. simpl. repeat split; auto. intros x [].
  - destruct (IH (with_heap (alter meter_reset a) wa))
      as (wb & E & Es & Ex & Eg & Et & El & Hin & Hout).
    exists wb. split; [exact E|]. simpl in *.
    rewrite length_alter in El.
    repeat split; try assumption.
    + intros x Hx. destruct (in_dec Nat.eq_dec x l) as [Hl|Hl].
      * rewrite (Hin x Hl), deref_alter_reset.
        destruct (Nat.eq_dec a x); reflexivity.
      * destruct Hx as [->|Hx]; [|contradiction].
        rewrite (Hout x Hl), deref_alter_reset.
        destruct (Nat.eq_dec x x); [reflexivity | congruence].
    + intros x Hx. rewrite Hout by tauto. rewrite deref_alter_reset.
      destruct (Nat.eq_dec a x); [tauto | reflexivity].
Qed.

(** Lines 71-74: the meters and the timer are reset, nothing is called. *)
Lemma run_one_epoch_prefix ld steps (w : W) :
  exists w2,
    _run_one_epoch C ld steps w = epoch_tail C ld steps w2 /\
    st w2 = set_timer (S (timer (st w))) (st w) /\
    ext w2 = ext w /\ grad_enabled w2 = grad_enabled w /\
    trace w2 = trace w /\
    length (heap w2) = length (heap w) /\
    (forall x, In x (live_meters (st w)) ->
       deref (heap w2) x = meter_reset (deref (heap w) x)) /\
    (forall x, ~ In x (live_meters (st w)) ->
       deref (heap w2) x = deref (heap w) x).
Proof.
  set (w1 := with_st (fun s => set_timer (S (timer s)) s)
               (with_heap (alter meter_reset (loss_meter (st w))) w)).
  destruct (resets_spec (metric_meters (st w)) w1)
    as (w2 & E & Es & Ex & Eg & Et & El & Hin & Hout).
  exists w2. split.
  { unfold _run_one_epoch, epoch_tail.
    rewrite bind_gets. unfold bind at 1. cbn [meter_reset_at].
    rewrite bind_modify, bind_gets. fold w1.
    change (metric_meters (st w1)) with (metric_meters (st w)).
    erewrite bind_ok by exact E. reflexivity. }
  subst w1. simpl in *. rewrite length_alter in El.
  repeat split; try assumption.
  - intros x [<-|Hx].
    + destruct (in_dec Nat.eq_dec (loss_meter (st w)) (metric_meters (st w)))
        as [Hl|Hl].
      * rewrite (Hin _ Hl), deref_alter_reset.
        destruct (Nat.eq_dec _ _); reflexivity.
      * rewrite (Hout _ Hl), deref_alter_reset.
        destruct (Nat.eq_dec _ _); [reflexivity | congruence].
    + rewrite (Hin _ Hx), deref_alter_reset.
      destruct (Nat.eq_dec _ _); reflexivity.
  - intros x Hx. rewrite Hout by tauto. rewrite deref_alter_reset.
    destruct (Nat.eq_dec _ _); [tauto | reflexivity].
Qed.

Lemma epoch_tail_quiet ld steps (w : W) n :
  verbose (st w) = false ->
  effective_size steps ld = Some n ->
  epoch_tail C ld steps w =
  scoped_grad (is_train (st w))
    (for_each (enumerate (batches ld)) (batch_body C PbarEnumerate))
    (with_st (set_ep_size (Some n)) w).
Proof.
  intros Hv Hn. unfold epoch_tail. unfold bind at 1.
  rewrite steps_or_len_value, Hn. rewrite bind_modify.
  erewrite bind_ok by (apply make_pbar_quiet; exact Hv).
  rewrite bind_gets. reflexivity.
Qed.

(** A whole pass, with the progress display off and a size to record. *)
Lemma pass_spec ld steps (w : W) n :
  verbose (st w) = false ->
  effective_size steps ld = Some n ->
  exists w' tr,
    _run_one_epoch C ld steps w = Ok tt w' /\
    trace w' = trace w ++ tr /\
    call_log tr =
      pass_kinds (is_train (st w)) (paired_metrics (st w))
                 (length (batches ld)) /\
    seen (fun s => (step s, ep_size s)) on_batch_begin tr =
      map (fun i => (Some i, Some n)) (seq 0 (length (batches ld))) /\
    seen (fun s => (step s, ep_size s)) on_batch_end tr =
      map (fun i => (Some i, Some n)) (seq 0 (length (batches ld))) /\
    grad_enabled w' = grad_enabled w /\
    length (heap w') = length (heap w) /\
    (forall x, x < length (heap w) -> In x (live_meters (st w)) ->
       observations (heap w') x =
       length (batches ld) * count_occ Nat.eq_dec (fed_meters (st w)) x).
Proof.
  intros Hv Hn.
  destruct (run_one_epoch_prefix ld steps w)
    as (w2 & -> & Es & Ex & Eg & Et & El & Hin & Hout).
  rewrite (@epoch_tail_quiet ld steps w2 n) by (rewrite ?Es; assumption).
  unfold scoped_grad, enumerate.
  match goal with |- context [for_each _ _ ?wa] =>
    destruct (batches_spec PbarEnumerate (batches ld) 0 wa)
      as (w3 & tr & E3 & T3 & K3 & B3 & N3 & G3 & L3 & C3)
  end.
  { simpl. rewrite Es. exact Hv. }
  cbv zeta. rewrite E3. eexists _, tr. split; [reflexivity|].
  simpl in *. rewrite Es in *. simpl in *.
  split; [rewrite T3, Et; reflexivity|].
  split; [exact K3|]. split; [exact B3|]. split; [exact N3|].
  split; [exact Eg|]. split; [congruence|].
  intros x Hx Hlive. rewrite C3 by lia.
  unfold observations at 1. rewrite (Hin x Hlive). simpl.
  reflexivity.
Qed.

Lemma map_m_copy_total (l : list loc) :
  forall w : W,
    exists ls w',
      map_m copy l w = Ok ls w' /\
      st w' = st w /\ trace w' = trace w /\ ext w' = ext w /\
      grad_enabled w' = grad_enabled w.
Proof.
  induction l as [|x l IH]; intros w.
  - exists [], w. simpl. auto.
  - cbn [map_m]. unfold bind at 1. unfold copy at 1.
    match goal with |- context [bind (map_m copy l) _ ?wa] =>
      destruct (IH wa) as (ls & w' & E & Hs & Ht & Hx & Hg) end.
    erewrite bind_ok by exact E. eexists _, _. split; [reflexivity|].
    simpl in *. auto.
Qed.

Lemma snapshot_train_total (w : W) :
  exists w', snapshot_train w = Ok tt w' /\ trace w' = trace w.
Proof.
  unfold snapshot_train. rewrite bind_gets. unfold bind at 1. unfold copy at 1.
  rewrite bind_modify, bind_gets.
  match goal with |- context [bind (map_m copy ?l) _ ?wa] =>
    destruct (map_m_copy_total l wa) as (ls & w' & E & Hs & Ht & Hx & Hg) end.
  erewrite bind_ok by exact E. eexists. split; [reflexivity|].
  simpl. exact Ht.
Qed.

Lemma snapshot_val_total (w : W) :
  exists w', snapshot_val w = Ok tt w' /\ trace w' = trace w.
Proof.
  unfold snapshot_val. rewrite bind_gets. unfold bind at 1. unfold copy at 1.
  rewrite bind_modify, bind_gets.
  match goal with |- context [bind (map_m copy ?l) _ ?wa] =>
    destruct (map_m_copy_total l wa) as (ls & w' & E & Hs & Ht & Hx & Hg) end.
  erewrite bind_ok by exact E. eexists. split; [reflexivity|].
  simpl. exact Ht.
Qed.

Lemma sized_effective steps (ld : Loader Input Target) :
  sized steps ld = true -> exists n, effective_size steps ld = Some n.
Proof.
  unfold sized, effective_size.
  destruct steps as [s|]; [destruct (s =? 0)%Z|]; eauto;
    intros Hs; apply bool_decide_eq_true in Hs; destruct Hs as [n ->];
    simpl; eauto.
Qed.

(** [evaluate] is [model.eval()], one pass, and a reading of the meters. *)
Lemma evaluate_unfold ld steps (w : W) :
  evaluate C ld steps w =
  match _run_one_epoch C ld steps
          (mkWorld (set_is_train false (st w)) (heap w)
                   (ext_after C ModelEval (ext w)) (grad_enabled w)
                   (trace w ++ [returned ModelEval])) with
  | Ok _ w2 =>
      Ok (meter_avg (deref (heap w2) (loss_meter (st w2))),
          map meter_avg (map (deref (heap w2)) (metric_meters (st w2)))) w2
  | Err e w2 => Err e w2
  end.
Proof.
  unfold evaluate. rewrite bind_modify, bind_invoke_quiet.
  cbn [st heap ext grad_enabled trace with_st].
  unfold bind at 1.
  destruct (_run_one_epoch C ld steps _) as [[] w2|e w2]; [|reflexivity].
  rewrite bind_gets. unfold bind at 1. unfold read_meter at 1.
  rewrite bind_gets. unfold bind at 1. rewrite map_m_read_meter. reflexivity.
Qed.

(** [evaluate], with the progress display off and a size to record. *)
Lemma evaluate_spec ld steps (w : W) n :
  verbose (st w) = false ->
  effective_size steps ld = Some n ->
  exists a w' tr,
    evaluate C ld steps w = Ok a w' /\
    trace w' = trace w ++ returned ModelEval :: tr /\
    call_log tr = pass_kinds false (paired_metrics (st w)) (length (batches ld)).
Proof.
  intros Hv Hn. rewrite evaluate_unfold.
  match goal with |- context [_run_one_epoch C ld steps ?wa] =>
    destruct (@pass_spec ld steps wa n Hv Hn)
      as (w' & tr & E & T & K & _)
  end.
  rewrite E. eexists _, w', tr. split; [reflexivity|].
  simpl in *. split; [rewrite T, <- app_assoc; reflexivity | exact K].
Qed.

(** One epoch of [fit], with the progress display off and sizes to
    record. *)
Lemma fit_epoch_spec tl steps vl vsteps ep (w : W) :
  verbose (st w) = false ->
  all_sized steps tl vsteps vl = true ->
  exists w' tr,
    fit_epoch C tl steps vl vsteps ep w = Ok tt w' /\
    trace w' = trace w ++
               tr ++ [returned (Callback on_epoch_end (st w') (heap w'))] /\
    call_log (tr ++ [returned (Callback on_epoch_end (st w') (heap w'))]) =
      epoch_kinds (paired_metrics (st w)) tl vl.
Proof.
  intros Hv Hs. apply andb_true_iff in Hs. destruct Hs as [Hs Hvs].
  destruct (sized_effective _ _ Hs) as (n & Hn).
  unfold fit_epoch. rewrite !bind_modify, bind_callbacks_quiet, bind_invoke_quiet.
  cbn [st heap ext grad_enabled trace with_st].
  match goal with |- context [bind (_run_one_epoch C tl steps) _ ?wa] =>
    destruct (@pass_spec tl steps wa n Hv Hn) as (w3 & tr3 & E3 & T3 & K3 & _);
    pose proof (run_one_epoch_frame C _ _ _ E3) as R3
  end.
  erewrite bind_ok by exact E3.
  destruct (snapshot_train_total w3) as (w4 & E4 & T4).
  pose proof (snapshot_train_frame C _ E4) as R4.
  erewrite bind_ok by exact E4.
  assert (R34 : reaches C InEpoch
                  (mkWorld (set_epoch ep (set_is_train true (st w))) (heap w)
                     (ext_after C ModelTrain
                        (ext_after C
                           (Callback on_epoch_begin
                              (set_epoch ep (set_is_train true (st w))) (heap w))
                           (ext w)))
                     (grad_enabled w)
                     ((trace w ++
                       [returned (Callback on_epoch_begin
                                    (set_epoch ep (set_is_train true (st w)))
                                    (heap w))]) ++ [returned ModelTrain]))
                  w4).
  { eapply reaches_trans; [|exact R4].
    eapply reaches_mono; [|exact R3]. simpl; lia. }
  destruct (reaches_static R34) as (_ & Em4 & Ems4 & Ev4).
  simpl in Em4, Ems4, Ev4, K3, T3.
  assert (Hp4 : paired_metrics (st w4) = paired_metrics (st w)).
  { unfold paired_metrics. rewrite Em4, Ems4. reflexivity. }
  destruct vl as [v|].
  - destruct (sized_effective _ _ Hvs) as (nv & Hnv).
    destruct (@evaluate_spec v vsteps w4 nv) as (a5 & w5 & tr5 & E5 & T5 & K5);
      [congruence | exact Hnv |].
    rewrite bind_assoc. erewrite bind_ok by exact E5.
    destruct (snapshot_val_total w5) as (w6 & E6 & T6).
    erewrite bind_ok by exact E6.
    rewrite callbacks_quiet.
    eexists _, (returned (Callback on_epoch_begin
                            (set_epoch ep (set_is_train true (st w))) (heap w))
                :: returned ModelTrain :: tr3 ++ returned ModelEval :: tr5).
    split; [reflexivity|].
    cbn [st heap trace]. split.
    + rewrite T6, T5, T4, T3. cbn [app]. rewrite <- !app_assoc. reflexivity.
    + rewrite call_log_app, !call_log_cons, call_log_app, call_log_cons.
      rewrite K3, K5, Hp4. unfold epoch_kinds.
      cbn [e_call returned kind_of call_log map is_train set_epoch set_is_train app].
      rewrite <- ?app_assoc. reflexivity.
  - rewrite bind_ok with (a := tt) (w1 := w4) by reflexivity.
    rewrite callbacks_quiet.
    eexists _, (returned (Callback on_epoch_begin
                            (set_epoch ep (set_is_train true (st w))) (heap w))
                :: returned ModelTrain :: tr3).
    split; [reflexivity|].
    cbn [st heap trace]. split.
    + rewrite T4, T3. cbn [app]. rewrite <- !app_assoc. reflexivity.
    + rewrite call_log_app, !call_log_cons.
      rewrite K3. unfold epoch_kinds.
      cbn [e_call returned kind_of call_log map is_train set_epoch set_is_train app].
      reflexivity.
Qed.

Lemma fit_epochs_spec tl steps vl vsteps (eps : list Z) :
  forall w : W,
    verbose (st w) = false ->
    all_sized steps tl vsteps vl = true ->
    exists w' tr,
      for_each eps (fit_epoch C tl steps vl vsteps) w = Ok tt w' /\
      trace w' = trace w ++ tr /\
      call_log tr =
        concat (repeat (epoch_kinds (paired_metrics (st w)) tl vl) (length eps)).
Proof.
  induction eps as [|ep eps IH]; intros w Hv Hs.
  - exists w, []. simpl. rewrite app_nil_r. auto.
  - destruct (fit_epoch_spec tl steps vl vsteps ep w Hv Hs)
      as (w1 & tr1 & E1 & T1 & K1).
    pose proof (sound_fit_epoch C tl steps vl vsteps ep w) as S1.
    rewrite E1 in S1. simpl in S1.
    destruct (reaches_static S1) as (_ & Em & Ems & Ev).
    destruct (IH w1) as (w2 & tr2 & E2 & T2 & K2); [congruence | exact Hs |].
    assert (Hp : paired_metrics (st w1) = paired_metrics (st w)).
    { unfold paired_metrics. rewrite Em, Ems. reflexivity. }
    exists w2, ((tr1 ++ [returned (Callback on_epoch_end (st w1) (heap w1))]) ++ tr2).
    cbn [for_each]. erewrite bind_ok by exact E1.
    split; [exact E2|]. split.
    + rewrite T2, T1. now rewrite <- !app_assoc.
    + rewrite call_log_app, K1, K2, Hp. reflexivity.
Qed.

(** A whole [fit], with the progress display off and sizes to record. *)
Lemma fit_spec tl steps vl vsteps epochs start (w : W) :
  verbose (st w) = false ->
  all_sized steps tl vsteps vl = true ->
  exists w' tr,
    fit C tl steps vl vsteps epochs start w = Ok tt w' /\
    trace w' = trace w ++ tr /\
    call_log tr =
      fit_kinds (paired_metrics (st w)) tl vl (length (range start epochs)).
Proof.
  intros Hv Hs. unfold fit.
  rewrite !bind_modify, bind_callbacks_quiet.
  cbn [st heap ext grad_enabled trace with_st].
  match goal with |- context [bind (for_each _ _) _ ?wa] =>
    destruct (fit_epochs_spec tl steps vl vsteps (range start epochs) wa)
      as (w2 & tr2 & E2 & T2 & K2); [exact Hv | exact Hs |]
  end.
  erewrite bind_ok by exact E2. rewrite callbacks_quiet.
  cbn [st heap trace] in T2, K2.
  eexists _, (returned (Callback on_train_begin _ (heap w)) :: tr2 ++
              [returned (Callback on_train_end (st w2) (heap w2))]).
  split; [reflexivity|]. cbn [trace]. split.
  - rewrite T2. rewrite <- !app_assoc. reflexivity.
  - rewrite call_log_cons, call_log_app, K2. reflexivity.
Qed.

Lemma count_kind_app (p : kind Metric -> bool) (a b : list (kind Metric)) :
  count_kind p (a ++ b) = count_kind p a + count_kind p b.
Proof. unfold count_kind. now rewrite List.filter_app, length_app. Qed.

Lemma count_kind_repeat (p : kind Metric -> bool) (l : list (kind Metric)) (n : nat) :
  count_kind p (concat (repeat l n)) = n * count_kind p l.
Proof.
  induction n as [|n IH]; [reflexivity|].
  cbn [repeat concat]. rewrite count_kind_app, IH. lia.
Qed.

Lemma count_kind_metrics (p : kind Metric -> bool) (ms : list Metric) :
  (forall m, p (KMetricCall m) = false) ->
  count_kind p (map KMetricCall ms) = 0.
Proof.
  intros Hp. unfold count_kind.
  induction ms as [|m ms IH]; [reflexivity|].
  cbn [map List.filter]. now rewrite Hp.
Qed.

Lemma count_optimizer_steps (ms : list Metric) (tl : Loader Input Target)
    (vl : option (Loader Input Target)) (n : nat) :
  count_kind is_optimizer_step (fit_kinds ms tl vl n) = n * length (batches tl).
Proof.
  assert (Hpass : forall b k,
            count_kind is_optimizer_step (pass_kinds b ms k) =
            if b then k else 0).
  { intros b k. unfold pass_kinds. rewrite count_kind_repeat.
    change (KCallback on_batch_begin :: step_kinds b ms ++ [KCallback on_batch_end])
      with ([KCallback on_batch_begin] ++ step_kinds b ms ++ [KCallback on_batch_end]).
    unfold step_kinds. rewrite !count_kind_app, count_kind_metrics by reflexivity.
    destruct b; cbn [count_kind List.filter is_optimizer_step length]; lia. }
  unfold fit_kinds.
  change (KCallback on_train_begin :: ?x) with ([KCallback (Metric:=Metric) on_train_begin] ++ x).
  rewrite !count_kind_app, count_kind_repeat. unfold epoch_kinds.
  change (count_kind is_optimizer_step
            (KCallback on_epoch_begin :: KModelTrain ::
             pass_kinds true ms (length (batches tl)) ++
             match vl with
             | Some v => KModelEval :: pass_kinds false ms (length (batches v))
             | None => []
             end ++ [KCallback on_epoch_end]))
    with (count_kind is_optimizer_step
            ([KCallback on_epoch_begin; KModelTrain] ++
             pass_kinds true ms (length (batches tl)) ++
             match vl with
             | Some v => [KModelEval] ++ pass_kinds false ms (length (batches v))
             | None => []
             end ++ [KCallback on_epoch_end])).
  rewrite !count_kind_app, Hpass.
  destruct vl as [v|]; [rewrite count_kind_app, Hpass|];
    cbn [count_kind List.filter is_optimizer_step length]; lia.
Qed.

Lemma count_forward_passes (ms : list Metric) (tl : Loader Input Target)
    (vl : option (Loader Input Target)) (n : nat) :
  count_kind is_forward_pass (fit_kinds ms tl vl n) =
  n * (length (batches tl) +
       match vl with Some v => length (batches v) | None => 0 end).
Proof.
  assert (Hpass : forall b k,
            count_kind is_forward_pass (pass_kinds b ms k) = k).
  { intros b k. unfold pass_kinds. rewrite count_kind_repeat.
    change (KCallback on_batch_begin :: step_kinds b ms ++ [KCallback on_batch_end])
      with ([KCallback on_batch_begin] ++ step_kinds b ms ++ [KCallback on_batch_end]).
    unfold step_kinds. rewrite !count_kind_app, count_kind_metrics by reflexivity.
    destruct b; cbn [count_kind List.filter is_forward_pass length]; lia. }
  unfold fit_kinds.
  change (KCallback on_train_begin :: ?x) with ([KCallback (Metric:=Metric) on_train_begin] ++ x).
  rewrite !count_kind_app, count_kind_repeat. unfold epoch_kinds.
  change (count_kind is_forward_pass
            (KCallback on_epoch_begin :: KModelTrain ::
             pass_kinds true ms (length (batches tl)) ++
             match vl with
             | Some v => KModelEval :: pass_kinds false ms (length (batches v))
             | None => []
             end ++ [KCallback on_epoch_end]))
    with (count_kind is_forward_pass
            ([KCallback on_epoch_begin; KModelTrain] ++
             pass_kinds true ms (length (batches tl)) ++
             match vl with
             | Some v => [KModelEval] ++ pass_kinds false ms (length (batches v))
             | None => []
             end ++ [KCallback on_epoch_end])).
  rewrite !count_kind_app, Hpass.
  destruct vl as [v|]; [rewrite count_kind_app, Hpass|];
    cbn [count_kind List.filter is_forward_pass length]; lia.
Qed.

End StepFacts.

(** ** What a step, a pass and a whole run call *)

Section Protocols.
Context {Scalar Input Target Output Loss Metric UserExn Ext : Type}.
Context `{ScalarOps Scalar}.

Variable C : @Collab Scalar Input Target Output Loss Metric UserExn Ext.

Abbreviation W := (@World Scalar Input Target Output Loss Metric UserExn Ext).
Abbreviation Entry' := (@Entry Scalar Input Target Output Loss Metric UserExn).

(** X1.  The calls of one step, when none of them raises: the model on the
    images of the batch; the criterion on what the model returned and the
    target; while training, [zero_grad], the scaled backward pass of the
    loss the criterion returned, the optimizer step and the device barrier,
    in this order; then one call per metric that [zip] pairs with a meter,
    each on the same output and target.  The step records the batch and
    the output of the model in the context. *)
Theorem make_step_calls (batch : Input * Target) (w : W) :
  never_raises C ->
  exists w',
    _make_step C batch w = Ok tt w' /\
    trace w' = trace w ++ map returned (step_calls C (st w) (ext w) batch) /\
    input (st w') = Some batch /\
    output (st w') = Some (model_out C (fst batch) (ext w)).
Proof.
  intros Hq.
  destruct (make_step_spec Hq batch w) as (w' & E & T & S & _).
  exists w'. split; [exact E|]. split; [exact T|].
  rewrite S. split; reflexivity.
Qed.


(** X3.  One turn of the loop over the batches, with the progress display
    off and collaborators that do not raise.  [on_batch_begin] is
    broadcast once the step index is set but before the step runs: the
    callbacks read the new index, the input and the output of the batch
    before, and the meters not yet updated.  [on_batch_end] is broadcast
    after the step: the callbacks read the batch, the output of the model
    on it and the updated meters.  Between the two events lie the calls of
    the step and nothing else. *)
Theorem batch_body_views (p : pbar_kind) (i : nat) (batch : Input * Target)
    (w : W) :
  never_raises C ->
  verbose (st w) = false ->
  exists w' s1 tr,
    batch_body C p (i, batch) w = Ok tt w' /\
    trace w' = trace w ++
      returned (Callback on_batch_begin s1 (heap w)) :: tr ++
      [returned (Callback on_batch_end (st w') (heap w'))] /\
    call_log tr = step_kinds (is_train (st w)) (paired_metrics (st w)) /\
    step s1 = Some i /\ input s1 = input (st w) /\ output s1 = output (st w) /\
    step (st w') = Some i /\ input (st w') = Some batch /\
    output (st w') =
      Some (model_out C (fst batch)
              (ext_after C (Callback on_batch_begin s1 (heap w)) (ext w))).
Proof.
  intros Hq Hv.
  destruct (batch_body_spec Hq p i batch w Hv) as (w' & E & T & S & _).
  eexists w', _, _. split; [exact E|]. split; [exact T|].
  split; [apply call_log_step|]. rewrite S. repeat split.
Qed.

(** X4.  The calls of a pass.  With the progress display off, collaborators
    that do not raise and a size to record, [_run_one_epoch] returns, and
    what it has called is, for every batch of the source in turn,
    [on_batch_begin], the calls of one step, [on_batch_end]: the optimizer
    is called when and only when the train flag is on, and the explicit
    step count has no part in it.  [evaluate] is [model.eval()] followed by
    such a pass with the train flag off. *)
Theorem pass_call_protocol (ld : Loader Input Target) (steps : option Z)
    (w : W) (n : Z) :
  never_raises C ->
  verbose (st w) = false ->
  effective_size steps ld = Some n ->
  (exists w' tr,
     _run_one_epoch C ld steps w = Ok tt w' /\
     trace w' = trace w ++ tr /\
     call_log tr =
       pass_kinds (is_train (st w)) (paired_metrics (st w))
                  (length (batches ld))) /\
  (exists a w' tr,
     evaluate C ld steps w = Ok a w' /\
     trace w' = trace w ++ returned ModelEval :: tr /\
     call_log tr =
       pass_kinds false (paired_metrics (st w)) (length (batches ld))).
Proof.
  intros Hq Hv Hn. split.
  - destruct (pass_spec Hq ld steps w Hv Hn) as (w' & tr & E & T & K & _).
    exists w', tr. auto.
  - apply (evaluate_spec Hq ld steps w Hv Hn).
Qed.

(** X5.  The step indices of a pass.  With the progress display off and
    collaborators that do not raise, the callbacks read at the
    [on_batch_begin] events of a pass, and again at its [on_batch_end]
    events, the step indices 0, 1, ..., one for every batch of the source,
    each time with the epoch size that line 75 recorded: the index runs
    past an explicit step count that is smaller than the source. *)
Theorem pass_step_indices (ld : Loader Input Target) (steps : option Z)
    (w : W) (n : Z) :
  never_raises C ->
  verbose (st w) = false ->
  effective_size steps ld = Some n ->
  exists w' tr,
    _run_one_epoch C ld steps w = Ok tt w' /\
    trace w' = trace w ++ tr /\
    seen (fun s => (step s, ep_size s)) on_batch_begin tr =
      map (fun i => (Some i, Some n)) (seq 0 (length (batches ld))) /\
    seen (fun s => (step s, ep_size s)) on_batch_end tr =
      map (fun i => (Some i, Some n)) (seq 0 (length (batches ld))).
Proof.
  intros Hq Hv Hn.
  destruct (pass_spec Hq ld steps w Hv Hn) as (w' & tr & E & T & _ & B & N & _).
  exists w', tr. auto.
Qed.

Lemma count_occ_fed (s : RunnerState Input Target Output Metric) (x : loc) :
  List.NoDup (live_meters s) ->
  (In x (fed_meters s) -> count_occ Nat.eq_dec (fed_meters s) x = 1) /\
  (In x (skipn (length (metrics s)) (metric_meters s)) ->
   count_occ Nat.eq_dec (fed_meters s) x = 0).
Proof.
  intros Hnd. unfold live_meters, fed_meters, paired_meters in *.
  pose proof (proj1 (NoDup_count_occ Nat.eq_dec _) Hnd x) as Hle.
  assert (Hsplit : count_occ Nat.eq_dec (loss_meter s :: metric_meters s) x =
                   count_occ Nat.eq_dec
                     (loss_meter s :: firstn (length (metrics s)) (metric_meters s)) x +
                   count_occ Nat.eq_dec
                     (skipn (length (metrics s)) (metric_meters s)) x).
  { rewrite <- (firstn_skipn (length (metrics s)) (metric_meters s)) at 1.
    change (loss_meter s :: ?a ++ ?b) with ((loss_meter s :: a) ++ b).
    apply count_occ_app. }
  split; intros Hin; apply (count_occ_In Nat.eq_dec) in Hin; lia.
Qed.

(** X6.  The observations of a pass.  With the progress display off and
    collaborators that do not raise, a pass leaves in every meter it has
    reset one observation per batch of the source and per place the meter
    holds among the meters a step feeds (the loss meter and the meters that
    [zip] pairs with a metric).  With distinct meters: as many
    observations as the source has batches in the loss meter and in every
    paired meter, none in a meter that has no metric. *)
Theorem pass_counts_observations (ld : Loader Input Target)
    (steps : option Z) (w : W) (n : Z) :
  never_raises C ->
  verbose (st w) = false ->
  effective_size steps ld = Some n ->
  exists w',
    _run_one_epoch C ld steps w = Ok tt w' /\
    (forall x, x < length (heap w) -> In x (live_meters (st w)) ->
       observations (heap w') x =
       length (batches ld) * count_occ Nat.eq_dec (fed_meters (st w)) x) /\
    (wf w -> List.NoDup (live_meters (st w)) ->
     Forall (fun x => observations (heap w') x = length (batches ld))
            (fed_meters (st w)) /\
     Forall (fun x => observations (heap w') x = 0)
            (skipn (length (metrics (st w))) (metric_meters (st w)))).
Proof.
  intros Hq Hv Hn.
  destruct (pass_spec Hq ld steps w Hv Hn)
    as (w' & tr & E & _ & _ & _ & _ & _ & _ & Hc).
  exists w'. split; [exact E|]. split; [exact Hc|].
  intros [Hl Hm] Hnd. rewrite List.Forall_forall in Hm.
  assert (Hfed : forall x, In x (fed_meters (st w)) -> In x (live_meters (st w))).
  { unfold fed_meters, live_meters, paired_meters. intros x [->|Hx]; [now left|].
    right. rewrite <- (firstn_skipn (length (metrics (st w)))).
    apply in_or_app. now left. }
  assert (Hlt : forall x, In x (live_meters (st w)) -> x < length (heap w)).
  { intros x [<-|Hx]; [exact Hl | now apply Hm]. }
  split; apply List.Forall_forall; intros x Hx.
  - rewrite Hc by auto.
    rewrite (proj1 (count_occ_fed x Hnd) Hx). lia.
  - assert (Hlive : In x (live_meters (st w))).
    { right. rewrite <- (firstn_skipn (length (metrics (st w)))).
      apply in_or_app. now right. }
    rewrite Hc by auto.
    rewrite (proj2 (count_occ_fed x Hnd) Hx). lia.
Qed.

(** X7.  The calls of a whole [fit].  With the progress display off,
    collaborators that do not raise and sizes to record, [fit] returns and
    has called: [on_train_begin]; for each epoch of
    [range(start_epoch, epochs)], [on_epoch_begin], [model.train()], a
    training pass over the whole training source, with a validation source
    [model.eval()] and a pass over it without the optimizer, and
    [on_epoch_end]; then [on_train_end].  So the optimizer steps once per
    training batch and epoch, and the model is run once per batch of either
    source and epoch. *)
Theorem fit_call_protocol (tl : Loader Input Target) (steps : option Z)
    (vl : option (Loader Input Target)) (vsteps : option Z)
    (epochs start : Z) (w : W) :
  never_raises C ->
  verbose (st w) = false ->
  all_sized steps tl vsteps vl = true ->
  exists w' tr,
    fit C tl steps vl vsteps epochs start w = Ok tt w' /\
    trace w' = trace w ++ tr /\
    call_log tr =
      fit_kinds (paired_metrics (st w)) tl vl (Z.to_nat (epochs - start)) /\
    count_kind is_optimizer_step (call_log tr) =
      Z.to_nat (epochs - start) * length (batches tl) /\
    count_kind is_forward_pass (call_log tr) =
      Z.to_nat (epochs - start) *
      (length (batches tl) +
       match vl with Some v => length (batches v) | None => 0 end).
Proof.
  intros Hq Hv Hs.
  destruct (fit_spec Hq tl steps vl vsteps epochs start w Hv Hs)
    as (w' & tr & E & T & K).
  rewrite range_length in K.
  exists w', tr. split; [exact E|]. split; [exact T|]. split; [exact K|].
  rewrite K. split; [apply count_optimizer_steps | apply count_forward_passes].
Qed.

End Protocols.

(** ** Edges of a pass and of a run *)

Section Edges.
Context {Scalar Input Target Output Loss Metric UserExn Ext : Type}.
Context `{ScalarOps Scalar}.

Variable C : @Collab Scalar Input Target Output Loss Metric UserExn Ext.

Abbreviation W := (@World Scalar Input Target Output Loss Metric UserExn Ext).
Abbreviation Res := (@Result Scalar Input Target Output Loss Metric UserExn Ext).
Abbreviation Mon := (@M Scalar Input Target Output Loss Metric UserExn Ext).
Abbreviation State' := (RunnerState Input Target Output Metric).
Abbreviation call' := (@call Scalar Input Target Output Loss Metric).
Abbreviation Entry' := (@Entry Scalar Input Target Output Loss Metric UserExn).

(** *** A pass that raises before its loop *)

Lemma epoch_tail_fails ld steps (w : W) :
  fails_before_loop steps ld (st w) = true ->
  exists w',
    epoch_tail C ld steps w = Err TypeError w' /\
    heap w' = heap w /\ trace w' = trace w /\ ext w' = ext w /\
    grad_enabled w' = grad_enabled w /\
    st w' = match effective_size steps ld with
            | Some n => set_ep_size (Some n) (st w)
            | None => st w
            end.
Proof.
  unfold fails_before_loop, epoch_tail. intros Hf.
  unfold bind at 1. rewrite steps_or_len_value.
  destruct (effective_size steps ld) as [n|].
  - rewrite bind_modify. unfold make_pbar. unfold bind at 1.
    rewrite bind_gets. cbn [st with_st verbose set_ep_size]. rewrite Hf.
    unfold bind at 1. unfold hasattr_one_argument, raise.
    eexists. split; [reflexivity|]. simpl. auto 10.
  - exists w. auto 10.
Qed.

(** X8.  A pass that raises before its loop has already reset the meters.
    When line 75 finds no size to record (no step count, or a step count of
    0, on a source without a length) or line 77 is reached (verbose mode),
    [_run_one_epoch] raises [TypeError] without a single call; by then the
    loss meter and every metric meter have been reset and the timer
    restarted, so what the meters held before the call is lost; in verbose
    mode the epoch size has been recorded as well.  Objects other than the
    live meters are as they were. *)
Theorem failed_pass_has_reset_meters (ld : Loader Input Target)
    (steps : option Z) (w : W) :
  fails_before_loop steps ld (st w) = true ->
  exists w',
    _run_one_epoch C ld steps w = Err TypeError w' /\
    trace w' = trace w /\ ext w' = ext w /\
    grad_enabled w' = grad_enabled w /\
    timer (st w') = S (timer (st w)) /\
    ep_size (st w') = match effective_size steps ld with
                      | Some n => Some n
                      | None => ep_size (st w)
                      end /\
    (forall x, In x (live_meters (st w)) ->
       deref (heap w') x = meter_reset (deref (heap w) x)) /\
    (forall x, ~ In x (live_meters (st w)) ->
       deref (heap w') x = deref (heap w) x).
Proof.
  intros Hf.
  destruct (run_one_epoch_prefix C ld steps w)
    as (w2 & -> & Es & Ex & Eg & Et & El & Hin & Hout).
  destruct (epoch_tail_fails ld steps w2) as (w' & E & Eh & Et' & Ex' & Eg' & Es').
  { rewrite Es. exact Hf. }
  exists w'. split; [exact E|].
  rewrite Eh, Et', Ex', Eg', Es', Es.
  repeat split; try assumption; destruct (effective_size steps ld); reflexivity.
Qed.

(** *** The gradient mode *)





















(** *** The sizes of a run *)

Lemma atom_sizes sc (n b : Z) (w w' : W) :
  level sc <= 3 ->
  atom C sc w w' ->
  num_epochs (st w) = n -> batch_size (st w) = b ->
  (num_epochs (st w') = n /\ batch_size (st w') = b) /\
  exists tr, trace w' = trace w ++ tr /\
             shows (fun s => num_epochs s = n /\ batch_size s = b) tr.
Proof.
  intros Hsc Ha Hn Hb.
  destruct (reaches_in_epoch Hsc (reaches_once Ha)) as (_ & En & Eb).
  split; [split; congruence|].
  destruct Ha; simpl;
    try (exists []; split; [now rewrite app_nil_r | constructor]).
  eexists. split; [reflexivity|]. constructor; [|constructor].
  simpl. destruct c; try exact I.
  match goal with Hi : issued _ _ |- _ => destruct Hi as [-> _] end. auto.
Qed.

Lemma reaches_sizes sc (n b : Z) (w w' : W) :
  level sc <= 3 ->
  reaches C sc w w' ->
  num_epochs (st w) = n -> batch_size (st w) = b ->
  (num_epochs (st w') = n /\ batch_size (st w') = b) /\
  exists tr, trace w' = trace w ++ tr /\
             shows (fun s => num_epochs s = n /\ batch_size s = b) tr.
Proof.
  intros Hsc. induction 1 as [w|w1 w2 w3 Ha _ IH]; intros Hn Hb.
  - split; [auto|]. exists []. split; [now rewrite app_nil_r | constructor].
  - destruct (atom_sizes Hsc Ha Hn Hb) as ([Hn2 Hb2] & tr1 & T1 & S1).
    destruct (IH Hn2 Hb2) as (Hs3 & tr2 & T2 & S2).
    split; [exact Hs3|]. exists (tr1 ++ tr2). split.
    + rewrite T2, T1. now rewrite <- app_assoc.
    + apply Forall_app. auto.
Qed.

Lemma sound_sizes sc (n b : Z) {A} (w : W) (r : Res A) :
  level sc <= 3 ->
  sound C sc w r ->
  num_epochs (st w) = n -> batch_size (st w) = b ->
  announces n b w r.
Proof.
  intros Hsc Hs Hn Hb. unfold announces.
  destruct r as [a w'|e w']; simpl in *.
  - apply (reaches_sizes Hsc Hs); assumption.
  - destruct Hs as (w1 & Hr & Hc).
    destruct (reaches_sizes Hsc Hr Hn Hb) as ([Hn1 Hb1] & tr & T & S).
    destruct e; simpl in Hc; try (subst w'; split; [auto|]; eauto).
    destruct Hc as (c & x' & Hi & _ & ->). simpl. split; [auto|].
    exists (tr ++ [mkEntry c (Some u)]). split.
    + rewrite T. now rewrite <- app_assoc.
    + apply Forall_app. split; [exact S|]. constructor; [|constructor].
      simpl. destruct c; try exact I. destruct Hi as [-> _]. auto.
Qed.

(** Results in sequence. *)
Lemma announces_bind (n b : Z) {A B} (m : Mon A) (k : A -> Mon B) (w : W) :
  announces n b w (m w) ->
  (forall a w1, m w = Ok a w1 -> announces n b w1 (k a w1)) ->
  announces n b w (bind m k w).
Proof.
  intros Hm Hk. unfold bind. destruct (m w) as [a w1|e w1] eqn:E; [|exact Hm].
  destruct Hm as (_ & tr1 & T1 & S1). simpl in T1.
  destruct (Hk a w1 eq_refl) as (Hs & tr2 & T2 & S2).
  split; [exact Hs|]. exists (tr1 ++ tr2). split.
  - rewrite T2, T1. now rewrite <- app_assoc.
  - apply Forall_app. auto.
Qed.

Lemma announces_sizes (n b : Z) {A} (w : W) (r : Res A) :
  announces n b w r ->
  num_epochs (st (world_of r)) = n /\ batch_size (st (world_of r)) = b.
Proof. now intros [Hs _]. Qed.

Lemma fit_epoch_sizes tl steps vl vsteps ep (n b : Z) (w : W) :
  num_epochs (st w) = n -> batch_size (st w) = b ->
  announces n b w (fit_epoch C tl steps vl vsteps ep w).
Proof.
  intros Hn Hb. rewrite fit_epoch_unfold.
  destruct (@sound_sizes InEpoch n b unit
              (with_st (set_epoch ep) (with_st (set_is_train true) w))
              (epoch_rest C tl steps vl vsteps
                 (with_st (set_epoch ep) (with_st (set_is_train true) w))))
    as (Hs & tr & T & S);
    [simpl; lia | apply sound_epoch_rest | exact Hn | exact Hb |].
  split; [exact Hs|]. exists tr. auto.
Qed.

Lemma fit_epochs_sizes tl steps vl vsteps (n b : Z) (eps : list Z) :
  forall w : W,
    num_epochs (st w) = n -> batch_size (st w) = b ->
    announces n b w (for_each eps (fit_epoch C tl steps vl vsteps) w).
Proof.
  induction eps as [|ep eps IH]; intros w Hn Hb.
  - split; [simpl; auto|]. exists []. simpl.
    split; [now rewrite app_nil_r | constructor].
  - cbn [for_each]. apply announces_bind.
    + now apply fit_epoch_sizes.
    + intros a w1 E1.
      destruct (announces_sizes (fit_epoch_sizes tl steps vl vsteps ep w Hn Hb))
        as [Hn1 Hb1].
      rewrite E1 in Hn1, Hb1. now apply IH.
Qed.

(** X10.  [fit] announces the sizes of the run.  The number of epochs asked
    for and the batch size of the training source (1 when the source has no
    [batch_size] attribute) are written to the context before anything is
    called and never written again: every dispatcher event of the run, from
    [on_train_begin] on, shows them to the callbacks, and they are what the
    context holds when [fit] ends, whether it returns or raises. *)
Theorem fit_announces_sizes
    (tl : Loader Input Target) (steps : option Z)
    (vl : option (Loader Input Target)) (vsteps : option Z)
    (epochs start : Z) (w : W) :
  announces epochs
    (match ld_batch_size tl with Some b => b | None => 1%Z end)
    w (fit C tl steps vl vsteps epochs start w).
Proof.
  unfold fit. rewrite !bind_modify.
  set (b := match ld_batch_size tl with Some b => b | None => 1%Z end).
  set (w0 := with_st (set_batch_size b) (with_st (set_num_epochs epochs) w)).
  assert (Hn0 : num_epochs (st w0) = epochs) by reflexivity.
  assert (Hb0 : batch_size (st w0) = b) by reflexivity.
  change (trace w) with (trace w0).
  assert (Hcb : forall h (wa : W),
            num_epochs (st wa) = epochs -> batch_size (st wa) = b ->
            announces epochs b wa (callbacks C h wa)).
  { intros h wa Hn Hb.
    apply (@sound_sizes InEpoch epochs b unit wa (callbacks C h wa));
      [simpl; lia | apply sound_callbacks | exact Hn | exact Hb]. }
  assert (G : announces epochs b w0
                (bind (callbacks C on_train_begin) (fun _ =>
                 bind (for_each (range start epochs)
                         (fit_epoch C tl steps vl vsteps))
                      (fun _ => callbacks C on_train_end)) w0)).
  { apply announces_bind; [now apply Hcb|]. intros a1 w1 E1.
    destruct (announces_sizes (Hcb on_train_begin w0 Hn0 Hb0)) as [Hn1 Hb1].
    rewrite E1 in Hn1, Hb1. simpl in Hn1, Hb1.
    apply announces_bind; [now apply fit_epochs_sizes|]. intros a2 w2 E2.
    destruct (announces_sizes
                (fit_epochs_sizes tl steps vl vsteps (range start epochs) w1 Hn1 Hb1))
      as [Hn2 Hb2].
    rewrite E2 in Hn2, Hb2. simpl in Hn2, Hb2.
    now apply Hcb. }
  exact G.
Qed.

(** *** A run without epochs *)

(** X11.  A [fit] with no epoch to run ([epochs <= start_epoch]) and
    callbacks that do not raise returns after [on_train_begin] and
    [on_train_end] and nothing else: no pass is run, so no meter is reset,
    neither the train flag nor the epoch index is written, and it does not
    matter whether the source has a length or the progress display is on;
    only the two sizes of the run have been written to the context. *)
Theorem fit_without_epochs
    (tl : Loader Input Target) (steps : option Z)
    (vl : option (Loader Input Target)) (vsteps : option Z)
    (epochs start : Z) (w : W) :
  never_raises C ->
  (epochs <= start)%Z ->
  exists w',
    fit C tl steps vl vsteps epochs start w = Ok tt w' /\
    trace w' = trace w ++
      [returned (Callback on_train_begin (st w') (heap w));
       returned (Callback on_train_end (st w') (heap w))] /\
    st w' = set_batch_size
              (match ld_batch_size tl with Some b => b | None => 1%Z end)
              (set_num_epochs epochs (st w)) /\
    heap w' = heap w /\ grad_enabled w' = grad_enabled w.
Proof.
  intros Hq Hle. unfold fit.
  rewrite !bind_modify, (bind_callbacks_quiet Hq), (range_empty Hle).
  cbn [for_each]. rewrite bind_ok with (a := tt) (w1 := _) by reflexivity.
  rewrite (callbacks_quiet Hq).
  eexists. split; [reflexivity|]. simpl.
  rewrite <- app_assoc. auto.
Qed.

(** *** What the callbacks read at the end of an epoch *)

Lemma copies_same (w w' : W) (l : loc) (ls : list loc) :
  st w' = st w -> heap w' = heap w -> copies w l ls -> copies w' l ls.
Proof. unfold copies. now intros -> ->. Qed.

(** The context once the training snapshot of an epoch is stored. *)
Lemma train_phase_state tl steps (ep : Z) (w w3 : W) :
  wf w ->
  train_phase C tl steps ep w = Ok tt w3 ->
  is_train (st w3) = true /\ epoch (st w3) = ep.
Proof.
  intros Hwf. unfold train_phase. rewrite !bind_modify. intros E3.
  apply bind_ok_inv in E3. destruct E3 as (x1 & wa & Ea & E3).
  apply bind_ok_inv in E3. destruct E3 as (x2 & wb & Eb & E3).
  apply bind_ok_inv in E3. destruct E3 as (x3 & wc & Ec & E3).
  apply callbacks_inv in Ea. destruct Ea as [Ea Ea'].
  apply invoke_inv in Eb. destruct Eb as (Eb & Eb' & _).
  apply run_one_epoch_frame in Ec.
  assert (Hwb : wf wb).
  { eapply wf_same; [| | |exact Hwf];
      rewrite ?Eb, ?Eb', ?Ea, ?Ea'; reflexivity. }
  assert (Hwc : wf wc) by (eapply reaches_wf; eassumption).
  destruct (snapshot_train_spec Hwc) as (w3' & E3' & Hst & _).
  rewrite E3' in E3. inversion E3; subst w3'. clear E3.
  pose proof (reaches_in_pass (sc:=InPass) ltac:(simpl; lia) Ec) as Ht.
  destruct (reaches_below_fit (sc:=InPass) ltac:(simpl; lia) Ec) as (Ee & _).
  rewrite Hst. simpl. rewrite Ht, Ee, Eb, Ea. simpl. auto.
Qed.

(** The context once the validation snapshot of an epoch is stored. *)
Lemma val_phase_state v vsteps (w w5 : W) :
  never_raises C ->
  wf w ->
  val_phase C v vsteps w = Ok tt w5 ->
  is_train (st w5) = false /\ epoch (st w5) = epoch (st w) /\
  train_loss (st w5) = train_loss (st w) /\
  train_metrics (st w5) = train_metrics (st w).
Proof.
  intros Hq Hwf. unfold val_phase. intros E5.
  apply bind_ok_inv in E5. destruct E5 as (x & w4 & E4 & E5).
  pose proof (evaluate_frame C _ _ _ E4) as R4.
  assert (Hw4 : wf w4) by (eapply reaches_wf; eassumption).
  destruct (snapshot_val_spec Hw4) as (w5' & E5' & Hst & _).
  rewrite E5' in E5. inversion E5; subst w5'. clear E5.
  destruct (reaches_below_fit (sc:=InEvaluate) ltac:(simpl; lia) R4)
    as (Ee & _ & _ & El & Em & _).
  assert (Ht : is_train (st w4) = false).
  { rewrite (evaluate_unfold Hq) in E4.
    match type of E4 with context [_run_one_epoch C v vsteps ?wa] =>
      destruct (_run_one_epoch C v vsteps wa) as [[] w4'|e w4'] eqn:Ep;
        [|discriminate];
      apply run_one_epoch_frame in Ep;
      pose proof (reaches_in_pass (sc:=InPass) ltac:(simpl; lia) Ep) as Hp
    end.
    inversion E4; subst w4'. rewrite Hp. reflexivity. }
  rewrite Hst. simpl. rewrite Ht, Ee, El, Em. auto.
Qed.

(** X12.  What the callbacks read at [on_epoch_end].  With the progress
    display off and collaborators that do not raise, an epoch of [fit]
    ends with [on_epoch_end], broadcast on the context and the meters as
    the epoch leaves them: the epoch index is the one of the epoch and the
    training snapshot is stored.  Without a validation source the train
    flag is still on and the training snapshot holds what the live meters
    hold.  With one, the train flag is off and the live meters hold the
    statistics of the validation pass, of which the validation snapshot is
    a copy: the statistics of the training pass are then to be read from
    the training snapshot, not from the meters. *)
Theorem epoch_end_view
    (tl : Loader Input Target) (steps : option Z)
    (vl : option (Loader Input Target)) (vsteps : option Z)
    (ep : Z) (w : W) :
  never_raises C ->
  verbose (st w) = false ->
  all_sized steps tl vsteps vl = true ->
  wf w ->
  exists w' tr,
    fit_epoch C tl steps vl vsteps ep w = Ok tt w' /\
    trace w' = trace w ++
               tr ++ [returned (Callback on_epoch_end (st w') (heap w'))] /\
    epoch (st w') = ep /\
    is_train (st w') = (match vl with Some _ => false | None => true end) /\
    (exists l ls,
       train_loss (st w') = Some l /\ train_metrics (st w') = Some ls /\
       (vl = None -> copies w' l ls)) /\
    (forall v, vl = Some v ->
       exists l ls,
         val_loss (st w') = Some l /\ val_metrics (st w') = Some ls /\
         copies w' l ls).
Proof.
  intros Hq Hv Hs Hwf.
  destruct (fit_epoch_spec Hq tl steps vl vsteps ep w Hv Hs)
    as (w' & tr & E & T & _).
  exists w', tr. split; [exact E|]. split; [exact T|].
  rewrite fit_epoch_from_train in E.
  apply bind_ok_inv in E. destruct E as ([] & w3 & E3 & E).
  pose proof E3 as P3. apply train_phase_snapshot in P3; [|exact Hwf].
  destruct P3 as (Hw3 & l & ls & Tl & Tm & _ & Cp).
  pose proof E3 as Q3. apply train_phase_state in Q3; [|exact Hwf].
  destruct Q3 as [Ht3 He3].
  destruct vl as [v|].
  - apply bind_ok_inv in E. destruct E as ([] & w5 & E5 & E).
    change (bind (evaluate C v vsteps) (fun _ => snapshot_val))
      with (val_phase C v vsteps) in E5.
    apply callbacks_inv in E. destruct E as [Es Eh].
    pose proof E5 as P5. apply val_phase_snapshot in P5; [|exact Hw3].
    destruct P5 as (l' & ls' & Vl & Vm & _ & Cp').
    pose proof E5 as Q5. apply val_phase_state in Q5; [|exact Hq|exact Hw3].
    destruct Q5 as (Ht5 & Ee5 & El5 & Em5).
    rewrite Es. split; [congruence|]. split; [exact Ht5|]. split.
    + exists l, ls. split; [congruence|]. split; [congruence|]. discriminate.
    + intros v' _. exists l', ls'. split; [exact Vl|]. split; [exact Vm|].
      eapply copies_same; eassumption.
  - apply bind_ok_inv in E. destruct E as ([] & w5 & E5 & E).
    inversion E5; subst w5. clear E5.
    apply callbacks_inv in E. destruct E as [Es Eh].
    rewrite Es. split; [exact He3|]. split; [exact Ht3|]. split.
    + exists l, ls. split; [exact Tl|]. split; [exact Tm|]. intros _.
      eapply copies_same; eassumption.
    + discriminate.
Qed.

End Edges.

(** ** The Unet decoder: channels and pipeline *)

Section UnetChannels.
Context {Tensor UserExn : Type}.

Abbreviation ULog := (list (@Unet.Call Tensor)).

Lemma index_value {A} (l : list A) (i : nat) (log : ULog) :
  Unet.index (UserExn:=UserExn) l i log =
  match l !! i with
  | Some a => (inr a, log)
  | None => (inl Unet.IndexError, log)
  end.
Proof. unfold Unet.index. destruct (l !! i); reflexivity. Qed.

Lemma bind_index {A B} (l : list A) (i : nat)
    (k : A -> @Unet.M Tensor UserExn B) (log : ULog) :
  Unet.bind (Unet.index l i) k log =
  match l !! i with
  | Some a => k a log
  | None => (inl Unet.IndexError, log)
  end.
Proof. unfold Unet.bind. rewrite index_value. destruct (l !! i); reflexivity. Qed.

Lemma bind_ret {A B} (a : A) (k : A -> @Unet.M Tensor UserExn B) (log : ULog) :
  Unet.bind (Unet.ret a) k log = k a log.
Proof. reflexivity. Qed.

Lemma decoder_init_value (enc dec : list Z) (fc : Z) (ctr : bool) (log : ULog) :
  Unet.UnetDecoder_init (UserExn:=UserExn) enc dec fc ctr log =
  (match enc, dec with
   | e0 :: e1 :: e2 :: e3 :: e4 :: _, d0 :: d1 :: d2 :: d3 :: d4 :: _ =>
       inr (Unet.mkDecoder
              (if ctr then Some (Unet.mkBlock "center" e0 e0) else None)
              (Unet.mkBlock "layer1" (e0 + e1) d0)
              (Unet.mkBlock "layer2" (e2 + d0) d1)
              (Unet.mkBlock "layer3" (e3 + d1) d2)
              (Unet.mkBlock "layer4" (e4 + d2) d3)
              (Unet.mkBlock "layer5" (0 + d3) d4)
              (d4, fc))
   | _, _ => inl Unet.IndexError
   end, log).
Proof.
  unfold Unet.UnetDecoder_init, Unet.compute_channels.
  destruct enc as [|e0 [|e1 [|e2 [|e3 [|e4 enc]]]]];
    destruct dec as [|d0 [|d1 [|d2 [|d3 [|d4 dec]]]]];
    destruct ctr; reflexivity.
Qed.


(** X15.  [UnetDecoder.__init__] on at least five encoder channels and five
    decoder channels builds a decoder whose blocks fit together: the blocks
    put out the first five decoder channels; the first block takes the
    channels of the encoder head plus those of the first skip, each of the
    next three the channels of its skip plus what the block before puts out,
    the fifth (which has no skip) what the fourth puts out, and the final
    convolution maps what the fifth puts out to [final_channels].  Channels
    past the fifth are ignored; nothing is applied. *)
Theorem decoder_init_builds_chain (enc dec : list Z) (fc : Z) (ctr : bool)
    (log : ULog) :
  5 <= length enc -> 5 <= length dec ->
  exists d,
    Unet.UnetDecoder_init (UserExn:=UserExn) enc dec fc ctr log = (inr d, log) /\
    map Unet.blk_out [Unet.layer1 d; Unet.layer2 d; Unet.layer3 d;
                      Unet.layer4 d; Unet.layer5 d] = firstn 5 dec /\
    Unet.blk_in (Unet.layer1 d) = (nth 0 enc 0 + nth 1 enc 0)%Z /\
    Unet.blk_in (Unet.layer2 d) = (nth 2 enc 0 + Unet.blk_out (Unet.layer1 d))%Z /\
    Unet.blk_in (Unet.layer3 d) = (nth 3 enc 0 + Unet.blk_out (Unet.layer2 d))%Z /\
    Unet.blk_in (Unet.layer4 d) = (nth 4 enc 0 + Unet.blk_out (Unet.layer3 d))%Z /\
    Unet.blk_in (Unet.layer5 d) = Unet.blk_out (Unet.layer4 d) /\
    Unet.final_conv d = (Unet.blk_out (Unet.layer5 d), fc) /\
    Unet.center d =
      (if ctr
       then Some (Unet.mkBlock "center" (nth 0 enc 0%Z) (nth 0 enc 0%Z))
       else None).
Proof.
  intros He Hd. rewrite decoder_init_value.
  destruct enc as [|e0 [|e1 [|e2 [|e3 [|e4 enc]]]]]; simpl in He; try lia.
  destruct dec as [|d0 [|d1 [|d2 [|d3 [|d4 dec]]]]]; simpl in Hd; try lia.
  eexists. split; [reflexivity|]. simpl. repeat split.
Qed.

(** X16.  With fewer than five encoder channels or fewer than five decoder
    channels [UnetDecoder.__init__] raises [IndexError], with or without a
    center block; no decoder is built. *)
Theorem decoder_init_index_error (enc dec : list Z) (fc : Z) (ctr : bool)
    (log : ULog) :
  length enc < 5 \/ length dec < 5 ->
  Unet.UnetDecoder_init (UserExn:=UserExn) enc dec fc ctr log =
  (inl Unet.IndexError, log).
Proof.
  intros Hlen. rewrite decoder_init_value.
  destruct enc as [|e0 [|e1 [|e2 [|e3 [|e4 enc]]]]]; try reflexivity;
    destruct dec as [|d0 [|d1 [|d2 [|d3 [|d4 dec]]]]]; try reflexivity.
  simpl in Hlen. lia.
Qed.

End UnetChannels.

Section UnetForward.
Context {Tensor UserExn : Type}.
Variable run_module :
  Unet.callee -> list (Unet.value Tensor) -> UserExn + Unet.value Tensor.
Hypothesis returns : modules_return run_module.

Abbreviation FLog := (list (@Unet.Call Tensor)).
Abbreviation val := (Unet.value Tensor).

Lemma module_returns (c : Unet.callee) (args : list val) :
  run_module c args = inr (module_value run_module c args).
Proof.
  unfold module_value. destruct (returns c args) as (v & ->). reflexivity.
Qed.

Lemma bind_apply {B} (c : Unet.callee) (args : list val)
    (k : val -> @Unet.M Tensor UserExn B) (log : FLog) :
  Unet.bind (Unet.apply run_module c args) k log =
  k (module_value run_module c args) (log ++ [Unet.mkCall c args]).
Proof. unfold Unet.bind, Unet.apply. now rewrite module_returns. Qed.


Lemma bind_center {B} (d : Unet.UnetDecoder) (h : val)
    (k : val -> @Unet.M Tensor UserExn B) (log : FLog) :
  Unet.bind (match Unet.center d with
             | Some c => Unet.UnetCenterBlock_forward run_module c h
             | None => Unet.ret h
             end) k log =
  match Unet.center d with
  | Some c => k Unet.PyNone (log ++ [Unet.mkCall (Unet.BlockSeq c) [h]])
  | None => k h log
  end.
Proof.
  destruct (Unet.center d) as [c|]; [|reflexivity].
  unfold Unet.bind at 1. rewrite center_block_forward, module_returns.
  reflexivity.
Qed.

(** The head the first block is given: the center block returns [None]. *)
Lemma forward_full (d : Unet.UnetDecoder) (h s0 s1 s2 s3 : val)
    (more : list val) (log : FLog) :
  exists calls,
    Unet.UnetDecoder_forward run_module d (h :: s0 :: s1 :: s2 :: s3 :: more) log =
    (inr (module_value run_module
            (Unet.Conv1x1 (fst (Unet.final_conv d)) (snd (Unet.final_conv d)))
            [module_value run_module Unet.Dropout2d
               [decode run_module d
                  (match Unet.center d with
                   | Some _ => Unet.PyNone
                   | None => h
                   end) (s0 :: s1 :: s2 :: s3 :: more)]]),
     log ++ calls) /\
    map Unet.c_callee calls = decoder_pipeline d.
Proof.
  unfold Unet.UnetDecoder_forward, decoder_pipeline, decode.
  rewrite bind_index. cbn [lookup list_lookup drop].
  rewrite bind_center.
  destruct (Unet.center d) as [c|];
    repeat (first [ rewrite bind_index; cbn [lookup list_lookup]
                  | rewrite bind_apply ]; cbv beta);
    unfold Unet.ret; rewrite <- !app_assoc; cbn [app];
    eexists; (split; [reflexivity|]); reflexivity.
Qed.

Lemma forward_short (d : Unet.UnetDecoder) (x : list val) (log : FLog) :
  length x < 5 ->
  exists calls,
    Unet.UnetDecoder_forward run_module d x log =
    (inl Unet.IndexError, log ++ calls) /\
    map Unet.c_callee calls = firstn (applied_on d x) (decoder_pipeline d).
Proof.
  intros Hlen.
  unfold Unet.UnetDecoder_forward, decoder_pipeline, applied_on.
  destruct x as [|h [|s0 [|s1 [|s2 [|s3 more]]]]]; simpl in Hlen; try lia;
    rewrite bind_index; cbn [lookup list_lookup drop];
    try (exists []; rewrite app_nil_r; split; reflexivity);
    rewrite bind_center;
    destruct (Unet.center d) as [c|];
    repeat (first [ rewrite bind_index; cbn [lookup list_lookup]
                  | rewrite bind_apply ]; cbv beta);
    rewrite <- ?app_assoc; cbn [app];
    first [ eexists; split; reflexivity
          | exists []; rewrite app_nil_r; split; reflexivity ].
Qed.

(** X17.  Which modules [UnetDecoder.forward] applies.  With modules that
    return, a call on at least five features (the head and four skips)
    returns, having applied the center block if there is one, the five
    decoder blocks, the dropout and the final convolution, in this order; a
    call on fewer features raises [IndexError], on an empty list at once and
    otherwise only after the center block and one decoder block per skip
    have been applied. *)
Theorem decoder_forward_modules (d : Unet.UnetDecoder) (x : list val)
    (log : FLog) :
  exists calls,
    snd (Unet.UnetDecoder_forward run_module d x log) = log ++ calls /\
    map Unet.c_callee calls = firstn (applied_on d x) (decoder_pipeline d) /\
    (5 <= length x ->
     map Unet.c_callee calls = decoder_pipeline d /\
     exists v, fst (Unet.UnetDecoder_forward run_module d x log) = inr v) /\
    (length x < 5 ->
     fst (Unet.UnetDecoder_forward run_module d x log) = inl Unet.IndexError).
Proof.
  destruct (le_lt_dec 5 (length x)) as [Hge|Hlt].
  - destruct x as [|h [|s0 [|s1 [|s2 [|s3 more]]]]]; simpl in Hge; try lia.
    destruct (forward_full d h s0 s1 s2 s3 more log) as (calls & E & Hc).
    exists calls. rewrite E. simpl. split; [reflexivity|]. split.
    + rewrite Hc. unfold applied_on, decoder_pipeline.
      destruct (Unet.center d); reflexivity.
    + split; [intros _; split; [exact Hc | eauto] | intros; lia].
  - destruct (forward_short d x log Hlt) as (calls & E & Hc).
    exists calls. rewrite E. simpl. split; [reflexivity|].
    split; [exact Hc|]. split; [intros; lia | reflexivity].
Qed.

(** X18.  What [UnetDecoder.forward] returns.  With modules that return and at
    least four skips, the result is the final convolution of the dropout of
    the fold of the five decoder blocks over the first four skips; features
    past the fourth skip are not looked at. *)
Theorem decoder_forward_value (d : Unet.UnetDecoder) (h : val)
    (skips : list val) (log : FLog) :
  4 <= length skips ->
  fst (Unet.UnetDecoder_forward run_module d (h :: skips) log) =
  inr (module_value run_module
         (Unet.Conv1x1 (fst (Unet.final_conv d)) (snd (Unet.final_conv d)))
         [module_value run_module Unet.Dropout2d
            [decode run_module d
               (match Unet.center d with
                | Some _ => Unet.PyNone
                | None => h
                end) (firstn 4 skips)]]).
Proof.
  intros Hlen.
  destruct skips as [|s0 [|s1 [|s2 [|s3 more]]]]; simpl in Hlen; try lia.
  destruct (forward_full d h s0 s1 s2 s3 more log) as (calls & E & _).
  rewrite E. reflexivity.
Qed.

(** X19.  A decoder with a center block does not use the encoder head.  The
    center block is applied to the head, but its [forward] returns [None],
    and this [None] is what the first decoder block is given: two calls that
    differ only in the head return the same. *)
Theorem centered_decoder_ignores_head (d : Unet.UnetDecoder) (c : Unet.Block)
    (h h' : val) (skips : list val) (log log' : FLog) :
  Unet.center d = Some c ->
  4 <= length skips ->
  fst (Unet.UnetDecoder_forward run_module d (h :: skips) log) =
  fst (Unet.UnetDecoder_forward run_module d (h' :: skips) log').
Proof.
  intros Hc Hlen.
  destruct skips as [|s0 [|s1 [|s2 [|s3 more]]]]; simpl in Hlen; try lia.
  destruct (forward_full d h s0 s1 s2 s3 more log) as (calls & E & _).
  destruct (forward_full d h' s0 s1 s2 s3 more log') as (calls' & E' & _).
  rewrite E, E', Hc. reflexivity.
Qed.

End UnetForward.

(** ** Concrete runs *)

Import Demo.

Lemma quiet_never_raises : never_raises quiet.
Proof. intros c x. reflexivity. Qed.

Lemma world0_wf (v : bool) : wf (world0 v).
Proof. split; [simpl; lia | repeat constructor; simpl; lia]. Qed.

(** Five batches, [steps_per_epoch=3], one epoch: the callbacks see five
    [on_batch_begin], not three. *)
Lemma fit_iterates_the_whole_source :
  count_hook on_batch_begin
    (hook_log (trace (world_of
       (fit quiet loader5 (Some 3%Z) None None 1 0 (world0 false))))) = 5 /\
  count_hook on_batch_begin
    (hook_log (trace (world_of
       (fit quiet loader5 (Some 3%Z) None None 1 0 (world0 false)))))
    <> Nat.min 3 (length (batches loader5)).
Proof. split; [vm_compute; reflexivity | vm_compute; discriminate]. Qed.

Lemma fit_emits_one_pair_per_batch_witness :
  exists w',
    fit quiet loader5 (Some 3%Z) None None 2 0 (world0 false) = Ok tt w' /\
    count_hook on_batch_begin (hook_log (trace w')) = 10 /\
    count_hook on_epoch_begin (hook_log (trace w')) = 2 /\
    count_hook on_train_end (hook_log (trace w')) = 1.
Proof.
  destruct (@fit_emits_one_pair_per_batch _ _ _ _ _ _ _ _ _ quiet
              loader5 3%Z 2%Z 5 (world0 false))
    as (w' & E & _ & Hl);
    [exact quiet_never_raises | reflexivity | reflexivity | reflexivity
    | lia |].
  exists w'. split; [exact E|]. rewrite Hl.
  repeat split; vm_compute; reflexivity.
Defined.

Lemma verbose_epoch_loop_raises_witness :
  exists w',
    _run_one_epoch quiet loader2 None (world0 true) = Err TypeError w' /\
    trace w' = trace (world0 true) /\ step (st w') = step (st (world0 true)).
Proof. apply (verbose_epoch_loop_raises quiet loader2 None (world0 true)). reflexivity. Defined.

(** A step count of 0 is given, and the epoch size recorded is the length of
    the source. *)
Lemma ep_size_with_zero_steps :
  ep_size (st (world_of (_run_one_epoch quiet loader5 (Some 0%Z) (world0 false))))
    = Some 5%Z /\
  ep_size (st (world_of (_run_one_epoch quiet loader5 (Some 0%Z) (world0 false))))
    <> Some 0%Z.
Proof. split; [vm_compute; reflexivity | vm_compute; discriminate]. Qed.

Lemma ep_size_recorded_witness :
  ep_size (st (world_of (_run_one_epoch quiet loader5 (Some 3%Z) (world0 false))))
    = Some 3%Z /\
  ep_size (st (world_of (_run_one_epoch quiet loader5 None (world0 false))))
    = Some 5%Z.
Proof.
  split.
  - apply (proj1 (ep_size_recorded quiet loader5 (Some 3%Z) (world0 false)) 3%Z);
      [reflexivity | lia].
  - apply (proj2 (ep_size_recorded quiet loader5 None (world0 false)) 5);
      [now left | reflexivity].
Defined.

(** No length, no step count, and no epoch to run: [fit] returns. *)
Lemma fit_without_epochs_returns :
  ld_len loader_nolen = None /\
  raised (fit quiet loader_nolen None None None 0 0 (world0 false)) = None.
Proof. split; [reflexivity | vm_compute; reflexivity]. Qed.

Lemma unsized_source_raises_witness :
  (exists e w',
     evaluate quiet loader_nolen None (world0 false) = Err e w' /\
     fails_before_batches (world0 false) e w') /\
  (exists e w',
     fit quiet loader_nolen None None None 1 0 (world0 false) = Err e w' /\
     fails_before_batches (world0 false) e w').
Proof.
  destruct (unsized_source_raises quiet loader_nolen (world0 false)) as [He Hf];
    [reflexivity|].
  split; [exact He|]. apply Hf. lia.
Defined.


Lemma snapshots_are_independent_copies_witness :
  exists w3 l ls,
    train_loss (st w3) = Some l /\ train_metrics (st w3) = Some ls /\
    copies w3 l ls /\
    Forall (unchanged w3
              (world_of (fit quiet loader2 None (Some loader5) None 2 0 (world0 false))))
           (l :: ls).
Proof.
  assert (E0 : fit_until quiet loader2 None (Some loader5) None 2 0 0 (world0 false)
               = Ok tt (world_of (fit_until quiet loader2 None (Some loader5) None
                                    2 0 0 (world0 false))))
    by (vm_compute; reflexivity).
  set (w0 := world_of (fit_until quiet loader2 None (Some loader5) None 2 0 0
                         (world0 false))) in *.
  assert (E3 : train_phase quiet loader2 None 0 w0
               = Ok tt (world_of (train_phase quiet loader2 None 0 w0)))
    by (vm_compute; reflexivity).
  destruct (@snapshots_are_independent_copies _ _ _ _ _ _ _ _ _ quiet
              loader2 None (Some loader5) None 2%Z 0%Z 0%Z (world0 false) w0 _
              (world0_wf false) ltac:(lia) E0 E3)
    as [(l & ls & Tl & Tm & _ & Cp & U) _].
  exists (world_of (train_phase quiet loader2 None 0 w0)), l, ls.
  split; [exact Tl|]. split; [exact Tm|]. split; [exact Cp | exact U].
Defined.

Lemma fit_verbose_stops_in_first_epoch_witness :
  exists w',
    fit quiet loader2 None None None 2 0 (world0 true) = Err TypeError w' /\
    hook_log (trace w') = [(on_train_begin, 0%Z); (on_epoch_begin, 0%Z)].
Proof.
  apply (@fit_verbose_stops_in_first_epoch _ _ _ _ _ _ _ _ _ quiet
           loader2 None None None 2%Z 0%Z (world0 true));
    [exact quiet_never_raises | reflexivity | lia].
Defined.

Lemma evaluate_verbose_never_returns_witness :
  exists e w',
    evaluate quiet loader2 None (world0 true) = Err e w' /\
    is_train (st w') = false /\
    (forall x', ext_run quiet ModelEval (ext (world0 true)) = (None, x') ->
                e = TypeError /\
                trace w' = trace (world0 true) ++ [mkEntry ModelEval None]).
Proof.
  apply (evaluate_verbose_never_returns quiet loader2 None (world0 true)).
  reflexivity.
Defined.


Lemma center_block_returns_none_witness :
  exists d c res rest,
    Unet.Unet_decoder (Tensor:=Z) (UserExn:=string)
      encoder_channels decoder_channels 1 true [] = (inr d, []) /\
    Unet.center d = Some c /\
    Unet.UnetDecoder_forward unet_modules d features [] =
    (res,
     [] ++ Unet.mkCall (Unet.BlockSeq c) [Unet.PyTensor 0%Z]
        :: Unet.mkCall (Unet.BlockForward (Unet.layer1 d))
                       [Unet.PyNone; Unet.PyTensor 1%Z]
        :: rest).
Proof.
  assert (Hd : exists d,
             Unet.Unet_decoder (Tensor:=Z) (UserExn:=string)
               encoder_channels decoder_channels 1 true [] = (inr d, []))
    by (vm_compute; eexists; reflexivity).
  destruct Hd as (d & Hd).
  destruct (proj2 (proj2 (center_block_returns_none unet_modules
                            (Unet.mkBlock "center" 512 512)
                            (Unet.PyTensor 0%Z) []))
              encoder_channels decoder_channels 1%Z d [] []
              (Unet.PyTensor 1%Z)
              [Unet.PyTensor 2%Z; Unet.PyTensor 3%Z; Unet.PyTensor 4%Z] Hd)
    as (c & Hc & Hfwd).
  destruct (Hfwd (Unet.PyTensor 7%Z) eq_refl) as (res & rest & E).
  exists d, c, res, rest. split; [exact Hd|]. split; [exact Hc | exact E].
Defined.

(** ** Concrete runs of the protocols *)

Lemma make_step_calls_witness :
  exists w',
    _make_step quiet (1, 1)%Z (world0 false) = Ok tt w' /\
    trace w' =
      trace (world0 false) ++
      map returned (step_calls quiet (st (world0 false)) (ext (world0 false))
                      (1, 1)%Z) /\
    input (st w') = Some (1, 1)%Z /\
    output (st w') = Some (model_out quiet 1%Z (ext (world0 false))).
Proof.
  apply (@make_step_calls _ _ _ _ _ _ _ _ _ quiet (1, 1)%Z (world0 false)).
  exact quiet_never_raises.
Defined.


Lemma batch_body_views_witness :
  exists w' s1 tr,
    batch_body quiet PbarEnumerate (3, (1, 1)%Z) (world0 false) = Ok tt w' /\
    trace w' = trace (world0 false) ++
      returned (Callback on_batch_begin s1 (heap (world0 false))) :: tr ++
      [returned (Callback on_batch_end (st w') (heap w'))] /\
    call_log tr = step_kinds true [0; 1] /\
    step s1 = Some 3 /\ input s1 = None /\ output s1 = None /\
    step (st w') = Some 3 /\ input (st w') = Some (1, 1)%Z /\
    output (st w') =
      Some (model_out quiet 1%Z
              (ext_after quiet (Callback on_batch_begin s1 (heap (world0 false)))
                         (ext (world0 false)))).
Proof.
  apply (@batch_body_views _ _ _ _ _ _ _ _ _ quiet PbarEnumerate 3 (1, 1)%Z (world0 false));
    [exact quiet_never_raises | reflexivity].
Defined.

Lemma pass_call_protocol_witness :
  (exists w' tr,
     _run_one_epoch quiet loader2 (Some 1%Z) (world0 false) = Ok tt w' /\
     trace w' = trace (world0 false) ++ tr /\
     call_log tr = pass_kinds true [0; 1] 2) /\
  (exists a w' tr,
     evaluate quiet loader2 (Some 1%Z) (world0 false) = Ok a w' /\
     trace w' = trace (world0 false) ++ returned ModelEval :: tr /\
     call_log tr = pass_kinds false [0; 1] 2).
Proof.
  apply (@pass_call_protocol _ _ _ _ _ _ _ _ _ quiet loader2 (Some 1%Z) (world0 false) 1%Z);
    [exact quiet_never_raises | reflexivity | reflexivity].
Defined.

Lemma pass_step_indices_witness :
  exists w' tr,
    _run_one_epoch quiet loader5 (Some 3%Z) (world0 false) = Ok tt w' /\
    trace w' = trace (world0 false) ++ tr /\
    seen (fun s => (step s, ep_size s)) on_batch_begin tr =
      [(Some 0, Some 3%Z); (Some 1, Some 3%Z); (Some 2, Some 3%Z);
       (Some 3, Some 3%Z); (Some 4, Some 3%Z)] /\
    seen (fun s => (step s, ep_size s)) on_batch_end tr =
      [(Some 0, Some 3%Z); (Some 1, Some 3%Z); (Some 2, Some 3%Z);
       (Some 3, Some 3%Z); (Some 4, Some 3%Z)].
Proof.
  apply (@pass_step_indices _ _ _ _ _ _ _ _ _ quiet loader5 (Some 3%Z) (world0 false) 3%Z);
    [exact quiet_never_raises | reflexivity | reflexivity].
Defined.

Lemma pass_counts_observations_witness :
  exists w',
    _run_one_epoch quiet loader5 None (world0 false) = Ok tt w' /\
    Forall (fun x => observations (heap w') x = 5) [0; 1; 2].
Proof.
  destruct (@pass_counts_observations _ _ _ _ _ _ _ _ _ quiet loader5 None (world0 false) 5%Z)
    as (w' & E & _ & Hd);
    [exact quiet_never_raises | reflexivity | reflexivity |].
  exists w'. split; [exact E|].
  apply Hd; [exact (world0_wf false)|].
  repeat constructor; simpl; intuition lia.
Defined.

Lemma fit_call_protocol_witness :
  exists w' tr,
    fit quiet loader5 None (Some loader2) None 3 1 (world0 false) = Ok tt w' /\
    trace w' = trace (world0 false) ++ tr /\
    call_log tr = fit_kinds [0; 1] loader5 (Some loader2) 2 /\
    count_kind is_optimizer_step (call_log tr) = 10 /\
    count_kind is_forward_pass (call_log tr) = 14.
Proof.
  apply (@fit_call_protocol _ _ _ _ _ _ _ _ _ quiet loader5 None (Some loader2) None
           3%Z 1%Z (world0 false));
    [exact quiet_never_raises | reflexivity | reflexivity].
Defined.

Lemma failed_pass_has_reset_meters_witness :
  exists w',
    _run_one_epoch quiet loader_nolen None (world0 false) = Err TypeError w' /\
    trace w' = trace (world0 false) /\ ext w' = ext (world0 false) /\
    grad_enabled w' = grad_enabled (world0 false) /\
    timer (st w') = 1 /\
    ep_size (st w') = None /\
    (forall x, In x [0; 1; 2] ->
       deref (heap w') x = meter_reset (deref (heap (world0 false)) x)) /\
    (forall x, ~ In x [0; 1; 2] ->
       deref (heap w') x = deref (heap (world0 false)) x).
Proof.
  apply (@failed_pass_has_reset_meters _ _ _ _ _ _ _ _ _ quiet loader_nolen None (world0 false)).
  reflexivity.
Defined.

Lemma fit_without_epochs_witness :
  exists w',
    fit quiet loader_nolen None None None 0 0 (world0 true) = Ok tt w' /\
    trace w' = trace (world0 true) ++
      [returned (Callback on_train_begin (st w') (heap (world0 true)));
       returned (Callback on_train_end (st w') (heap (world0 true)))] /\
    st w' = set_batch_size 1%Z (set_num_epochs 0%Z (st (world0 true))) /\
    heap w' = heap (world0 true) /\
    grad_enabled w' = grad_enabled (world0 true).
Proof.
  apply (@fit_without_epochs _ _ _ _ _ _ _ _ _ quiet loader_nolen None None None
           0%Z 0%Z (world0 true));
    [exact quiet_never_raises | lia].
Defined.

Lemma epoch_end_view_witness :
  exists w' tr,
    fit_epoch quiet loader2 None (Some loader5) None 4 (world0 false) = Ok tt w' /\
    trace w' = trace (world0 false) ++
               tr ++ [returned (Callback on_epoch_end (st w') (heap w'))] /\
    epoch (st w') = 4%Z /\
    is_train (st w') = false /\
    (exists l ls,
       val_loss (st w') = Some l /\ val_metrics (st w') = Some ls /\
       copies w' l ls).
Proof.
  destruct (@epoch_end_view _ _ _ _ _ _ _ _ _ quiet loader2 None (Some loader5) None
              4%Z (world0 false))
    as (w' & tr & E & T & He & Ht & _ & Hval);
    [exact quiet_never_raises | reflexivity | reflexivity
    | exact (world0_wf false) |].
  exists w', tr. split; [exact E|]. split; [exact T|]. split; [exact He|].
  split; [exact Ht|]. apply (Hval loader5). reflexivity.
Defined.

Lemma fit_quiet_covers_epochs_witness :
  exists w' hs,
    fit quiet loader2 None (Some loader5) None 3 1 (world0 false) = Ok tt w' /\
    hook_log (trace w') = hook_log (trace (world0 false)) ++ hs /\
    hs = fit_hooks loader2 (Some loader5) 0 1 3 /\
    epochs_begun hs = [1; 2]%Z /\
    count_hook on_train_begin hs = 1 /\
    count_hook on_train_end hs = 1.
Proof.
  apply (@fit_quiet_covers_epochs _ _ _ _ _ _ _ _ _ quiet
           loader2 None (Some loader5) None 3%Z 1%Z (world0 false));
    [exact quiet_never_raises | reflexivity | reflexivity].
Defined.

Lemma evaluate_quiet_returns_witness :
  exists w' tr,
    evaluate quiet loader2 None (world0 false) =
      Ok (meter_avg (deref (heap w') (loss_meter (st w'))),
          map (fun l => meter_avg (deref (heap w') l)) (metric_meters (st w')))
         w' /\
    is_train (st w') = false /\
    trace w' = trace (world0 false) ++ mkEntry ModelEval None :: tr.
Proof.
  apply (@evaluate_quiet_returns _ _ _ _ _ _ _ _ _ quiet
           loader2 None (world0 false));
    [exact quiet_never_raises | reflexivity | reflexivity].
Defined.

Lemma unet_modules_return : modules_return unet_modules.
Proof. intros c args. eexists. reflexivity. Qed.

Lemma decoder_init_builds_chain_witness :
  exists d,
    Unet.UnetDecoder_init (Tensor:=Z) (UserExn:=string)
      encoder_channels decoder_channels 3 false [] = (inr d, []) /\
    map Unet.blk_out [Unet.layer1 d; Unet.layer2 d; Unet.layer3 d;
                      Unet.layer4 d; Unet.layer5 d] = [256; 128; 64; 32; 16]%Z /\
    map Unet.blk_in [Unet.layer1 d; Unet.layer2 d; Unet.layer3 d;
                     Unet.layer4 d; Unet.layer5 d] = [768; 384; 192; 128; 32]%Z /\
    Unet.final_conv d = (16, 3)%Z /\
    Unet.center d = None.
Proof.
  destruct (decoder_init_builds_chain (Tensor:=Z) (UserExn:=string)
              encoder_channels decoder_channels 3 false [])
    as (d & E & Ho & I1 & I2 & I3 & I4 & I5 & Hf & Hc);
    [simpl; lia | simpl; lia |].
  exists d. split; [exact E|]. split; [exact Ho|].
  simpl in Ho. inversion Ho as [[O1 O2 O3 O4 O5]].
  split.
  - simpl. rewrite I1, I2, I3, I4, I5, O1, O2, O3, O4. reflexivity.
  - rewrite Hf, O5. split; [reflexivity | exact Hc].
Defined.

Lemma decoder_init_index_error_witness :
  Unet.UnetDecoder_init (Tensor:=Z) (UserExn:=string)
    encoder_channels [256; 128; 64; 32]%Z 1 false [] =
  (inl Unet.IndexError, []).
Proof.
  apply (decoder_init_index_error (Tensor:=Z) (UserExn:=string)
           encoder_channels [256; 128; 64; 32]%Z 1 false []).
  right. simpl. lia.
Defined.

Lemma decoder_forward_modules_witness :
  (exists calls v,
     Unet.UnetDecoder_forward unet_modules
       (Unet.mkDecoder None (Unet.mkBlock "layer1" 768 256)
          (Unet.mkBlock "layer2" 384 128) (Unet.mkBlock "layer3" 192 64)
          (Unet.mkBlock "layer4" 128 32) (Unet.mkBlock "layer5" 32 16) (16, 1)%Z)
       features [] = (inr v, [] ++ calls) /\
     length calls = 7) /\
  (exists calls,
     Unet.UnetDecoder_forward unet_modules
       (Unet.mkDecoder None (Unet.mkBlock "layer1" 768 256)
          (Unet.mkBlock "layer2" 384 128) (Unet.mkBlock "layer3" 192 64)
          (Unet.mkBlock "layer4" 128 32) (Unet.mkBlock "layer5" 32 16) (16, 1)%Z)
       [Unet.PyTensor 0%Z; Unet.PyTensor 1%Z; Unet.PyTensor 2%Z] [] =
     (inl Unet.IndexError, [] ++ calls) /\
     length calls = 2).
Proof.
  set (d := Unet.mkDecoder None (Unet.mkBlock "layer1" 768 256)
          (Unet.mkBlock "layer2" 384 128) (Unet.mkBlock "layer3" 192 64)
          (Unet.mkBlock "layer4" 128 32) (Unet.mkBlock "layer5" 32 16) (16, 1)%Z).
  split.
  - destruct (decoder_forward_modules unet_modules_return d features [])
      as (calls & Hl & _ & Hfull & _).
    destruct Hfull as (Hc & v & Hv); [simpl; lia|].
    exists calls, v. split.
    + rewrite (surjective_pairing (Unet.UnetDecoder_forward _ _ _ _)).
      now rewrite Hl, Hv.
    + rewrite <- (length_map Unet.c_callee), Hc. reflexivity.
  - destruct (decoder_forward_modules unet_modules_return d
                [Unet.PyTensor 0%Z; Unet.PyTensor 1%Z; Unet.PyTensor 2%Z] [])
      as (calls & Hl & Hc & _ & Hshort).
    exists calls. split.
    + rewrite (surjective_pairing (Unet.UnetDecoder_forward _ _ _ _)).
      rewrite Hl, Hshort by (simpl; lia). reflexivity.
    + rewrite <- (length_map Unet.c_callee), Hc. reflexivity.
Defined.

Lemma decoder_forward_value_witness :
  fst (Unet.UnetDecoder_forward unet_modules
         (Unet.mkDecoder None (Unet.mkBlock "layer1" 768 256)
            (Unet.mkBlock "layer2" 384 128) (Unet.mkBlock "layer3" 192 64)
            (Unet.mkBlock "layer4" 128 32) (Unet.mkBlock "layer5" 32 16) (16, 1)%Z)
         features []) =
  inr (Unet.PyTensor 7%Z).
Proof.
  unfold features.
  rewrite (decoder_forward_value unet_modules_return) by (simpl; lia).
  reflexivity.
Defined.

Lemma centered_decoder_ignores_head_witness :
  fst (Unet.UnetDecoder_forward unet_modules
         (Unet.mkDecoder (Some (Unet.mkBlock "center" 512 512))
            (Unet.mkBlock "layer1" 768 256)
            (Unet.mkBlock "layer2" 384 128) (Unet.mkBlock "layer3" 192 64)
            (Unet.mkBlock "layer4" 128 32) (Unet.mkBlock "layer5" 32 16) (16, 1)%Z)
         features []) =
  fst (Unet.UnetDecoder_forward unet_modules
         (Unet.mkDecoder (Some (Unet.mkBlock "center" 512 512))
            (Unet.mkBlock "layer1" 768 256)
            (Unet.mkBlock "layer2" 384 128) (Unet.mkBlock "layer3" 192 64)
            (Unet.mkBlock "layer4" 128 32) (Unet.mkBlock "layer5" 32 16) (16, 1)%Z)
         (Unet.PyNone :: tail features) []).
Proof.
  unfold features. cbn [tail].
  apply (@centered_decoder_ignores_head _ _ unet_modules unet_modules_return
           _ (Unet.mkBlock "center" 512 512));
    [reflexivity | simpl; lia].
Defined.
